(** * Odds enrichment of an NFL schedule (nfl/odds_schedule.py)

    A shallow embedding of the enrichment pipeline: the team normaliser,
    the market extractor over the provider's events, the loader of the
    historical lines file and the orchestrator [fetch_schedule_odds],
    followed by the properties of the specification.

    Modelling conventions.
    - A cell of a pandas frame is [option scalar]: [None] is the missing
      value (Python [None], [NaN], [pd.NA]); a scalar is a string or a number.
    - A frame is an ordered list of column labels and a list of rows; a row
      maps a label to its non-missing scalar, so a lookup that answers
      [None] is a missing cell.  Labels of a frame are distinct, as
      [read_csv] and the [DataFrame] constructors produce them; theorems
      state as hypotheses the cases where an operation keeps them distinct.
    - Strings are byte strings; [upper] and [lower] act on ASCII letters.
    - The provider call and the file system are inputs: an [http_response]
      (the call failed, or it delivered events) and a map from paths to
      files (absent, unreadable, or a parsed table).
    - Warnings are not observable by any property below and are left out. *)

From Stdlib Require Import QArith Ascii.
From stdpp Require Import gmap strings list fin_maps sorting.

Open Scope string_scope.
Open Scope list_scope.

(** ** Scalars and cells *)

Inductive scalar :=
  | SStr (s : string)
  | SNum (q : Q).

#[global] Instance Q_eq_dec : EqDecision Q.
Proof. solve_decision. Defined.

#[global] Instance scalar_eq_dec : EqDecision scalar.
Proof. solve_decision. Defined.

Abbreviation cell := (option scalar).

(** Python's [str.upper] / [str.lower] on ASCII letters. *)
Definition upper_ascii (c : ascii) : ascii :=
  let n := nat_of_ascii c in
  if (97 <=? n)%nat && (n <=? 122)%nat then ascii_of_nat (n - 32) else c.

Definition lower_ascii (c : ascii) : ascii :=
  let n := nat_of_ascii c in
  if (65 <=? n)%nat && (n <=? 90)%nat then ascii_of_nat (n + 32) else c.

Fixpoint upper (s : string) : string :=
  match s with
  | EmptyString => EmptyString
  | String c s' => String (upper_ascii c) (upper s')
  end.

Fixpoint lower (s : string) : string :=
  match s with
  | EmptyString => EmptyString
  | String c s' => String (lower_ascii c) (lower s')
  end.

(** ** Lookup tables *)

Definition ODDS_TEAM_NAME_TO_ABBR : gmap string string :=
  list_to_map [
    ("Arizona Cardinals", "ARI");
    ("Atlanta Falcons", "ATL");
    ("Baltimore Ravens", "BAL");
    ("Buffalo Bills", "BUF");
    ("Carolina Panthers", "CAR");
    ("Chicago Bears", "CHI");
    ("Cincinnati Bengals", "CIN");
    ("Cleveland Browns", "CLE");
    ("Dallas Cowboys", "DAL");
    ("Denver Broncos", "DEN");
    ("Detroit Lions", "DET");
    ("Green Bay Packers", "GB");
    ("Houston Texans", "HOU");
    ("Indianapolis Colts", "IND");
    ("Jacksonville Jaguars", "JAX");
    ("Kansas City Chiefs", "KC");
    ("Las Vegas Raiders", "LV");
    ("Los Angeles Chargers", "LAC");
    ("Los Angeles Rams", "LAR");
    ("Miami Dolphins", "MIA");
    ("Minnesota Vikings", "MIN");
    ("New England Patriots", "NE");
    ("New Orleans Saints", "NO");
    ("New York Giants", "NYG");
    ("New York Jets", "NYJ");
    ("Philadelphia Eagles", "PHI");
    ("Pittsburgh Steelers", "PIT");
    ("Seattle Seahawks", "SEA");
    ("San Francisco 49ers", "SF");
    ("Tampa Bay Buccaneers", "TB");
    ("Tennessee Titans", "TEN");
    ("Washington Commanders", "WAS")
  ].

Definition TEAM_ABBR_FIXES : gmap string string :=
  list_to_map [
    ("ARI", "ARI");
    ("BLT", "BAL");
    ("BAL", "BAL");
    ("CLV", "CLE");
    ("CLE", "CLE");
    ("GBP", "GB");
    ("GNB", "GB");
    ("GB", "GB");
    ("HST", "HOU");
    ("HOU", "HOU");
    ("JAC", "JAX");
    ("JAX", "JAX");
    ("KAN", "KC");
    ("KC", "KC");
    ("LA", "LAR");
    ("LAR", "LAR");
    ("SD", "LAC");
    ("LAC", "LAC");
    ("OAK", "LV");
    ("LVR", "LV");
    ("LV", "LV");
    ("NOR", "NO");
    ("NO", "NO");
    ("NWE", "NE");
    ("NE", "NE");
    ("SFO", "SF");
    ("SF", "SF");
    ("STL", "LAR");
    ("TAM", "TB");
    ("TB", "TB");
    ("WFT", "WAS");
    ("WSH", "WAS");
    ("WAS", "WAS")
  ].

(** Insertion order of the dict literal, for the comprehension that walks
    [HISTORICAL_NAME_MAP.items()]. *)
Definition HISTORICAL_NAME_MAP : list (string * string) := [
    ("ml_home", "home_moneyline");
    ("ml_away", "away_moneyline");
    ("moneyline_home", "home_moneyline");
    ("moneyline_away", "away_moneyline");
    ("home_ml", "home_moneyline");
    ("away_ml", "away_moneyline");
    ("spread", "spread_line");
    ("spread_home", "spread_line");
    ("total", "total_line");
    ("game_total", "total_line");
    ("over", "over_odds");
    ("under", "under_odds")
  ].

Definition ODDS_VALUE_COLUMNS : list string := [
    "home_moneyline";
    "away_moneyline";
    "spread_line";
    "home_spread_odds";
    "away_spread_odds";
    "total_line";
    "over_odds";
    "under_odds"
  ].

(** ** Team identifier normaliser *)

(** [_normalize_team]: the argument is a cell of a team column (or a name
    taken from an event).  A number is not a key of the first table and is
    not an instance of [str], so it falls through to [return name]. *)
Definition _normalize_team (name : cell) : cell :=
  match name with
  | None => None
  | Some (SStr s) =>
      match ODDS_TEAM_NAME_TO_ABBR !! s with
      | Some abbr => Some (SStr abbr)
      | None =>
          match TEAM_ABBR_FIXES !! upper s with
          | Some abbr => Some (SStr abbr)
          | None => name
          end
      end
  | Some (SNum _) => name
  end.

(** ** Python dictionaries with insertion order

    The extractor builds each row as a [dict]; its keys keep their insertion
    order, which [pd.DataFrame(rows)] turns into the column order.  A key can
    be present with the value [None]. *)

Record pydict := { dkeys : list string; dvals : gmap string cell }.

Definition dict_empty : pydict := {| dkeys := []; dvals := ∅ |}.

(** [d[k] = v] *)
Definition dict_set (k : string) (v : cell) (d : pydict) : pydict :=
  {| dkeys := match dvals d !! k with
              | Some _ => dkeys d
              | None => dkeys d ++ [k]
              end;
     dvals := <[k := v]> (dvals d) |}.

(** [d.setdefault(k, v)] *)
Definition dict_setdefault (k : string) (v : cell) (d : pydict) : pydict :=
  match dvals d !! k with
  | Some _ => d
  | None => dict_set k v d
  end.

(** [d.get(k)]: an absent key and a key bound to [None] both answer [None]. *)
Definition dict_get (k : string) (d : pydict) : cell := mjoin (dvals d !! k).

(** ** The provider's payload

    The JSON objects of the response, with the fields that the extractor
    reads.  A field that an object lacks is [None], or the empty list for
    [teams], [bookmakers], [markets] and [outcomes].  The code tests the
    truth value of the objects it has found: a market or an outcome that was
    found has the key or name it was found by, so it is not empty; a
    bookmaker can be the empty object, so the record says whether the object
    has a field apart from a key and a non-empty list of markets
    ([bk_other]: a title, a timestamp, an empty list of markets). *)

Record outcome := {
  oc_name : option string;
  oc_price : cell;
  oc_point : cell }.

Record market := {
  mk_key : option string;
  mk_outcomes : list outcome }.

Record bookmaker := {
  bk_key : option string;
  bk_markets : list market;
  bk_other : bool }.

Record event := {
  ev_home_team : option string;
  ev_teams : list string;
  ev_commence_time : option string;
  ev_bookmakers : list bookmaker }.

(** Truthiness of an optional string: [None] and the empty string are falsy. *)
Definition truthy (s : option string) : bool :=
  match s with
  | None => false
  | Some s => negb (String.eqb s "")
  end.

(** Truthiness of a bookmaker object: a dict is falsy exactly when it has no
    field. *)
Definition bookmaker_truthy (book : bookmaker) : bool :=
  bool_decide (bk_key book ≠ None) || bool_decide (bk_markets book ≠ []) || bk_other book.

Definition _select_bookmaker (bookmakers : list bookmaker) (preference : option string)
    : option bookmaker :=
  match bookmakers with
  | [] => None
  | first :: _ =>
      match preference with
      | Some pref =>
          if truthy preference then
            match find (λ book, String.eqb (lower (default "" (bk_key book))) (lower pref))
                       bookmakers with
            | Some book => Some book
            | None => Some first
            end
          else Some first
      | None => Some first
      end
  end.

Definition _find_market (bookmaker : bookmaker) (market_key : string) : option market :=
  find (λ market, bool_decide (mk_key market = Some market_key)) (bk_markets bookmaker).

Definition _find_outcome (market : market) (target : string) : option outcome :=
  find (λ outcome, bool_decide (oc_name outcome = Some target)) (mk_outcomes market).

(** ** Frames *)

Module pd.

Record DataFrame := { columns : list string; rows : list (gmap string scalar) }.

(** [pd.DataFrame(columns=cols)] *)
Definition empty_frame (cols : list string) : DataFrame :=
  {| columns := cols; rows := [] |}.

(** [pd.DataFrame(rows)] for a list of dicts: the columns are the keys in
    order of first appearance; a key that a dict lacks, or binds to [None],
    gives a missing cell. *)
Definition from_dicts (ds : list pydict) : DataFrame :=
  {| columns := foldl (λ acc d, acc ++ filter (λ k, k ∉ acc) (dkeys d)) [] ds;
     rows := (λ d, omap id (dvals d)) <$> ds |}.

(** [df.empty] *)
Definition empty (df : DataFrame) : bool :=
  bool_decide (rows df = []) || bool_decide (columns df = []).

Definition isna (c : cell) : bool := bool_decide (c = None).
Definition notna (c : cell) : bool := negb (isna c).

(** Writing one cell of a row. *)
Definition set_cell (c : string) (v : cell) (r : gmap string scalar) : gmap string scalar :=
  match v with
  | Some x => <[c := x]> r
  | None => delete c r
  end.

(** [df[c] = f(row)] computed row by row: the column is appended when it is
    new and overwritten in place otherwise. *)
Definition assign (c : string) (f : gmap string scalar → cell) (df : DataFrame) : DataFrame :=
  {| columns := if bool_decide (c ∈ columns df) then columns df else columns df ++ [c];
     rows := (λ r, set_cell c (f r) r) <$> rows df |}.

(** [df[c] = df[c].map(f)] *)
Definition map_column (c : string) (f : cell → cell) (df : DataFrame) : DataFrame :=
  assign c (λ r, f (r !! c)) df.

(** [df.loc[mask, c] = value], the mask being aligned with the rows. *)
Definition loc_set (mask : list bool) (c : string) (value : gmap string scalar → cell)
    (df : DataFrame) : DataFrame :=
  {| columns := columns df;
     rows := zip_with (λ (m : bool) r, if m then set_cell c (value r) r else r)
                      mask (rows df) |}.

(** [df.drop(columns=[c])] *)
Definition drop_column (c : string) (df : DataFrame) : DataFrame :=
  {| columns := filter (λ k, k ≠ c) (columns df);
     rows := delete c <$> rows df |}.

(** [df[cols]] *)
Definition select (cols : list string) (df : DataFrame) : DataFrame :=
  {| columns := cols;
     rows := (λ r, filter (λ kv, kv.1 ∈ cols) r) <$> rows df |}.

(** [df.dropna(subset=cols)] *)
Definition dropna (subset : list string) (df : DataFrame) : DataFrame :=
  {| columns := columns df;
     rows := filter (λ r, Forall (λ c, is_Some (r !! c)) subset) (rows df) |}.

(** The values of the key columns of a row. *)
Definition key (on : list string) (r : gmap string scalar) : list cell :=
  (λ k, r !! k) <$> on.

(** [df.drop_duplicates(subset=on, keep="last")]: a row stays when no later
    row carries the same key. *)
Fixpoint drop_duplicates_last (on : list string) (l : list (gmap string scalar))
    : list (gmap string scalar) :=
  match l with
  | [] => []
  | r :: l' =>
      if existsb (λ r', bool_decide (key on r' = key on r)) l'
      then drop_duplicates_last on l'
      else r :: drop_duplicates_last on l'
  end.

Definition drop_duplicates (on : list string) (df : DataFrame) : DataFrame :=
  {| columns := columns df; rows := drop_duplicates_last on (rows df) |}.

(** Order used by [sort_values]: ascending, missing values last.  Strings
    compare as Python compares them, numbers by value.  pandas refuses a
    column that mixes both; the only column sorted here holds the events'
    [commence_time] strings, and the order below puts numbers first. *)
Definition scalar_leb (x y : scalar) : bool :=
  match x, y with
  | SStr s, SStr t => String.leb s t
  | SNum p, SNum q => Qle_bool p q
  | SNum _, SStr _ => true
  | SStr _, SNum _ => false
  end.

Definition cell_leb (a b : cell) : bool :=
  match a, b with
  | _, None => true
  | None, Some _ => false
  | Some x, Some y => scalar_leb x y
  end.

Fixpoint insert_by (c : string) (r : gmap string scalar) (l : list (gmap string scalar))
    : list (gmap string scalar) :=
  match l with
  | [] => [r]
  | r' :: l' =>
      if cell_leb (r !! c) (r' !! c) then r :: l else r' :: insert_by c r l'
  end.

(** [df.sort_values(c)], as an insertion sort.  The claims below only use
    that the result is an ordered rearrangement of the rows. *)
Definition sort_values (c : string) (df : DataFrame) : DataFrame :=
  {| columns := columns df; rows := foldr (insert_by c) [] (rows df) |}.

(** The cells of [r] under the labels [cols], each label [c] renamed [f c]. *)
Definition relabel (f : string → string) (cols : list string) (r : gmap string scalar)
    : gmap string scalar :=
  foldr (λ c acc, match r !! c with
                  | Some v => <[f c := v]> acc
                  | None => acc
                  end) ∅ cols.

(** [df.rename(columns=m)] for a dict [m] given as its items. *)
Definition rename (m : list (string * string)) (df : DataFrame) : DataFrame :=
  let f c := default c ((list_to_map m : gmap string string) !! c) in
  {| columns := f <$> columns df;
     rows := relabel f (columns df) <$> rows df |}.

(** [left.merge(right, on=on, how="left", suffixes=(ls, rs))].  The key
    columns of [right] are dropped; a label that both sides carry outside
    the key is renamed with the side's suffix.  Every left row appears once
    per right row of equal key, in the order of [right], or once alone when
    no right row matches.  Missing key cells match each other, as in pandas. *)
Definition rest (on : list string) (df : DataFrame) : list string :=
  filter (λ c, c ∉ on) (columns df).

Definition overlap (left right : DataFrame) (on : list string) : list string :=
  filter (λ c, c ∈ rest on right) (rest on left).

Definition suffixed (ov : list string) (sfx c : string) : string :=
  if bool_decide (c ∈ ov) then c +:+ sfx else c.

Definition merge (left right : DataFrame) (on : list string) (suffixes : string * string)
    : DataFrame :=
  let ov := overlap left right on in
  {| columns := (suffixed ov suffixes.1 <$> columns left)
                ++ (suffixed ov suffixes.2 <$> rest on right);
     rows :=
       l ← rows left;
       let l' := relabel (suffixed ov suffixes.1) (columns left) l in
       match filter (λ r, key on r = key on l) (rows right) with
       | [] => [l']
       | matches =>
           (λ r, l' ∪ relabel (suffixed ov suffixes.2) (rest on right) r) <$> matches
       end |}.

(** [df[c] = df[c].fillna(v)] *)
Definition fillna (c : string) (v : scalar) (df : DataFrame) : DataFrame :=
  assign c (λ r, match r !! c with Some x => Some x | None => Some v end) df.

End pd.

Import pd (DataFrame, columns, rows).

(** ** Market extractor *)

(** The three market blocks of the loop body of [_odds_json_to_frame], each
    updating the row dict. *)
Definition moneyline_fields (bookmaker : bookmaker) (home_full away_full : string)
    (row : pydict) : pydict :=
  match _find_market bookmaker "h2h" with
  | Some h2h =>
      let home_ml := _find_outcome h2h home_full in
      let away_ml := _find_outcome h2h away_full in
      dict_set "away_moneyline" (away_ml ≫= oc_price)
        (dict_set "home_moneyline" (home_ml ≫= oc_price) row)
  | None => row
  end.

Definition spread_fields (bookmaker : bookmaker) (home_full away_full : string)
    (row : pydict) : pydict :=
  match _find_market bookmaker "spreads" with
  | Some spreads =>
      let home_spread := _find_outcome spreads home_full in
      let away_spread := _find_outcome spreads away_full in
      let row :=
        match home_spread with
        | Some home_spread =>
            dict_set "home_spread_odds" (oc_price home_spread)
              (dict_set "spread_line" (oc_point home_spread) row)
        | None => row
        end in
      match away_spread with
      | Some away_spread =>
          dict_set "away_spread_odds" (oc_price away_spread)
            (dict_setdefault "spread_line" (oc_point away_spread) row)
      | None => row
      end
  | None => row
  end.

Definition total_fields (bookmaker : bookmaker) (row : pydict) : pydict :=
  match _find_market bookmaker "totals" with
  | Some totals =>
      let over := _find_outcome totals "Over" in
      let under := _find_outcome totals "Under" in
      let row :=
        match over with
        | Some over =>
            dict_set "over_odds" (oc_price over)
              (dict_set "total_line" (oc_point over) row)
        | None => row
        end in
      match under with
      | Some under =>
          dict_set "under_odds" (oc_price under)
            (dict_setdefault "total_line" (oc_point under) row)
      | None => row
      end
  | None => row
  end.

(** The row dict as first created, before the market blocks. *)
Definition base_row (event : event) (home_full away_full : string) : pydict :=
  dict_set "odds_source" (Some (SStr "odds_api"))
    (dict_set "commence_time" (SStr <$> ev_commence_time event)
      (dict_set "away_team" (_normalize_team (Some (SStr away_full)))
        (dict_set "home_team" (_normalize_team (Some (SStr home_full)))
          dict_empty))).

(** The body of the loop of [_odds_json_to_frame] for one event: [None]
    when the event is skipped (a team is missing, or no bookmaker is
    selected, or the selected bookmaker is the empty object: lines 159-164),
    the row dict otherwise. *)
Definition event_row (event : event) (bookmaker_preference : option string)
    : option pydict :=
  let home_full := ev_home_team event in
  let teams := ev_teams event in
  let away_full := find (λ t, bool_decide (Some t ≠ home_full)) teams in
  if negb (truthy home_full) || negb (truthy away_full) then None else
  match home_full, away_full,
        _select_bookmaker (ev_bookmakers event) bookmaker_preference with
  | Some home_full, Some away_full, Some bookmaker =>
      if negb (bookmaker_truthy bookmaker) then None else
      let row := base_row event home_full away_full in
      Some (total_fields bookmaker
             (spread_fields bookmaker home_full away_full
               (moneyline_fields bookmaker home_full away_full row)))
  | _, _, _ => None
  end.

Definition _odds_json_to_frame (events : list event) (bookmaker_preference : option string)
    : DataFrame :=
  let rows := omap (λ event, event_row event bookmaker_preference) events in
  match rows with
  | [] => pd.empty_frame ["home_team"; "away_team"]
  | _ => pd.from_dicts rows
  end.

(** ** Exceptions and the outside world *)

(** The errors that the source raises itself or meets at its own calls to
    the outside.  The frames of this development are untyped, so the errors
    that pandas raises for data it refuses (a merge on key columns of
    different dtype, duplicate labels after a rename, a sort of mixed
    types) have no counterpart here: where a function of the model
    returns, the code returns provided pandas accepts the data. *)
Inductive exn :=
  | ValueError_missing_columns (missing : list string)
      (* "Schedule is missing required columns: {sorted(missing)}" *)
  | RequestError   (* requests.get, raise_for_status or response.json failed *)
  | ReadError.     (* pd.read_csv failed on an existing path *)

Inductive result (A : Type) :=
  | Returned (a : A)
  | Raised (e : exn).
Arguments Returned {A} a.
Arguments Raised {A} e.

(** What the GET of [_fetch_latest_odds] delivers. *)
Inductive http_response :=
  | HttpFailure
  | HttpEvents (data : list event).

(** What lies at a path. *)
Inductive file :=
  | Absent
  | Unreadable
  | Csv (table : DataFrame).

Definition path_exists (fs : string → file) (path : string) : bool :=
  match fs path with
  | Absent => false
  | _ => true
  end.

Definition read_csv (fs : string → file) (path : string) : result DataFrame :=
  match fs path with
  | Csv table => Returned table
  | _ => Raised ReadError
  end.

(** [_fetch_latest_odds]: the request parameters only shape the response,
    which is an input here. *)
Definition _fetch_latest_odds (response : http_response)
    (bookmaker_preference : option string) : result DataFrame :=
  match response with
  | HttpFailure => Raised RequestError
  | HttpEvents data => Returned (_odds_json_to_frame data bookmaker_preference)
  end.

(** ** Historical backfill loader *)

(** [list(dict.fromkeys(l))]: duplicates removed, first occurrences kept. *)
Definition dict_fromkeys (l : list string) : list string :=
  foldl (λ acc k, if bool_decide (k ∈ acc) then acc else acc ++ [k]) [] l.

Definition _prepare_historical_lines (fs : string → file)
    (historical_csv : option string) (key_cols : list string)
    : result (option DataFrame) :=
  match historical_csv with
  | None => Returned None
  | Some path =>
      if negb (truthy historical_csv) || negb (path_exists fs path) then Returned None else
      match read_csv fs path with
      | Raised e => Raised e
      | Returned hist =>
          let rename_map :=
            filter (λ kv, kv.1 ∈ columns hist) HISTORICAL_NAME_MAP in
          let hist := pd.rename rename_map hist in
          let missing_keys := filter (λ col, col ∉ columns hist) key_cols in
          match missing_keys with
          | _ :: _ => Returned None
          | [] =>
              let hist := pd.map_column "home_team" _normalize_team hist in
              let hist := pd.map_column "away_team" _normalize_team hist in
              let keep_cols :=
                dict_fromkeys
                  (key_cols ++ filter (λ c, c ∈ columns hist) ODDS_VALUE_COLUMNS) in
              Returned (Some (pd.select keep_cols hist))
          end
      end
  end.

(** ** Schedule enrichment orchestrator *)

Definition key_cols : list string := ["season"; "week"; "home_team"; "away_team"].

(** Lines 288-303: the live table before it is cleaned. *)
Definition fetched_latest (api_key : string) (response : http_response)
    (bookmaker_preference : option string) : DataFrame :=
  if truthy (Some api_key) then
    match _fetch_latest_odds response bookmaker_preference with
    | Returned latest => latest
    | Raised _ => pd.empty_frame key_cols
    end
  else pd.empty_frame ["home_team"; "away_team"].

(** Lines 305-309: rows without a team dropped, one row kept per pair. *)
Definition clean_latest (latest : DataFrame) : DataFrame :=
  let latest := pd.dropna ["home_team"; "away_team"] latest in
  if negb (pd.empty latest) && bool_decide ("commence_time" ∈ columns latest) then
    pd.drop_duplicates ["home_team"; "away_team"] (pd.sort_values "commence_time" latest)
  else latest.

(** [if col not in merged.columns: merged[col] = pd.NA] *)
Definition ensure_column (merged : DataFrame) (col : string) : DataFrame :=
  if bool_decide (col ∉ columns merged) then pd.assign col (λ _, None) merged
  else merged.

(** Lines 310-321: the live merge, then the odds-value columns that are
    still absent are created empty. *)
Definition merge_live (schedule latest : DataFrame) : DataFrame :=
  let latest_cols :=
    ["home_team"; "away_team"] ++
    filter (λ c, c ∈ columns latest) (ODDS_VALUE_COLUMNS ++ ["odds_source"; "commence_time"]) in
  let merged :=
    pd.merge schedule (pd.select latest_cols latest) ["home_team"; "away_team"] ("_x", "_y") in
  foldl ensure_column merged ODDS_VALUE_COLUMNS.

(** One turn of the loop of lines 332-339. *)
Definition backfill_column (st : DataFrame * list bool) (col : string)
    : DataFrame * list bool :=
  let '(merged, filled_from_hist) := st in
  let hist_col := col +:+ "_hist" in
  if bool_decide (hist_col ∈ columns merged) then
    let mask := (λ r, pd.isna (r !! col) && pd.notna (r !! hist_col)) <$> rows merged in
    let '(merged, filled_from_hist) :=
      if existsb id mask then
        (pd.loc_set mask col (λ r, r !! hist_col) merged,
         zip_with orb filled_from_hist mask)
      else (merged, filled_from_hist) in
    (pd.drop_column hist_col merged, filled_from_hist)
  else (merged, filled_from_hist).

(** Lines 324-345: the historical merge and fill. *)
Definition backfill (merged : DataFrame) (hist : option DataFrame) : DataFrame :=
  match hist with
  | Some hist =>
      if negb (pd.empty hist) then
        let merged := pd.merge merged hist key_cols ("", "_hist") in
        let filled_from_hist := (λ _, false) <$> rows merged in
        let '(merged, filled_from_hist) :=
          foldl backfill_column (merged, filled_from_hist) ODDS_VALUE_COLUMNS in
        let merged := ensure_column merged "odds_source" in
        pd.loc_set
          ((λ '(f, r), f && pd.isna (r !! "odds_source")) <$> zip filled_from_hist (rows merged))
          "odds_source" (λ _, Some (SStr "historical")) merged
      else ensure_column merged "odds_source"
  | None => ensure_column merged "odds_source"
  end.

(** Lines 347-349. *)
Definition tag_sources (merged : DataFrame) : DataFrame :=
  let merged := pd.fillna "odds_source" (SStr "odds_api") merged in
  let still_missing :=
    (λ r, forallb (λ c, pd.isna (r !! c)) ODDS_VALUE_COLUMNS) <$> rows merged in
  pd.loc_set still_missing "odds_source" (λ _, Some (SStr "missing")) merged.

Definition fetch_schedule_odds (fs : string → file) (response : http_response)
    (schedule : DataFrame) (api_key : string) (historical_csv : option string)
    (bookmaker_preference : option string) : result DataFrame :=
  let required := ["away_team"; "home_team"; "season"; "week"] in
  let missing := filter (λ c, c ∉ columns schedule) required in
  match missing with
  | _ :: _ => Raised (ValueError_missing_columns missing)
  | [] =>
      let schedule := pd.map_column "home_team" _normalize_team schedule in
      let schedule := pd.map_column "away_team" _normalize_team schedule in
      let latest := fetched_latest api_key response bookmaker_preference in
      let latest := clean_latest latest in
      let merged := merge_live schedule latest in
      let hist :=
        if truthy historical_csv
        then _prepare_historical_lines fs historical_csv key_cols
        else Returned None in
      match hist with
      | Raised e => Raised e
      | Returned hist => Returned (tag_sources (backfill merged hist))
      end
  end.


(** ** Vocabulary of the statements *)

(** The canonical name of a column label of the historical file: the fixed
    synonym table applied to one label. *)
Definition canonical_label (c : string) : string :=
  default c ((list_to_map HISTORICAL_NAME_MAP : gmap string string) !! c).

(** The pairs that a left merge on [on] forms: every left row with each right
    row of equal key, in the order of the right rows, or with no partner. *)
Definition joined (on : list string) (ls rs : list (gmap string scalar))
    : list (gmap string scalar * option (gmap string scalar)) :=
  l ← ls;
  match filter (λ r, pd.key on r = pd.key on l) rs with
  | [] => [(l, None)]
  | matches => (λ r, (l, Some r)) <$> matches
  end.

(** The merged row of a pair. *)
Definition merge_row (ov : list string) (suffixes : string * string)
    (lcols rcols : list string)
    (p : gmap string scalar * option (gmap string scalar)) : gmap string scalar :=
  let l' := pd.relabel (pd.suffixed ov suffixes.1) lcols p.1 in
  match p.2 with
  | Some r => l' ∪ pd.relabel (pd.suffixed ov suffixes.2) rcols r
  | None => l'
  end.

(** A frame is well formed when its rows have cells under its labels only. *)
Definition frame_wf (df : DataFrame) : Prop :=
  Forall (λ r : gmap string scalar, dom r ⊆ list_to_set (columns df)) (rows df).

(** The label under which the historical merge carries column [c]. *)
Definition hist_label (c : string) : string := c +:+ "_hist".

(** The labels that the live table can bring. *)
Definition live_labels : list string :=
  ODDS_VALUE_COLUMNS ++ ["odds_source"; "commence_time"].

(** The live table as it enters the merge. *)
Definition live_selection (latest : DataFrame) : DataFrame :=
  pd.select (["home_team"; "away_team"] ++
             filter (λ c, c ∈ columns latest) live_labels) latest.

(** A dict whose key list and bindings agree. *)
Definition dict_wf (d : pydict) : Prop :=
  ∀ k, k ∈ dkeys d ↔ is_Some (dvals d !! k).

(** The frame after the live merge (lines 283-321). *)
Definition live_merged (schedule : DataFrame) (api_key : string)
    (response : http_response) (bookmaker_preference : option string) : DataFrame :=
  merge_live
    (pd.map_column "away_team" _normalize_team
       (pd.map_column "home_team" _normalize_team schedule))
    (clean_latest (fetched_latest api_key response bookmaker_preference)).

(** The historical table of a run: what the loader returns, or a table
    without rows when it returns none. *)
Definition loaded_hist (fs : string → file) (historical_csv : option string) : DataFrame :=
  match _prepare_historical_lines fs historical_csv key_cols with
  | Returned (Some hist) => hist
  | _ => pd.empty_frame key_cols
  end.

(** The preconditions of the historical stage: the live-merged frame carries
    the eight odds-value columns and none of their [_hist] labels, and the
    historical table has the key columns and odds-value columns only. *)
Definition backfill_ready (merged hist : DataFrame) : Prop :=
  frame_wf merged ∧ frame_wf hist ∧
  Forall (λ c, c ∈ columns merged ∧ hist_label c ∉ columns merged) ODDS_VALUE_COLUMNS ∧
  Forall (λ k, k ∈ columns hist) key_cols ∧
  Forall (λ c, c ∈ key_cols ∨ c ∈ ODDS_VALUE_COLUMNS) (columns hist).

(** One turn of the fill loop read on one row: the labels of the frame, the
    row and its [filled_from_hist] flag. *)
Definition fill_step (st : list string * gmap string scalar * bool) (col : string)
    : list string * gmap string scalar * bool :=
  let '(labels, r, filled) := st in
  let hist_col := hist_label col in
  if bool_decide (hist_col ∈ labels) then
    let m := pd.isna (r !! col) && pd.notna (r !! hist_col) in
    (filter (λ k, k ≠ hist_col) labels,
     delete hist_col (if m then pd.set_cell col (r !! hist_col) r else r),
     filled || m)
  else st.

(** The fill loop and the historical tag (lines 331-342) read on one pair: a
    field is taken from the historical row only where the live-merge value
    is missing and the historical value is not; a row that received a field
    this way and carries no source tag becomes [historical]. *)
Definition hist_value (h : option (gmap string scalar)) (c : string) : cell :=
  h ≫= (λ h, h !! c).

Definition filled_from_hist (l : gmap string scalar) (h : option (gmap string scalar))
    : bool :=
  existsb (λ c, pd.isna (l !! c) && pd.notna (hist_value h c)) ODDS_VALUE_COLUMNS.

Definition backfilled_row (p : gmap string scalar * option (gmap string scalar))
    : gmap string scalar :=
  let '(l, h) := p in
  let r := foldr (λ c r, if pd.isna (l !! c) && pd.notna (hist_value h c)
                         then pd.set_cell c (hist_value h c) r else r)
                 l ODDS_VALUE_COLUMNS in
  if filled_from_hist l h && pd.isna (l !! "odds_source")
  then pd.set_cell "odds_source" (Some (SStr "historical")) r
  else r.

(** Lines 347-349 read on one row. *)
Definition tag_row (r : gmap string scalar) : gmap string scalar :=
  let r1 := pd.set_cell "odds_source"
              (match r !! "odds_source" with
               | Some x => Some x
               | None => Some (SStr "odds_api")
               end) r in
  if forallb (λ c, pd.isna (r1 !! c)) ODDS_VALUE_COLUMNS
  then pd.set_cell "odds_source" (Some (SStr "missing")) r1
  else r1.

(** ** Sample data

    A schedule, provider events, historical files and a file system, used by
    the examples that instantiate the statements below. *)

Definition mkrow (cells : list (string * scalar)) : gmap string scalar :=
  list_to_map cells.

Definition sample_schedule : DataFrame :=
  {| columns := ["season"; "week"; "home_team"; "away_team"];
     rows := [
       mkrow [("season", SNum 2023); ("week", SNum 1);
              ("home_team", SStr "Kansas City Chiefs"); ("away_team", SStr "DEN")];
       mkrow [("season", SNum 2023); ("week", SNum 1);
              ("home_team", SStr "OAK"); ("away_team", SStr "SD")];
       mkrow [("season", SNum 2023); ("week", SNum 2);
              ("home_team", SStr "GB"); ("away_team", SStr "CHI")] ] |}.

(** A schedule that lacks the [week] column. *)
Definition schedule_without_week : DataFrame :=
  {| columns := ["season"; "home_team"; "away_team"];
     rows := [ mkrow [("season", SNum 2023);
                      ("home_team", SStr "KC"); ("away_team", SStr "DEN")] ] |}.

(** A one-game schedule. *)
Definition raiders_schedule : DataFrame :=
  {| columns := ["season"; "week"; "home_team"; "away_team"];
     rows := [ mkrow [("season", SNum 2023); ("week", SNum 1);
                      ("home_team", SStr "LV"); ("away_team", SStr "LAC")] ] |}.

(** A one-game schedule that carries a spread of its own. *)
Definition priced_schedule : DataFrame :=
  {| columns := ["season"; "week"; "home_team"; "away_team"; "spread_line"];
     rows := [ mkrow [("season", SNum 2023); ("week", SNum 1);
                      ("home_team", SStr "LV"); ("away_team", SStr "LAC");
                      ("spread_line", SNum (-3))] ] |}.

(** Kansas City at home to Denver: moneylines, and a spread whose two sides
    report different points. *)
Definition chiefs_event : event :=
  {| ev_home_team := Some "Kansas City Chiefs";
     ev_teams := ["Kansas City Chiefs"; "Denver Broncos"];
     ev_commence_time := Some "2023-09-08T00:20:00Z";
     ev_bookmakers := [
       {| bk_key := Some "fanduel";
          bk_other := true;
          bk_markets := [
            {| mk_key := Some "h2h";
               mk_outcomes := [
                 {| oc_name := Some "Kansas City Chiefs";
                    oc_price := Some (SNum (-150)); oc_point := None |};
                 {| oc_name := Some "Denver Broncos";
                    oc_price := Some (SNum 130); oc_point := None |} ] |};
            {| mk_key := Some "spreads";
               mk_outcomes := [
                 {| oc_name := Some "Denver Broncos";
                    oc_price := Some (SNum (-105)); oc_point := Some (SNum (4 # 1)) |};
                 {| oc_name := Some "Kansas City Chiefs";
                    oc_price := Some (SNum (-110));
                    oc_point := Some (SNum (-7 # 2)) |} ] |};
            {| mk_key := Some "totals";
               mk_outcomes := [
                 {| oc_name := Some "Under";
                    oc_price := Some (SNum (-108));
                    oc_point := Some (SNum (95 # 2)) |} ] |} ] |} ] |}.

(** The same game quoted earlier, with another price. *)
Definition chiefs_event_earlier : event :=
  {| ev_home_team := Some "Kansas City Chiefs";
     ev_teams := ["Kansas City Chiefs"; "Denver Broncos"];
     ev_commence_time := Some "2023-09-07T00:20:00Z";
     ev_bookmakers := [
       {| bk_key := Some "fanduel";
          bk_other := true;
          bk_markets := [
            {| mk_key := Some "h2h";
               mk_outcomes := [
                 {| oc_name := Some "Kansas City Chiefs";
                    oc_price := Some (SNum (-140)); oc_point := None |} ] |} ] |} ] |}.

(** The same game without a [commence_time], with another price. *)
Definition chiefs_event_undated : event :=
  {| ev_home_team := Some "Kansas City Chiefs";
     ev_teams := ["Kansas City Chiefs"; "Denver Broncos"];
     ev_commence_time := None;
     ev_bookmakers := [
       {| bk_key := Some "fanduel";
          bk_other := true;
          bk_markets := [
            {| mk_key := Some "h2h";
               mk_outcomes := [
                 {| oc_name := Some "Kansas City Chiefs";
                    oc_price := Some (SNum (-120)); oc_point := None |} ] |} ] |} ] |}.

(** The same game with the empty object as its only bookmaker. *)
Definition chiefs_event_empty_book : event :=
  {| ev_home_team := Some "Kansas City Chiefs";
     ev_teams := ["Kansas City Chiefs"; "Denver Broncos"];
     ev_commence_time := Some "2023-09-08T00:20:00Z";
     ev_bookmakers := [ {| bk_key := None; bk_markets := []; bk_other := false |} ] |}.

(** Las Vegas at home to the Chargers; the bookmaker lists no market. *)
Definition raiders_event : event :=
  {| ev_home_team := Some "Las Vegas Raiders";
     ev_teams := ["Las Vegas Raiders"; "Los Angeles Chargers"];
     ev_commence_time := Some "2023-09-10T20:25:00Z";
     ev_bookmakers := [ {| bk_key := Some "Pinnacle"; bk_markets := [];
                           bk_other := true |} ] |}.

(** A historical file with legacy labels and a column to drop. *)
Definition lines_table : DataFrame :=
  {| columns := ["season"; "week"; "home_team"; "away_team"; "spread"; "total"; "note"];
     rows := [
       mkrow [("season", SNum 2023); ("week", SNum 1);
              ("home_team", SStr "OAK"); ("away_team", SStr "SD");
              ("spread", SNum (-7 # 2)); ("note", SStr "closing")];
       mkrow [("season", SNum 2023); ("week", SNum 1);
              ("home_team", SStr "KC"); ("away_team", SStr "DEN");
              ("spread", SNum (-3)); ("total", SNum (47 # 1))] ] |}.

(** A historical file in which two rows carry the same key. *)
Definition repeated_lines_table : DataFrame :=
  {| columns := ["season"; "week"; "home_team"; "away_team"; "spread_line"];
     rows := [
       mkrow [("season", SNum 2023); ("week", SNum 1);
              ("home_team", SStr "LV"); ("away_team", SStr "LAC");
              ("spread_line", SNum (-3))];
       mkrow [("season", SNum 2023); ("week", SNum 1);
              ("home_team", SStr "LV"); ("away_team", SStr "LAC");
              ("spread_line", SNum (-7 # 2))] ] |}.

(** A historical file in which two rows with different keys name the same
    game once the teams are normalised. *)
Definition aliased_lines_table : DataFrame :=
  {| columns := ["season"; "week"; "home_team"; "away_team"; "spread_line"];
     rows := [
       mkrow [("season", SNum 2023); ("week", SNum 1);
              ("home_team", SStr "OAK"); ("away_team", SStr "SD");
              ("spread_line", SNum (-3))];
       mkrow [("season", SNum 2023); ("week", SNum 1);
              ("home_team", SStr "LV"); ("away_team", SStr "LAC");
              ("spread_line", SNum (-7 # 2))] ] |}.

(** A historical file without the [week] column. *)
Definition keyless_lines_table : DataFrame :=
  {| columns := ["season"; "home_team"; "away_team"; "spread"];
     rows := [ mkrow [("season", SNum 2023); ("home_team", SStr "KC");
                      ("away_team", SStr "DEN"); ("spread", SNum (-3))] ] |}.

Definition sample_fs (path : string) : file :=
  if String.eqb path "lines.csv" then Csv lines_table
  else if String.eqb path "repeated.csv" then Csv repeated_lines_table
  else if String.eqb path "aliased.csv" then Csv aliased_lines_table
  else if String.eqb path "keyless.csv" then Csv keyless_lines_table
  else if String.eqb path "broken.csv" then Unreadable
  else Absent.

(** The events of a sample response, the row that the extractor emits for
    the first game, and the live table of the response. *)
Definition sample_events : list event :=
  [chiefs_event_earlier; chiefs_event; raiders_event].

Definition chiefs_row : pydict :=
  default dict_empty (event_row chiefs_event (Some "pinnacle")).

Definition sample_latest : DataFrame :=
  fetched_latest "key" (HttpEvents sample_events) (Some "pinnacle").

(** The live table of a response that quotes one game twice, the later quote
    first; and of one that quotes it three times, the first time without a
    [commence_time]. *)
Definition reversed_latest : DataFrame :=
  fetched_latest "key" (HttpEvents [chiefs_event; chiefs_event_earlier]) (Some "pinnacle").

Definition undated_latest : DataFrame :=
  fetched_latest "key"
    (HttpEvents [chiefs_event_undated; chiefs_event; chiefs_event_earlier])
    (Some "pinnacle").

(** The frame of a result, for the examples. *)
Definition result_frame (r : result DataFrame) : DataFrame :=
  match r with
  | Returned df => df
  | Raised _ => pd.empty_frame []
  end.

(** ** Vocabulary of the further properties *)

(** The away team of an event (line 158): the first listed team that is not
    the home team. *)
Definition away_of (event : event) : option string :=
  find (λ t, bool_decide (Some t ≠ ev_home_team event)) (ev_teams event).

(** The events that name both teams and list a bookmaker: what an event
    needs to pass the two [continue] tests of the extractor (lines
    159-164). *)
Definition event_usable (event : event) : bool :=
  truthy (ev_home_team event) && truthy (away_of event) &&
  bool_decide (ev_bookmakers event ≠ []).

(** The events that pass the two tests: the bookmaker that is selected must
    not be the empty object either. *)
Definition event_kept (event : event) (preference : option string) : bool :=
  event_usable event &&
  match _select_bookmaker (ev_bookmakers event) preference with
  | Some book => bookmaker_truthy book
  | None => false
  end.

(** The keys that the extractor creates a row with, and all the keys it can
    write. *)
Definition base_labels : list string :=
  ["home_team"; "away_team"; "commence_time"; "odds_source"].

Definition extractor_labels : list string := base_labels ++ ODDS_VALUE_COLUMNS.

(** The keys of a row dict under construction: bound exactly where listed,
    distinct, and keys that the extractor writes. *)
Definition row_keys_ok (d : pydict) : Prop :=
  dict_wf d ∧ NoDup (dkeys d) ∧ dkeys d ⊆ extractor_labels.

(** A table in the form that the loader returns: the key columns followed by
    odds-value columns in their fixed order, cells under these labels only,
    and normalised teams. *)
Definition canonical_table (hist : DataFrame) : Prop :=
  frame_wf hist ∧
  (∃ present : list string, columns hist
              = key_cols ++ filter (λ c, c ∈ present) ODDS_VALUE_COLUMNS) ∧
  Forall (λ r : gmap string scalar,
            _normalize_team (r !! "home_team") = r !! "home_team" ∧
            _normalize_team (r !! "away_team") = r !! "away_team") (rows hist).

(** * Properties *)

(** ** Team identifier normaliser *)

Example normalize_full :
  _normalize_team (Some (SStr "Kansas City Chiefs")) = Some (SStr "KC").
Proof. reflexivity. Qed.

(** A lower-case alias is recognised through its upper-casing. *)
Example normalize_alias_lowercase :
  _normalize_team (Some (SStr "oak")) = Some (SStr "LV").
Proof. reflexivity. Qed.

Example normalize_unknown :
  _normalize_team (Some (SStr "London Monarchs")) = Some (SStr "London Monarchs").
Proof. reflexivity. Qed.

Lemma full_name_values_fixed name abbr :
  ODDS_TEAM_NAME_TO_ABBR !! name = Some abbr →
  _normalize_team (Some (SStr abbr)) = Some (SStr abbr).
Proof.
  intros Hin%elem_of_map_to_list.
  assert (Hall : Forall (λ kv : string * string,
                   _normalize_team (Some (SStr kv.2)) = Some (SStr kv.2))
                 (map_to_list ODDS_TEAM_NAME_TO_ABBR)).
  { apply (bool_decide_unpack _). vm_compute. exact I. }
  rewrite Forall_forall in Hall. exact (Hall _ Hin).
Qed.

Lemma alias_values_fixed alias abbr :
  TEAM_ABBR_FIXES !! alias = Some abbr →
  _normalize_team (Some (SStr abbr)) = Some (SStr abbr).
Proof.
  intros Hin%elem_of_map_to_list.
  assert (Hall : Forall (λ kv : string * string,
                   _normalize_team (Some (SStr kv.2)) = Some (SStr kv.2))
                 (map_to_list TEAM_ABBR_FIXES)).
  { apply (bool_decide_unpack _). vm_compute. exact I. }
  rewrite Forall_forall in Hall. exact (Hall _ Hin).
Qed.

(** The four branches of [_normalize_team], shared by the results below. *)
Lemma normalize_team_cases_aux :
  _normalize_team None = None ∧
  (∀ s abbr, ODDS_TEAM_NAME_TO_ABBR !! s = Some abbr →
     _normalize_team (Some (SStr s)) = Some (SStr abbr)) ∧
  (∀ s abbr, ODDS_TEAM_NAME_TO_ABBR !! s = None →
     TEAM_ABBR_FIXES !! upper s = Some abbr →
     _normalize_team (Some (SStr s)) = Some (SStr abbr)) ∧
  (∀ s, ODDS_TEAM_NAME_TO_ABBR !! s = None →
     TEAM_ABBR_FIXES !! upper s = None →
     _normalize_team (Some (SStr s)) = Some (SStr s)) ∧
  (∀ q, _normalize_team (Some (SNum q)) = Some (SNum q)).
Proof.
  split; [reflexivity|].
  split; [|split; [|split]].
  - intros s abbr H. unfold _normalize_team. rewrite H. reflexivity.
  - intros s abbr H1 H2. unfold _normalize_team. rewrite H1, H2. reflexivity.
  - intros s H1 H2. unfold _normalize_team. rewrite H1, H2. reflexivity.
  - reflexivity.
Qed.

(** C4.  [_normalize_team] is a total function (it never raises) that answers:
    the missing value for the missing value; the abbreviation of the first
    table when the input is one of its full names; otherwise the abbreviation
    that the alias table gives for the upper-cased input; otherwise the input
    itself.  So a string that neither lookup recognises comes back unchanged,
    and so does a cell that is not a string. *)
Theorem normalize_team_cases :
  _normalize_team None = None ∧
  (∀ s abbr, ODDS_TEAM_NAME_TO_ABBR !! s = Some abbr →
     _normalize_team (Some (SStr s)) = Some (SStr abbr)) ∧
  (∀ s abbr, ODDS_TEAM_NAME_TO_ABBR !! s = None →
     TEAM_ABBR_FIXES !! upper s = Some abbr →
     _normalize_team (Some (SStr s)) = Some (SStr abbr)) ∧
  (∀ s, ODDS_TEAM_NAME_TO_ABBR !! s = None →
     TEAM_ABBR_FIXES !! upper s = None →
     _normalize_team (Some (SStr s)) = Some (SStr s)) ∧
  (∀ q, _normalize_team (Some (SNum q)) = Some (SNum q)).
Proof. exact normalize_team_cases_aux. Qed.

Lemma normalize_team_cases_witness :
  _normalize_team (Some (SStr "Green Bay Packers")) = Some (SStr "GB") ∧
  _normalize_team (Some (SStr "gnb")) = Some (SStr "GB") ∧
  _normalize_team (Some (SStr "Frankfurt Galaxy")) = Some (SStr "Frankfurt Galaxy").
Proof.
  destruct normalize_team_cases as (_ & Hfull & Halias & Hother & _).
  split; [|split].
  - apply Hfull. reflexivity.
  - apply Halias; reflexivity.
  - apply Hother; reflexivity.
Defined.

(** C5.  [_normalize_team] is idempotent on every cell; on a full name of
    the first table it gives the documented abbreviation, and that
    abbreviation normalises to itself. *)
Theorem normalize_team_idempotent :
  (∀ x, _normalize_team (_normalize_team x) = _normalize_team x) ∧
  (∀ name abbr, ODDS_TEAM_NAME_TO_ABBR !! name = Some abbr →
     _normalize_team (Some (SStr name)) = Some (SStr abbr) ∧
     _normalize_team (Some (SStr abbr)) = Some (SStr abbr)).
Proof.
  split.
  - intros [[s|q]|]; [|reflexivity..].
    destruct (ODDS_TEAM_NAME_TO_ABBR !! s) as [a|] eqn:Hfull.
    { rewrite (proj1 (proj2 normalize_team_cases_aux) _ _ Hfull).
      exact (full_name_values_fixed _ _ Hfull). }
    destruct (TEAM_ABBR_FIXES !! upper s) as [a|] eqn:Halias.
    { rewrite (proj1 (proj2 (proj2 normalize_team_cases_aux)) _ _ Hfull Halias).
      exact (alias_values_fixed _ _ Halias). }
    rewrite (proj1 (proj2 (proj2 (proj2 normalize_team_cases_aux))) _ Hfull Halias).
    exact (proj1 (proj2 (proj2 (proj2 normalize_team_cases_aux))) _ Hfull Halias).
  - intros name abbr H. split.
    + exact (proj1 (proj2 normalize_team_cases_aux) _ _ H).
    + exact (full_name_values_fixed _ _ H).
Qed.

Lemma normalize_team_idempotent_witness :
  _normalize_team (Some (SStr "Las Vegas Raiders")) = Some (SStr "LV") ∧
  _normalize_team (Some (SStr "LV")) = Some (SStr "LV").
Proof. apply (proj2 normalize_team_idempotent). reflexivity. Defined.

(** ** Market extractor *)

Lemma dvals_set_eq k v d : dvals (dict_set k v d) !! k = Some v.
Proof. apply lookup_insert_eq. Qed.

Lemma dvals_set_ne k k' v d : k ≠ k' → dvals (dict_set k v d) !! k' = dvals d !! k'.
Proof. intros. by apply lookup_insert_ne. Qed.

Lemma dvals_setdefault_eq k v d :
  dvals (dict_setdefault k v d) !! k =
  match dvals d !! k with Some x => Some x | None => Some v end.
Proof.
  unfold dict_setdefault. destruct (dvals d !! k) eqn:E; [done|].
  apply dvals_set_eq.
Qed.

Lemma dvals_setdefault_ne k k' v d :
  k ≠ k' → dvals (dict_setdefault k v d) !! k' = dvals d !! k'.
Proof.
  intros. unfold dict_setdefault. destruct (dvals d !! k); [done|].
  by apply dvals_set_ne.
Qed.

Ltac dict_lookup :=
  repeat first
    [ rewrite dvals_set_eq
    | rewrite dvals_set_ne by discriminate
    | rewrite dvals_setdefault_eq
    | rewrite dvals_setdefault_ne by discriminate
    | rewrite lookup_empty ].

Lemma moneyline_fields_other book home away row k :
  k ≠ "home_moneyline" → k ≠ "away_moneyline" →
  dvals (moneyline_fields book home away row) !! k = dvals row !! k.
Proof.
  intros. unfold moneyline_fields.
  destruct (_find_market book "h2h"); [|done].
  by rewrite !dvals_set_ne.
Qed.

Lemma spread_fields_other book home away row k :
  k ≠ "spread_line" → k ≠ "home_spread_odds" → k ≠ "away_spread_odds" →
  dvals (spread_fields book home away row) !! k = dvals row !! k.
Proof.
  intros. unfold spread_fields.
  destruct (_find_market book "spreads") as [m|]; [|done].
  destruct (_find_outcome m home), (_find_outcome m away);
    by rewrite ?dvals_set_ne, ?dvals_setdefault_ne, ?dvals_set_ne.
Qed.

Lemma total_fields_other book row k :
  k ≠ "total_line" → k ≠ "over_odds" → k ≠ "under_odds" →
  dvals (total_fields book row) !! k = dvals row !! k.
Proof.
  intros. unfold total_fields.
  destruct (_find_market book "totals") as [m|]; [|done].
  destruct (_find_outcome m "Over"), (_find_outcome m "Under");
    by rewrite ?dvals_set_ne, ?dvals_setdefault_ne, ?dvals_set_ne.
Qed.

(** What the spreads block writes when the away outcome is present. *)
Lemma spread_fields_away book home away row spreads a :
  _find_market book "spreads" = Some spreads →
  _find_outcome spreads away = Some a →
  dvals row !! "spread_line" = None →
  let row' := spread_fields book home away row in
  dvals row' !! "away_spread_odds" = Some (oc_price a) ∧
  match _find_outcome spreads home with
  | Some h => dvals row' !! "spread_line" = Some (oc_point h) ∧
              dvals row' !! "home_spread_odds" = Some (oc_price h)
  | None => dvals row' !! "spread_line" = Some (oc_point a)
  end.
Proof.
  intros Hm Ha Hfresh. unfold spread_fields. rewrite Hm, Ha.
  destruct (_find_outcome spreads home) as [h|]; cbv zeta.
  - rewrite dvals_set_eq. split; [done|].
    rewrite !(dvals_set_ne "away_spread_odds") by done.
    rewrite dvals_setdefault_eq, (dvals_setdefault_ne "spread_line") by done.
    rewrite (dvals_set_ne "home_spread_odds" "spread_line") by done.
    by rewrite !dvals_set_eq.
  - rewrite dvals_set_eq. split; [done|].
    rewrite dvals_set_ne by done. by rewrite dvals_setdefault_eq, Hfresh.
Qed.

Lemma total_fields_under book row totals u :
  _find_market book "totals" = Some totals →
  _find_outcome totals "Under" = Some u →
  dvals row !! "total_line" = None →
  let row' := total_fields book row in
  dvals row' !! "under_odds" = Some (oc_price u) ∧
  match _find_outcome totals "Over" with
  | Some o => dvals row' !! "total_line" = Some (oc_point o) ∧
              dvals row' !! "over_odds" = Some (oc_price o)
  | None => dvals row' !! "total_line" = Some (oc_point u)
  end.
Proof.
  intros Hm Hu Hfresh. unfold total_fields. rewrite Hm, Hu.
  destruct (_find_outcome totals "Over") as [o|]; cbv zeta.
  - rewrite dvals_set_eq. split; [done|].
    rewrite !(dvals_set_ne "under_odds") by done.
    rewrite dvals_setdefault_eq, (dvals_setdefault_ne "total_line") by done.
    rewrite (dvals_set_ne "over_odds" "total_line") by done.
    by rewrite !dvals_set_eq.
  - rewrite dvals_set_eq. split; [done|].
    rewrite dvals_set_ne by done. by rewrite dvals_setdefault_eq, Hfresh.
Qed.

Lemma base_row_lookup event home away k :
  dvals (base_row event home away) !! k =
  if decide (k = "odds_source") then Some (Some (SStr "odds_api"))
  else if decide (k = "commence_time") then Some (SStr <$> ev_commence_time event)
  else if decide (k = "away_team") then Some (_normalize_team (Some (SStr away)))
  else if decide (k = "home_team") then Some (_normalize_team (Some (SStr home)))
  else None.
Proof.
  unfold base_row, dict_set, dict_empty; cbn [dvals].
  repeat (rewrite lookup_insert; case_decide; subst;
          [by repeat (case_decide; [|done]) | rewrite decide_False by done]).
  apply lookup_empty.
Qed.

Lemma event_row_Some event preference row :
  event_row event preference = Some row →
  ∃ home away book,
    ev_home_team event = Some home ∧ home ≠ "" ∧ away ≠ "" ∧
    find (λ t, bool_decide (Some t ≠ Some home)) (ev_teams event) = Some away ∧
    _select_bookmaker (ev_bookmakers event) preference = Some book ∧
    row = total_fields book
            (spread_fields book home away
              (moneyline_fields book home away (base_row event home away))).
Proof.
  unfold event_row. intros H.
  destruct (ev_home_team event) as [home|]; [|done].
  destruct (find _ (ev_teams event)) as [away|] eqn:Haway;
    [|by rewrite orb_true_r in H].
  destruct (negb (truthy (Some home)) || negb (truthy (Some away))) eqn:Ht; [done|].
  apply orb_false_elim in Ht as [Hh Ha].
  destruct (_select_bookmaker _ _) as [book|]; [|done].
  destruct (negb (bookmaker_truthy book)); [done|].
  exists home, away, book. repeat split; try done.
  - intros ->. done.
  - intros ->. done.
  - by injection H.
Qed.

(** C7.  In the row that the extractor emits for an event, when the chosen
    bookmaker's spreads market has an outcome for the away team, that outcome
    gives [away_spread_odds]; [spread_line] and [home_spread_odds] are the
    home outcome's point and price whenever the home team has an outcome, and
    [spread_line] is the away outcome's point only when the home team has
    none.  The same holds for totals with "Over" in the place of the home
    team and "Under" in the place of the away team. *)
Theorem extractor_line_from_home_or_over event preference row home away book :
  event_row event preference = Some row →
  ev_home_team event = Some home →
  find (λ t, bool_decide (Some t ≠ Some home)) (ev_teams event) = Some away →
  _select_bookmaker (ev_bookmakers event) preference = Some book →
  (∀ spreads a,
     _find_market book "spreads" = Some spreads →
     _find_outcome spreads away = Some a →
     dict_get "away_spread_odds" row = oc_price a ∧
     (∀ h, _find_outcome spreads home = Some h →
        dict_get "spread_line" row = oc_point h ∧
        dict_get "home_spread_odds" row = oc_price h) ∧
     (_find_outcome spreads home = None →
        dict_get "spread_line" row = oc_point a)) ∧
  (∀ totals u,
     _find_market book "totals" = Some totals →
     _find_outcome totals "Under" = Some u →
     dict_get "under_odds" row = oc_price u ∧
     (∀ o, _find_outcome totals "Over" = Some o →
        dict_get "total_line" row = oc_point o ∧
        dict_get "over_odds" row = oc_price o) ∧
     (_find_outcome totals "Over" = None →
        dict_get "total_line" row = oc_point u)).
Proof.
  intros Hrow Hhome Haway Hbook.
  apply event_row_Some in Hrow as (home' & away' & book' & Hh & _ & _ & Ha & Hb & ->).
  rewrite Hhome in Hh. injection Hh as <-.
  rewrite Haway in Ha. injection Ha as <-.
  rewrite Hbook in Hb. injection Hb as <-.
  set (base := base_row event home away).
  split.
  - intros spreads a Hm Ho.
    destruct (spread_fields_away book home away
                (moneyline_fields book home away base) spreads a Hm Ho)
      as [Hodds Hline].
    { rewrite moneyline_fields_other by done. unfold base. by rewrite base_row_lookup. }
    unfold dict_get. rewrite !total_fields_other by done.
    rewrite Hodds. split; [done|].
    destruct (_find_outcome spreads home) as [h|].
    + destruct Hline as [-> ->]. split; [|done]. by intros ? [= <-].
    + rewrite Hline. by split.
  - intros totals u Hm Ho.
    destruct (total_fields_under book
                (spread_fields book home away (moneyline_fields book home away base))
                totals u Hm Ho)
      as [Hodds Hline].
    { rewrite spread_fields_other, moneyline_fields_other by done.
      unfold base. by rewrite base_row_lookup. }
    unfold dict_get. rewrite Hodds. split; [done|].
    destruct (_find_outcome totals "Over") as [o|].
    + destruct Hline as [-> ->]. split; [|done]. by intros ? [= <-].
    + rewrite Hline. by split.
Qed.

(** The Kansas City event of the sample data: both sides of the spread
    report, the home side second and with another point, and only "Under"
    reports a total. *)
Lemma extractor_line_from_home_or_over_witness :
  event_row chiefs_event (Some "pinnacle") = Some chiefs_row ∧
  dict_get "spread_line" chiefs_row = Some (SNum (-7 # 2)) ∧
  dict_get "home_spread_odds" chiefs_row = Some (SNum (-110)) ∧
  dict_get "away_spread_odds" chiefs_row = Some (SNum (-105)) ∧
  dict_get "total_line" chiefs_row = Some (SNum (95 # 2)) ∧
  dict_get "under_odds" chiefs_row = Some (SNum (-108)).
Proof.
  assert (Hrow : event_row chiefs_event (Some "pinnacle") = Some chiefs_row)
    by (vm_compute; reflexivity).
  split; [exact Hrow|].
  destruct (extractor_line_from_home_or_over chiefs_event (Some "pinnacle") chiefs_row
              "Kansas City Chiefs" "Denver Broncos"
              (default {| bk_key := None; bk_markets := []; bk_other := false |}
                 (head (ev_bookmakers chiefs_event)))
              Hrow eq_refl eq_refl eq_refl) as [Hspreads Htotals].
  destruct (Hspreads _ _ eq_refl eq_refl) as (Haway & Hhome & _).
  destruct (Hhome _ eq_refl) as [Hline Hodds].
  destruct (Htotals _ _ eq_refl eq_refl) as (Hunder & _ & Hline').
  specialize (Hline' eq_refl).
  repeat split; assumption.
Defined.


(** ** Frames: cells, labels and rows *)

Ltac by_compute := apply (bool_decide_unpack _); vm_compute; exact I.

Lemma lookup_set_cell c v (r : gmap string scalar) k :
  pd.set_cell c v r !! k = if decide (c = k) then v else r !! k.
Proof.
  unfold pd.set_cell. destruct v.
  - rewrite lookup_insert. by case_decide.
  - rewrite lookup_delete. by case_decide.
Qed.

Lemma lookup_select_row (cols : list string) (r : gmap string scalar) k :
  filter (λ kv : string * scalar, kv.1 ∈ cols) r !! k =
  if decide (k ∈ cols) then r !! k else None.
Proof.
  apply option_eq; intros x. rewrite map_lookup_filter_Some; simpl.
  case_decide; [|split; [by intros [? ?]|done]].
  split; [by intros [? ?]|done].
Qed.

Lemma relabel_lookup_None f cols (r : gmap string scalar) k :
  k ∉ f <$> cols → pd.relabel f cols r !! k = None.
Proof.
  induction cols as [|c cols IH]; simpl; intros Hk.
  - apply lookup_empty.
  - apply not_elem_of_cons in Hk as [Hne Hk].
    destruct (r !! c); [rewrite lookup_insert_ne by done|]; auto.
Qed.

Lemma relabel_lookup f cols (r : gmap string scalar) c :
  c ∈ cols → (∀ c', c' ∈ cols → f c' = f c → c' = c) →
  pd.relabel f cols r !! f c = r !! c.
Proof.
  induction cols as [|c0 cols IH]; simpl; intros Hc Hinj.
  - by apply elem_of_nil in Hc.
  - destruct (decide (c0 = c)) as [->|Hne].
    + destruct (r !! c) eqn:E; [by rewrite lookup_insert_eq|].
      destruct (decide (c ∈ cols)) as [Hin|Hnin].
      * rewrite IH; [done|done|]. intros c' ?. apply Hinj. by right.
      * apply relabel_lookup_None. intros (c' & Heq & Hc')%list_elem_of_fmap.
        apply Hnin. rewrite <- (Hinj c'); [done|by right|done].
    + apply elem_of_cons in Hc as [->|Hc]; [done|].
      assert (f c0 ≠ f c) by (intros ?; apply Hne, Hinj; [by left|done]).
      destruct (r !! c0); [rewrite lookup_insert_ne by done|];
        apply IH; try done; intros c' ?; apply Hinj; by right.
Qed.

Lemma relabel_id_lookup cols (r : gmap string scalar) k :
  pd.relabel id cols r !! k = if decide (k ∈ cols) then r !! k else None.
Proof.
  case_decide.
  - by apply (relabel_lookup id).
  - apply relabel_lookup_None. by rewrite list_fmap_id.
Qed.

Lemma relabel_ext f g cols (r : gmap string scalar) :
  (∀ c, c ∈ cols → f c = g c) → pd.relabel f cols r = pd.relabel g cols r.
Proof.
  induction cols as [|c cols IH]; simpl; intros Hfg; [done|].
  rewrite IH by (intros; apply Hfg; by right).
  by rewrite (Hfg c) by (by left).
Qed.

Lemma list_to_map_filter_key (l : list (string * string)) (cols : list string) c :
  c ∈ cols →
  (list_to_map (filter (λ kv : string * string, kv.1 ∈ cols) l) : gmap string string) !! c
  = (list_to_map l : gmap string string) !! c.
Proof.
  intros Hc. induction l as [|[k v] l IH]; [done|].
  rewrite filter_cons. simpl. case_decide.
  - simpl. rewrite !lookup_insert. by case_decide.
  - rewrite lookup_insert_ne; [done|]. by intros ->.
Qed.

Lemma dict_fromkeys_acc (acc l : list string) :
  NoDup (acc ++ l) →
  foldl (λ acc k, if bool_decide (k ∈ acc) then acc else acc ++ [k]) acc l = acc ++ l.
Proof.
  revert acc. induction l as [|k l IH]; intros acc Hnd; simpl.
  - by rewrite app_nil_r.
  - rewrite bool_decide_eq_false_2.
    + rewrite IH; rewrite <- app_assoc; done.
    + apply NoDup_app in Hnd as (_ & Hd & _). intros ?. eapply Hd; [done|by left].
Qed.

Lemma dict_fromkeys_NoDup l : NoDup l → dict_fromkeys l = l.
Proof. intros. by apply (dict_fromkeys_acc []). Qed.

Lemma rows_assign c f df : rows (pd.assign c f df) = (λ r, pd.set_cell c (f r) r) <$> rows df.
Proof. done. Qed.

Lemma columns_assign_old c f df : c ∈ columns df → columns (pd.assign c f df) = columns df.
Proof. intros. unfold pd.assign; simpl. by rewrite bool_decide_eq_true_2. Qed.

Lemma columns_assign_new c f df :
  c ∉ columns df → columns (pd.assign c f df) = columns df ++ [c].
Proof. intros. unfold pd.assign; simpl. by rewrite bool_decide_eq_false_2. Qed.

Lemma columns_map_column c f df :
  c ∈ columns df → columns (pd.map_column c f df) = columns df.
Proof. apply columns_assign_old. Qed.

Lemma rows_map_column c f df :
  rows (pd.map_column c f df) = (λ r, pd.set_cell c (f (r !! c)) r) <$> rows df.
Proof. done. Qed.

Lemma rows_loc_set_fmap (m : gmap string scalar → bool) c v df :
  rows (pd.loc_set (m <$> rows df) c v df)
  = (λ r, if m r then pd.set_cell c (v r) r else r) <$> rows df.
Proof.
  unfold pd.loc_set; cbn [rows]. rewrite zip_with_fmap_l.
  induction (rows df) as [|r l IH]; [done|]. simpl. by rewrite IH.
Qed.

Lemma lookup_drop_cells (cs : list string) (r : gmap string scalar) k :
  foldr delete r cs !! k = if decide (k ∈ cs) then None else r !! k.
Proof.
  induction cs as [|c cs IH]; simpl.
  - done.
  - rewrite lookup_delete, IH.
    destruct (decide (c = k)) as [->|Hck].
    + by rewrite decide_True by left.
    + destruct (decide (k ∈ cs)).
      * by rewrite decide_True by by right.
      * rewrite decide_False; [done|]. by intros [->|?]%elem_of_cons.
Qed.

Lemma ensure_column_spec df col :
  (∀ c, c ∈ columns (ensure_column df col) ↔ c ∈ columns df ∨ c = col) ∧
  rows (ensure_column df col)
  = (λ r, if bool_decide (col ∈ columns df) then r else delete col r) <$> rows df.
Proof.
  unfold ensure_column. case_bool_decide as H.
  - rewrite bool_decide_eq_false_2 by done. split.
    + intros c. rewrite columns_assign_new by done.
      rewrite elem_of_app, list_elem_of_singleton. tauto.
    + by rewrite rows_assign.
  - rewrite bool_decide_eq_true_2 by done. split.
    + intros c. split; [auto|]. by intros [?| ->].
    + by rewrite list_fmap_id.
Qed.

Lemma ensure_columns_spec cols df :
  (∀ c, c ∈ columns (foldl ensure_column df cols) ↔ c ∈ columns df ∨ c ∈ cols) ∧
  rows (foldl ensure_column df cols)
  = (λ r, foldr delete r (filter (λ c, c ∉ columns df) cols)) <$> rows df.
Proof.
  revert df. induction cols as [|col cols IH]; intros df.
  - split.
    + intros c. simpl. split; [auto|]. intros [?|H]; [done|by apply elem_of_nil in H].
    + simpl. by rewrite list_fmap_id.
  - cbn [foldl]. destruct (IH (ensure_column df col)) as [IHc IHr].
    destruct (ensure_column_spec df col) as [Ec Er]. split.
    + intros c. rewrite IHc, Ec, elem_of_cons. tauto.
    + rewrite IHr, Er, <- list_fmap_compose.
      apply list_fmap_ext. intros _ r _. cbn [compose].
      apply map_eq. intros k. rewrite !lookup_drop_cells.
      assert (Hiff : k ∈ filter (λ c, c ∉ columns (ensure_column df col)) cols
                     ∨ (k = col ∧ col ∉ columns df)
                     ↔ k ∈ filter (λ c, c ∉ columns df) (col :: cols)).
      { rewrite !list_elem_of_filter, Ec, elem_of_cons.
        destruct (decide (k = col)) as [->|]; [|tauto].
        destruct (decide (col ∈ columns df)); tauto. }
      destruct (decide (k ∈ filter (λ c, c ∉ columns df) (col :: cols))) as [Hk|Hk].
      * destruct (proj2 Hiff Hk) as [Hk'|[-> Hk']].
        -- by rewrite decide_True.
        -- rewrite bool_decide_eq_false_2 by done. rewrite lookup_delete_eq.
           by destruct (decide _).

      * rewrite decide_False by tauto.
        case_bool_decide; [done|]. rewrite lookup_delete_ne; [done|].
        intros <-. tauto.
Qed.

Lemma tag_sources_spec df :
  (∀ c, c ∈ columns (tag_sources df) ↔ c ∈ columns df ∨ c = "odds_source") ∧
  rows (tag_sources df) = tag_row <$> rows df.
Proof.
  unfold tag_sources. split.
  - intros c. cbn [pd.loc_set columns]. unfold pd.fillna.
    destruct (decide ("odds_source" ∈ columns df)).
    + rewrite columns_assign_old by done. split; [auto|]. by intros [?| ->].
    + rewrite columns_assign_new by done.
      rewrite elem_of_app, list_elem_of_singleton. tauto.
  - rewrite rows_loc_set_fmap. unfold pd.fillna. rewrite rows_assign.
    by rewrite <- list_fmap_compose.
Qed.

Lemma forallb_odds_isna (r : gmap string scalar) :
  forallb (λ c, pd.isna (r !! c)) ODDS_VALUE_COLUMNS = true ↔
  ∀ c, c ∈ ODDS_VALUE_COLUMNS → r !! c = None.
Proof.
  rewrite forallb_forall. split.
  - intros H c Hc. apply list_elem_of_In, H in Hc. unfold pd.isna in Hc.
    by apply bool_decide_eq_true_1 in Hc.
  - intros H c Hc%list_elem_of_In. unfold pd.isna. apply bool_decide_eq_true_2. auto.
Qed.

Lemma tag_row_lookup r k :
  tag_row r !! k =
  if decide (k = "odds_source") then
    if forallb (λ c, pd.isna (r !! c)) ODDS_VALUE_COLUMNS then Some (SStr "missing")
    else match r !! "odds_source" with
         | Some x => Some x
         | None => Some (SStr "odds_api")
         end
  else r !! k.
Proof.
  unfold tag_row.
  set (r1 := pd.set_cell _ _ r).
  assert (Hodds : forallb (λ c, pd.isna (r1 !! c)) ODDS_VALUE_COLUMNS
                  = forallb (λ c, pd.isna (r !! c)) ODDS_VALUE_COLUMNS).
  { apply eq_true_iff_eq. rewrite !forallb_odds_isna.
    assert (H : ∀ c, c ∈ ODDS_VALUE_COLUMNS → r1 !! c = r !! c).
    { intros c Hc. unfold r1. rewrite lookup_set_cell, decide_False; [done|].
      intros <-. revert Hc. by_compute. }
    split; intros Hall c Hc; [rewrite <- H by done|rewrite H by done]; auto. }
  rewrite Hodds. clear Hodds. destruct (forallb _ _); cbv iota.
  - rewrite lookup_set_cell. unfold r1. rewrite lookup_set_cell.
    by repeat case_decide.
  - unfold r1. rewrite lookup_set_cell. by repeat case_decide.
Qed.

Lemma rows_merge left right on sfx :
  rows (pd.merge left right on sfx)
  = merge_row (pd.overlap left right on) sfx (columns left) (pd.rest on right)
      <$> joined on (rows left) (rows right).
Proof.
  unfold pd.merge, joined; cbn [rows].
  induction (rows left) as [|l ls IH]; [done|].
  rewrite !bind_cons, fmap_app, IH. f_equal.
  destruct (filter _ (rows right)) as [|m ms]; [done|].
  rewrite <- list_fmap_compose. done.
Qed.

Lemma joined_nil_r on ls : joined on ls [] = (λ l, (l, None)) <$> ls.
Proof.
  unfold joined. induction ls as [|l ls IH]; [done|].
  rewrite bind_cons, IH. done.
Qed.

Lemma suffixed_nil sfx c : pd.suffixed [] sfx c = c.
Proof. done. Qed.

Lemma frame_eq df1 df2 :
  columns df1 = columns df2 → rows df1 = rows df2 → df1 = df2.
Proof. destruct df1, df2; simpl; congruence. Qed.

Lemma overlap_nil left right on : pd.rest on right = [] → pd.overlap left right on = [].
Proof.
  intros Hrest. unfold pd.overlap. rewrite Hrest.
  induction (pd.rest on left) as [|c l IH]; [done|].
  rewrite filter_cons, decide_False; [done|]. apply not_elem_of_nil.
Qed.

Lemma merge_empty_right left right on sfx :
  rows right = [] → pd.rest on right = [] →
  pd.merge left right on sfx
  = {| columns := columns left; rows := pd.relabel id (columns left) <$> rows left |}.
Proof.
  intros Hr Hrest. apply frame_eq.
  - unfold pd.merge; cbn [columns]. rewrite overlap_nil, Hrest by done.
    rewrite fmap_nil, app_nil_r.
    rewrite <- (list_fmap_id (columns left)) at 2. by apply list_fmap_ext.
  - rewrite rows_merge, overlap_nil, Hrest, Hr, joined_nil_r by done.
    cbn [rows]. rewrite <- list_fmap_compose.
    apply list_fmap_ext. intros _ r _. cbn [compose merge_row snd fst].
    by apply relabel_ext.
Qed.

(** The schedule with its team columns normalised. *)
Lemma normalised_schedule schedule :
  "home_team" ∈ columns schedule → "away_team" ∈ columns schedule →
  let schedule' := pd.map_column "away_team" _normalize_team
                     (pd.map_column "home_team" _normalize_team schedule) in
  columns schedule' = columns schedule ∧
  rows schedule' =
    (λ r, pd.set_cell "away_team" (_normalize_team (r !! "away_team"))
            (pd.set_cell "home_team" (_normalize_team (r !! "home_team")) r))
    <$> rows schedule.
Proof.
  intros Hh Ha. cbn zeta. split.
  - rewrite columns_map_column; rewrite columns_map_column; done.
  - rewrite !rows_map_column, <- list_fmap_compose. apply list_fmap_ext.
    intros _ r _. cbn [compose]. f_equal. f_equal.
    by rewrite lookup_set_cell, decide_False.
Qed.

(** ** The order of [sort_values] *)

Lemma ascii_compare_spec (a b : ascii) :
  CompareSpec (a = b) (N_of_ascii a < N_of_ascii b)%N (N_of_ascii b < N_of_ascii a)%N
              (Ascii.compare a b).
Proof.
  unfold Ascii.compare. destruct (N.compare_spec (N_of_ascii a) (N_of_ascii b)) as [H|H|H];
    constructor; try done.
  rewrite <- (ascii_N_embedding a), <- (ascii_N_embedding b). by rewrite H.
Qed.

Lemma string_leb_refl s : String.leb s s = true.
Proof. by destruct (String.leb_total s s). Qed.

Lemma string_leb_trans s1 s2 s3 :
  String.leb s1 s2 = true → String.leb s2 s3 = true → String.leb s1 s3 = true.
Proof.
  unfold String.leb. revert s2 s3.
  induction s1 as [|c1 s1 IH]; intros [|c2 s2] [|c3 s3]; simpl; try done.
  destruct (ascii_compare_spec c1 c2), (ascii_compare_spec c2 c3),
    (ascii_compare_spec c1 c3); subst; try done; try lia; try apply IH.
Qed.

Lemma scalar_leb_total x y : pd.scalar_leb x y = true ∨ pd.scalar_leb y x = true.
Proof.
  destruct x as [s|p], y as [t|q]; simpl; auto.
  - apply String.leb_total.
  - rewrite !Qle_bool_iff. destruct (Qlt_le_dec p q); [left; by apply Qlt_le_weak|by right].
Qed.

Lemma scalar_leb_trans x y z :
  pd.scalar_leb x y = true → pd.scalar_leb y z = true → pd.scalar_leb x z = true.
Proof.
  destruct x as [s|p], y as [t|q], z as [u|r]; simpl; try done.
  - apply string_leb_trans.
  - rewrite !Qle_bool_iff. apply Qle_trans.
Qed.

Lemma cell_leb_total a b : pd.cell_leb a b = true ∨ pd.cell_leb b a = true.
Proof. destruct a, b; simpl; auto. apply scalar_leb_total. Qed.

Lemma cell_leb_refl a : pd.cell_leb a a = true.
Proof. by destruct (cell_leb_total a a). Qed.

Lemma cell_leb_trans a b c :
  pd.cell_leb a b = true → pd.cell_leb b c = true → pd.cell_leb a c = true.
Proof. destruct a, b, c; simpl; try done. apply scalar_leb_trans. Qed.

Section sort_dedup.
Context (c : string) (on : list string).

Local Abbreviation before :=
  (λ r1 r2 : gmap string scalar, pd.cell_leb (r1 !! c) (r2 !! c) = true).

Lemma insert_by_Permutation r l : pd.insert_by c r l ≡ₚ r :: l.
Proof.
  induction l as [|r' l IH]; simpl; [done|].
  destruct (pd.cell_leb _ _); [done|]. rewrite IH. apply Permutation_swap.
Qed.

Lemma sort_Permutation l : foldr (pd.insert_by c) [] l ≡ₚ l.
Proof.
  induction l as [|r l IH]; simpl; [done|].
  by rewrite insert_by_Permutation, IH.
Qed.

Lemma insert_by_sorted r l :
  StronglySorted before l → StronglySorted before (pd.insert_by c r l).
Proof.
  induction 1 as [|r' l Hs IH Hall]; simpl.
  - by repeat constructor.
  - destruct (pd.cell_leb (r !! c) (r' !! c)) eqn:E.
    + constructor; [by constructor|]. constructor; [done|].
      eapply Forall_impl; [exact Hall|]. intros x Hx. cbv beta in *.
      by eapply cell_leb_trans.
    + constructor; [done|]. rewrite insert_by_Permutation. constructor; [|done].
      destruct (cell_leb_total (r !! c) (r' !! c)); congruence.
Qed.

Lemma sort_sorted l : StronglySorted before (foldr (pd.insert_by c) [] l).
Proof. induction l; simpl; [constructor|by apply insert_by_sorted]. Qed.

(** What [drop_duplicates(keep="last")] keeps. *)
Lemma drop_duplicates_last_subseteq l r :
  r ∈ pd.drop_duplicates_last on l → r ∈ l.
Proof.
  induction l as [|x l IH]; simpl; [done|].
  destruct (existsb _ l).
  - intros. right. auto.
  - intros [->|?]%elem_of_cons; [left|right; auto].
Qed.

Lemma drop_duplicates_last_NoDup l :
  NoDup (pd.key on <$> pd.drop_duplicates_last on l).
Proof.
  induction l as [|x l IH]; simpl; [constructor|].
  destruct (existsb _ l) eqn:E; [done|].
  rewrite fmap_cons. constructor; [|done].
  intros (y & Hk & Hy%drop_duplicates_last_subseteq)%list_elem_of_fmap.
  assert (existsb (λ r', bool_decide (pd.key on r' = pd.key on x)) l = true); [|congruence].
  apply existsb_exists. exists y. split; [by apply list_elem_of_In|].
  by apply bool_decide_eq_true_2.
Qed.

Lemma drop_duplicates_last_latest l r :
  StronglySorted before l → r ∈ l →
  ∃ s, s ∈ pd.drop_duplicates_last on l ∧ pd.key on s = pd.key on r ∧ before r s.
Proof.
  intros Hsorted. revert r.
  induction Hsorted as [|x l Hs IH Hall]; intros r; [by intros ?%elem_of_nil|].
  assert (Hsub : ∀ s, s ∈ pd.drop_duplicates_last on l →
                      s ∈ pd.drop_duplicates_last on (x :: l)).
  { intros s Hs'. simpl. destruct (existsb _ l); [done|by right]. }
  intros [->|Hr]%elem_of_cons.
  - simpl. destruct (existsb _ l) eqn:E.
    + apply existsb_exists in E as (y & Hy%list_elem_of_In & Hk%bool_decide_eq_true_1).
      destruct (IH y Hy) as (s & Hs1 & Hs2 & Hs3).
      exists s. split; [done|]. split; [congruence|].
      rewrite Forall_forall in Hall. cbv beta in *.
      eapply cell_leb_trans; [apply (Hall y Hy)|done].
    + exists x. split; [by left|]. split; [done|]. apply cell_leb_refl.
  - destruct (IH r Hr) as (s & Hs1 & Hs2 & Hs3). exists s. auto.
Qed.
End sort_dedup.

Lemma elem_of_dropna subset df r :
  r ∈ rows (pd.dropna subset df) ↔ r ∈ rows df ∧ Forall (λ c, is_Some (r !! c)) subset.
Proof. unfold pd.dropna; cbn [rows]. rewrite list_elem_of_filter. tauto. Qed.

(** The rows that survive the cleaning of the live table (lines 305-309). *)
Lemma clean_latest_spec latest :
  rows latest = [] ∨ "commence_time" ∈ columns latest →
  let cleaned := rows (clean_latest latest) in
  let pair := pd.key ["home_team"; "away_team"] in
  (∀ r, r ∈ cleaned →
     r ∈ rows latest ∧ is_Some (r !! "home_team") ∧ is_Some (r !! "away_team")) ∧
  NoDup (pair <$> cleaned) ∧
  (∀ r, r ∈ rows latest → is_Some (r !! "home_team") → is_Some (r !! "away_team") →
     ∃ s, s ∈ cleaned ∧ pair s = pair r ∧
          pd.cell_leb (r !! "commence_time") (s !! "commence_time") = true).
Proof.
  intros Hshape. cbn zeta. unfold clean_latest.
  assert (Hkept : ∀ r, r ∈ rows (pd.dropna ["home_team"; "away_team"] latest) ↔
            r ∈ rows latest ∧ is_Some (r !! "home_team") ∧ is_Some (r !! "away_team")).
  { intros r. rewrite elem_of_dropna, !Forall_cons, Forall_nil. tauto. }
  assert (Hcols : columns (pd.dropna ["home_team"; "away_team"] latest) = columns latest)
    by done.
  destruct (pd.dropna ["home_team"; "away_team"] latest) as [kcols krows].
  cbn [rows columns] in *. subst kcols.
  destruct krows as [|r0 rs].
  - cbn. split; [by intros r ?%elem_of_nil|]. split; [constructor|].
    intros r ? ? ?. exfalso. apply (not_elem_of_nil r), Hkept. auto.
  - assert (Htime : "commence_time" ∈ columns latest).
    { destruct Hshape as [Hnil|H]; [|done].
      assert (H : r0 ∈ r0 :: rs) by left.
      apply Hkept in H as [H _]. rewrite Hnil in H. by apply elem_of_nil in H. }
    unfold pd.empty; cbn [rows columns].
    rewrite (bool_decide_eq_false_2 (r0 :: rs = [])) by done.
    rewrite (bool_decide_eq_false_2 (columns latest = [])).
    2:{ intros Hc. rewrite Hc in Htime. by apply elem_of_nil in Htime. }
    rewrite bool_decide_eq_true_2 by done. cbn [negb andb orb].
    cbn [pd.drop_duplicates pd.sort_values rows].
    set (sorted := foldr (pd.insert_by "commence_time") [] (r0 :: rs)).
    assert (Hperm : ∀ r, r ∈ sorted ↔ r ∈ r0 :: rs).
    { intros r. unfold sorted. by rewrite sort_Permutation. }
    split; [|split].
    + intros r Hr%drop_duplicates_last_subseteq. by apply Hkept, Hperm.
    + apply drop_duplicates_last_NoDup.
    + intros r Hr Hh Ha.
      apply (drop_duplicates_last_latest "commence_time"); [apply sort_sorted|].
      apply Hperm, Hkept. auto.
Qed.

Lemma NoDup_fmap_elem_eq {A B} (f : A → B) (l : list A) x y :
  NoDup (f <$> l) → x ∈ l → y ∈ l → f x = f y → x = y.
Proof.
  induction l as [|z l IH]; [by intros _ ?%elem_of_nil|].
  rewrite fmap_cons, NoDup_cons. intros [Hz Hnd].
  intros [->|Hx]%elem_of_cons [->|Hy]%elem_of_cons Heq.
  - done.
  - destruct Hz. rewrite Heq. by apply list_elem_of_fmap_2.
  - destruct Hz. rewrite <- Heq. by apply list_elem_of_fmap_2.
  - by apply IH.
Qed.

(** C6 (amended).  Cleaning the live table keeps only rows of the table that
    carry both teams; for every row of the table that carries both teams
    exactly one row with the same (home_team, away_team) pair is kept.  When
    the row has no [commence_time] the row kept has none either: missing
    values sort last, so an undated quote outlives the dated ones.  When
    both carry a [commence_time] string, that of the row is not greater than
    that of the row kept, in the lexicographic order of strings
    ([String.leb] of the Standard Library).  The table is either empty or
    has the [commence_time] column, as every table built from events has. *)
Theorem live_rows_cleaned latest :
  rows latest = [] ∨ "commence_time" ∈ columns latest →
  let cleaned := rows (clean_latest latest) in
  let pair := pd.key ["home_team"; "away_team"] in
  (∀ r, r ∈ cleaned →
     r ∈ rows latest ∧ is_Some (r !! "home_team") ∧ is_Some (r !! "away_team")) ∧
  NoDup (pair <$> cleaned) ∧
  (∀ r, r ∈ rows latest → is_Some (r !! "home_team") → is_Some (r !! "away_team") →
     ∃ s, s ∈ cleaned ∧ pair s = pair r ∧
          (∀ s', s' ∈ cleaned → pair s' = pair r → s' = s) ∧
          (r !! "commence_time" = None → s !! "commence_time" = None) ∧
          (∀ a b, r !! "commence_time" = Some (SStr a) →
                  s !! "commence_time" = Some (SStr b) →
                  String.leb a b = true)).
Proof.
  intros Hshape. destruct (clean_latest_spec latest Hshape) as (Hsub & Hnd & Hlast).
  cbn zeta in *. split; [done|]. split; [done|].
  intros r Hr Hh Ha. destruct (Hlast r Hr Hh Ha) as (s & Hs & Hpair & Hle).
  exists s. split; [done|]. split; [done|]. split; [|split].
  - intros s' Hs' Hpair'. eapply NoDup_fmap_elem_eq; [exact Hnd|done..|congruence].
  - intros Hr0. rewrite Hr0 in Hle. by destruct (s !! "commence_time").
  - intros a b Hra Hsb. by rewrite Hra, Hsb in Hle.
Qed.

(** A response that quotes one game twice, the later quote first: the
    earlier quote has a survivor with a [commence_time] that is not smaller,
    and the row kept is the later quote. *)
Lemma live_rows_cleaned_witness :
  (λ r : gmap string scalar, (r !! "commence_time", r !! "home_moneyline"))
    <$> rows reversed_latest
  = [(Some (SStr "2023-09-08T00:20:00Z"), Some (SNum (-150)));
     (Some (SStr "2023-09-07T00:20:00Z"), Some (SNum (-140)))] ∧
  (λ r : gmap string scalar, (r !! "commence_time", r !! "home_moneyline"))
    <$> rows (clean_latest reversed_latest)
  = [(Some (SStr "2023-09-08T00:20:00Z"), Some (SNum (-150)))] ∧
  Forall (λ r : gmap string scalar,
      ∃ s, s ∈ rows (clean_latest reversed_latest) ∧
           ∀ a b, r !! "commence_time" = Some (SStr a) →
                  s !! "commence_time" = Some (SStr b) →
                  String.leb a b = true)
    (rows reversed_latest).
Proof.
  split; [vm_compute; reflexivity|]. split; [vm_compute; reflexivity|].
  assert (Hteams : Forall (λ r : gmap string scalar,
                      is_Some (r !! "home_team") ∧ is_Some (r !! "away_team"))
                     (rows reversed_latest)) by by_compute.
  rewrite Forall_forall in Hteams. apply Forall_forall. intros r Hr.
  destruct (live_rows_cleaned reversed_latest) as (_ & _ & Hlast);
    [right; by_compute|].
  destruct (Hlast r Hr (proj1 (Hteams r Hr)) (proj2 (Hteams r Hr)))
    as (s & Hs & _ & _ & _ & Hle).
  exists s. split; [exact Hs|exact Hle].
Defined.

(** A response that quotes one game three times, once without a
    [commence_time]: the undated quote is the one kept, not the quote with
    the latest [commence_time]. *)
Lemma undated_quote_survives :
  (λ r : gmap string scalar, (r !! "commence_time", r !! "home_moneyline"))
    <$> rows undated_latest
  = [(None, Some (SNum (-120)));
     (Some (SStr "2023-09-08T00:20:00Z"), Some (SNum (-150)));
     (Some (SStr "2023-09-07T00:20:00Z"), Some (SNum (-140)))] ∧
  (λ r : gmap string scalar, (r !! "commence_time", r !! "home_moneyline"))
    <$> rows (clean_latest undated_latest)
  = [(None, Some (SNum (-120)))].
Proof. split; vm_compute; reflexivity. Qed.

(** ** The fill loop *)

Lemma zip_with_fmap_same {A B C D} (f : B → C → D) (a : A → B) (b : A → C) (l : list A) :
  zip_with f (a <$> l) (b <$> l) = (λ x, f (a x) (b x)) <$> l.
Proof. induction l as [|x l IH]; [done|]. rewrite !fmap_cons. simpl. by f_equal. Qed.

Lemma existsb_fmap_false {A} (m : A → bool) (l : list A) :
  existsb id (m <$> l) = false → ∀ x, x ∈ l → m x = false.
Proof.
  induction l as [|y l IH]; simpl; [by intros _ x ?%elem_of_nil|].
  intros [Hy Hl]%orb_false_elim x [->|Hx]%elem_of_cons; auto.
Qed.

Lemma list_fmap_ext_in {A B} (f g : A → B) (l : list A) :
  (∀ x, x ∈ l → f x = g x) → f <$> l = g <$> l.
Proof.
  intros H. apply list_fmap_ext. intros i x Hx. apply H.
  by eapply list_elem_of_lookup_2.
Qed.

(** One turn of the fill loop, when the rows and the flags of the state are
    given as functions of a common list. *)
Lemma backfill_column_fmap {A} (P : list A) g b df col :
  rows df = g <$> P →
  let st' := backfill_column (df, b <$> P) col in
  columns st'.1 = (fill_step (columns df, ∅, false) col).1.1 ∧
  rows st'.1 = (λ p, (fill_step (columns df, g p, b p) col).1.2) <$> P ∧
  st'.2 = (λ p, (fill_step (columns df, g p, b p) col).2) <$> P.
Proof.
  intros Hrows. unfold backfill_column, fill_step, hist_label. cbn zeta.
  case_bool_decide as Hin; [|cbn [fst snd]; by rewrite Hrows].
  set (hc := col +:+ "_hist").
  set (m := λ r : gmap string scalar, pd.isna (r !! col) && pd.notna (r !! hc)).
  rewrite Hrows, <- list_fmap_compose.
  destruct (existsb id ((m ∘ g) <$> P)) eqn:E; cbn [fst snd columns rows pd.drop_column].
  - split; [done|]. split.
    + unfold pd.loc_set; cbn [rows]. rewrite Hrows, zip_with_fmap_same.
      by rewrite <- list_fmap_compose.
    + by rewrite zip_with_fmap_same.
  - pose proof (existsb_fmap_false _ _ E) as Hm. split; [done|]. split.
    + rewrite Hrows, <- list_fmap_compose. apply list_fmap_ext_in.
      intros p Hp. cbn [compose]. specialize (Hm p Hp). cbn [compose] in Hm.
      unfold m in Hm. by rewrite Hm.
    + apply list_fmap_ext_in. intros p Hp. specialize (Hm p Hp). cbn [compose] in Hm.
      unfold m in Hm. by rewrite Hm, orb_false_r.
Qed.

Lemma fill_step_labels labels r f col :
  (fill_step (labels, r, f) col).1.1 = (fill_step (labels, ∅, false) col).1.1.
Proof. unfold fill_step. by case_bool_decide. Qed.

Lemma foldl_fill_step_labels cols labels r f :
  (foldl fill_step (labels, r, f) cols).1.1 = (foldl fill_step (labels, ∅, false) cols).1.1.
Proof.
  revert labels r f. induction cols as [|col cols IH]; intros labels r f; [done|].
  cbn [foldl].
  destruct (fill_step (labels, r, f) col) as [[l1 r1] f1] eqn:E1.
  destruct (fill_step (labels, ∅, false) col) as [[l2 r2] f2] eqn:E2.
  assert (l1 = l2) as ->.
  { pose proof (fill_step_labels labels r f col) as H. by rewrite E1, E2 in H. }
  rewrite (IH l2 r1 f1). by rewrite (IH l2 r2 f2).
Qed.

(** The whole fill loop, row by row. *)
Lemma backfill_loop_fmap {A} (P : list A) cols g b df :
  rows df = g <$> P →
  let st' := foldl backfill_column (df, b <$> P) cols in
  columns st'.1 = (foldl fill_step (columns df, ∅, false) cols).1.1 ∧
  rows st'.1 = (λ p, (foldl fill_step (columns df, g p, b p) cols).1.2) <$> P ∧
  st'.2 = (λ p, (foldl fill_step (columns df, g p, b p) cols).2) <$> P.
Proof.
  revert g b df. induction cols as [|col cols IH]; intros g b df Hrows.
  - cbn. split; [done|]. by split.
  - cbn [foldl]. cbn zeta.
    destruct (backfill_column_fmap P g b df col Hrows) as (Hc & Hr & Hf).
    destruct (backfill_column (df, b <$> P) col) as [df1 fl1]. cbn [fst snd] in *.
    subst fl1.
    destruct (IH _ (λ p, (fill_step (columns df, g p, b p) col).2) df1 Hr)
      as (IHc & IHr & IHf).
    split; [|split].
    + rewrite IHc, Hc.
      destruct (fill_step (columns df, ∅, false) col) as [[l1 r1] f1]. cbn [fst snd].
      symmetry. apply foldl_fill_step_labels.
    + rewrite IHr. apply list_fmap_ext_in. intros p _.
      rewrite Hc, <- (fill_step_labels (columns df) (g p) (b p) col).
      by destruct (fill_step (columns df, g p, b p) col) as [[l1 r1] f1].
    + rewrite IHf. apply list_fmap_ext_in. intros p _.
      rewrite Hc, <- (fill_step_labels (columns df) (g p) (b p) col).
      by destruct (fill_step (columns df, g p, b p) col) as [[l1 r1] f1].
Qed.

(** ** The fill loop on one row *)

Lemma string_length_append s t :
  String.length (s +:+ t) = String.length s + String.length t.
Proof. induction s as [|a s IH]; simpl; [done|]. by rewrite IH. Qed.

Lemma string_append_cancel_r s1 s2 t : s1 +:+ t = s2 +:+ t → s1 = s2.
Proof.
  revert s2. induction s1 as [|a s1 IH]; intros [|b s2] H; [done|..].
  - apply (f_equal String.length) in H.
    rewrite !string_length_append in H. simpl in H. lia.
  - apply (f_equal String.length) in H.
    rewrite !string_length_append in H. simpl in H. lia.
  - change (String a (s1 +:+ t) = String b (s2 +:+ t)) in H.
    injection H as -> H. f_equal. by apply IH.
Qed.

#[global] Instance hist_label_inj : Inj (=) (=) hist_label.
Proof. intros c1 c2. apply string_append_cancel_r. Qed.

(** The cells that one turn reads and writes. *)
Lemma fill_step_lookup labels r f col k :
  (fill_step (labels, r, f) col).1.2 !! k =
  if bool_decide (hist_label col ∈ labels) then
    if decide (k = hist_label col) then None
    else if decide (k = col) then
      if pd.isna (r !! col) then r !! hist_label col else r !! col
    else r !! k
  else r !! k.
Proof.
  unfold fill_step. case_bool_decide; [|done]. cbn [fst snd].
  rewrite lookup_delete. destruct (decide (hist_label col = k)) as [<-|Hne].
  { by rewrite decide_True. }
  rewrite decide_False by done.
  unfold pd.isna, pd.notna, pd.isna.
  destruct (r !! col) as [v|] eqn:Ecol.
  - rewrite bool_decide_eq_false_2 by done. cbn [andb].
    destruct (decide (k = col)) as [->|]; done.
  - rewrite bool_decide_eq_true_2 by done. cbn [andb].
    destruct (r !! hist_label col) as [w|] eqn:Eh.
    + rewrite bool_decide_eq_false_2 by done. cbn [negb].
      rewrite lookup_set_cell. destruct (decide (k = col)) as [->|].
      * by rewrite decide_True.
      * by rewrite decide_False.
    + rewrite bool_decide_eq_true_2 by done. cbn [negb].
      destruct (decide (k = col)) as [->|]; done.
Qed.

Lemma fill_step_flag labels r f col :
  (fill_step (labels, r, f) col).2 =
  f || (bool_decide (hist_label col ∈ labels)
        && pd.isna (r !! col) && pd.notna (r !! hist_label col)).
Proof.
  unfold fill_step. case_bool_decide; cbn [fst snd andb]; [done|].
  by rewrite orb_false_r.
Qed.

Lemma fill_step_elem_of labels col k :
  k ∈ (fill_step (labels, ∅, false) col).1.1 ↔ k ∈ labels ∧ k ≠ hist_label col.
Proof.
  unfold fill_step. case_bool_decide as Hin; cbn [fst snd].
  - rewrite list_elem_of_filter. tauto.
  - split; [|tauto]. intros Hk. split; [done|]. by intros ->.
Qed.

Lemma fill_loop_elem_of cols labels k :
  k ∈ (foldl fill_step (labels, ∅, false) cols).1.1 ↔
  k ∈ labels ∧ k ∉ hist_label <$> cols.
Proof.
  revert labels. induction cols as [|col cols IH]; intros labels.
  - cbn. split; [|tauto]. intros. split; [done|]. apply not_elem_of_nil.
  - cbn [foldl].
    destruct (fill_step (labels, ∅, false) col) as [[l1 r1] f1] eqn:E.
    rewrite foldl_fill_step_labels, IH.
    pose proof (fill_step_elem_of labels col k) as H. rewrite E in H. cbn [fst snd] in H.
    rewrite H, fmap_cons, not_elem_of_cons. tauto.
Qed.

Lemma fill_loop_other cols labels r f k :
  k ∉ cols → k ∉ hist_label <$> cols →
  (foldl fill_step (labels, r, f) cols).1.2 !! k = r !! k.
Proof.
  revert labels r f. induction cols as [|col cols IH]; intros labels r f Hk Hh; [done|].
  apply not_elem_of_cons in Hk as [Hk1 Hk2].
  rewrite fmap_cons in Hh. apply not_elem_of_cons in Hh as [Hh1 Hh2].
  cbn [foldl].
  pose proof (fill_step_lookup labels r f col k) as Hstep.
  destruct (fill_step (labels, r, f) col) as [[l1 r1] f1]. cbn [fst snd] in Hstep.
  rewrite IH by done. rewrite Hstep.
  case_bool_decide; [|done]. by rewrite !decide_False.
Qed.

Lemma fill_loop_stays_missing cols labels r f k :
  r !! k = None → k ∉ cols →
  (foldl fill_step (labels, r, f) cols).1.2 !! k = None.
Proof.
  revert labels r f. induction cols as [|col cols IH]; intros labels r f Hr Hk; [done|].
  apply not_elem_of_cons in Hk as [Hk1 Hk2].
  cbn [foldl].
  pose proof (fill_step_lookup labels r f col k) as Hstep.
  destruct (fill_step (labels, r, f) col) as [[l1 r1] f1]. cbn [fst snd] in Hstep.
  apply IH; [|done]. rewrite Hstep.
  case_bool_decide; [|done]. destruct (decide (k = hist_label col)); [done|].
  by rewrite decide_False.
Qed.

Lemma fill_loop_col cols labels r f c :
  NoDup cols → (∀ c1 c2, c1 ∈ cols → c2 ∈ cols → c1 ≠ hist_label c2) → c ∈ cols →
  (foldl fill_step (labels, r, f) cols).1.2 !! c =
  if bool_decide (hist_label c ∈ labels) && pd.isna (r !! c)
  then r !! hist_label c else r !! c.
Proof.
  revert labels r f. induction cols as [|col cols IH]; intros labels r f Hnd Hclash Hc.
  { by apply elem_of_nil in Hc. }
  apply NoDup_cons in Hnd as [Hcol Hnd].
  assert (Hclash' : ∀ c1 c2, c1 ∈ cols → c2 ∈ cols → c1 ≠ hist_label c2)
    by (intros; apply Hclash; by right).
  cbn [foldl].
  pose proof (fill_step_lookup labels r f col) as Hstep.
  pose proof (fill_step_elem_of labels col) as Hlab.
  rewrite <- (fill_step_labels labels r f col) in Hlab.
  destruct (fill_step (labels, r, f) col) as [[l1 r1] f1]. cbn [fst snd] in Hstep, Hlab.
  apply elem_of_cons in Hc as [->|Hc].
  - rewrite fill_loop_other.
    + rewrite Hstep. case_bool_decide; [|done]. cbn [andb].
      rewrite decide_False by (apply Hclash; left). by rewrite decide_True.
    + done.
    + intros (c2 & Heq & Hc2)%list_elem_of_fmap. apply (Hclash col c2); [left|by right|done].
  - assert (c ≠ col) by (by intros ->).
    rewrite IH by done.
    assert (Hl : bool_decide (hist_label c ∈ l1) = bool_decide (hist_label c ∈ labels)).
    { apply bool_decide_ext. rewrite Hlab. split; [tauto|]. intros. split; [done|].
      by intros ?%(inj hist_label). }
    rewrite Hl, !Hstep.
    destruct (bool_decide (hist_label col ∈ labels)); [|done].
    rewrite (decide_False (P := c = hist_label col)) by (apply Hclash; [by right|left]).
    rewrite (decide_False (P := c = col)) by done.
    rewrite (decide_False (P := hist_label c = hist_label col))
      by (by intros ?%(inj hist_label)).
    rewrite (decide_False (P := hist_label c = col)); [done|].
    intros Heq. apply (Hclash col c); [left|by right|done].
Qed.

Lemma fill_loop_hist cols labels r f c :
  (∀ c1 c2, c1 ∈ cols → c2 ∈ cols → c1 ≠ hist_label c2) → c ∈ cols →
  hist_label c ∈ labels →
  (foldl fill_step (labels, r, f) cols).1.2 !! hist_label c = None.
Proof.
  revert labels r f. induction cols as [|col cols IH]; intros labels r f Hclash Hc Hin.
  { by apply elem_of_nil in Hc. }
  assert (Hclash' : ∀ c1 c2, c1 ∈ cols → c2 ∈ cols → c1 ≠ hist_label c2)
    by (intros; apply Hclash; by right).
  cbn [foldl].
  pose proof (fill_step_lookup labels r f col (hist_label c)) as Hstep.
  pose proof (fill_step_elem_of labels col (hist_label c)) as Hlab.
  rewrite <- (fill_step_labels labels r f col) in Hlab.
  destruct (fill_step (labels, r, f) col) as [[l1 r1] f1]. cbn [fst snd] in Hstep, Hlab.
  destruct (decide (c = col)) as [->|Hne].
  - apply fill_loop_stays_missing.
    + rewrite Hstep, bool_decide_eq_true_2 by done. by rewrite decide_True.
    + intros Hh. apply (Hclash (hist_label col) col); [by right|left|done].
  - apply elem_of_cons in Hc as [->|Hc]; [done|].
    apply IH; [done..|]. apply Hlab. split; [done|]. by intros ?%(inj hist_label).
Qed.

Lemma fill_loop_flag cols labels r f :
  NoDup cols → (∀ c1 c2, c1 ∈ cols → c2 ∈ cols → c1 ≠ hist_label c2) →
  (foldl fill_step (labels, r, f) cols).2 =
  f || existsb (λ c, bool_decide (hist_label c ∈ labels)
                     && pd.isna (r !! c) && pd.notna (r !! hist_label c)) cols.
Proof.
  revert labels r f. induction cols as [|col cols IH]; intros labels r f Hnd Hclash.
  { cbn. by rewrite orb_false_r. }
  apply NoDup_cons in Hnd as [Hcol Hnd].
  assert (Hclash' : ∀ c1 c2, c1 ∈ cols → c2 ∈ cols → c1 ≠ hist_label c2)
    by (intros; apply Hclash; by right).
  cbn [foldl existsb].
  pose proof (fill_step_lookup labels r f col) as Hstep.
  pose proof (fill_step_flag labels r f col) as Hflag.
  pose proof (fill_step_elem_of labels col) as Hlab.
  rewrite <- (fill_step_labels labels r f col) in Hlab.
  destruct (fill_step (labels, r, f) col) as [[l1 r1] f1].
  cbn [fst snd] in Hstep, Hlab, Hflag.
  rewrite IH by done. rewrite Hflag, <- orb_assoc. f_equal. f_equal.
  apply eq_true_iff_eq. rewrite !existsb_exists.
  assert (Hsame : ∀ c, c ∈ cols →
            bool_decide (hist_label c ∈ l1) && pd.isna (r1 !! c)
              && pd.notna (r1 !! hist_label c)
            = bool_decide (hist_label c ∈ labels) && pd.isna (r !! c)
              && pd.notna (r !! hist_label c)).
  { intros c Hc. assert (c ≠ col) by (by intros ->).
    assert (Hl : bool_decide (hist_label c ∈ l1) = bool_decide (hist_label c ∈ labels)).
    { apply bool_decide_ext. rewrite Hlab. split; [tauto|]. intros. split; [done|].
      by intros ?%(inj hist_label). }
    rewrite Hl, !Hstep. destruct (bool_decide (hist_label col ∈ labels)); [|done].
    rewrite (decide_False (P := c = hist_label col)) by (apply Hclash; [by right|left]).
    rewrite (decide_False (P := c = col)) by done.
    rewrite (decide_False (P := hist_label c = hist_label col))
      by (by intros ?%(inj hist_label)).
    rewrite (decide_False (P := hist_label c = col)); [done|].
    intros Heq. apply (Hclash col c); [left|by right|done]. }
  split; intros (c & Hc & Hb); exists c; (split; [done|]);
    apply list_elem_of_In in Hc; [rewrite <- Hsame by done|rewrite Hsame by done]; done.
Qed.

(** ** Historical backfill loader *)

Lemma rename_map_canonical (cols : list string) c :
  c ∈ cols →
  default c ((list_to_map (filter (λ kv : string * string, kv.1 ∈ cols) HISTORICAL_NAME_MAP)
               : gmap string string) !! c) = canonical_label c.
Proof. intros. unfold canonical_label. by rewrite list_to_map_filter_key. Qed.

Lemma rename_historical table :
  pd.rename (filter (λ kv : string * string, kv.1 ∈ columns table) HISTORICAL_NAME_MAP) table
  = {| columns := canonical_label <$> columns table;
       rows := pd.relabel canonical_label (columns table) <$> rows table |}.
Proof.
  unfold pd.rename. f_equal.
  - apply list_fmap_ext. intros ? c Hc%list_elem_of_lookup_2. by apply rename_map_canonical.
  - apply list_fmap_ext. intros ? r _. apply relabel_ext.
    intros c Hc. by apply rename_map_canonical.
Qed.

Lemma key_cols_not_odds c : c ∈ key_cols → c ∉ ODDS_VALUE_COLUMNS.
Proof.
  assert (H : Forall (λ c, c ∉ ODDS_VALUE_COLUMNS) key_cols) by by_compute.
  rewrite Forall_forall in H. apply H.
Qed.

Lemma NoDup_keep_cols (labels : list string) :
  NoDup (key_cols ++ filter (λ c, c ∈ labels) ODDS_VALUE_COLUMNS).
Proof.
  apply NoDup_app. split; [|split].
  - by_compute.
  - intros c Hk [_ Ho]%list_elem_of_filter. by apply key_cols_not_odds in Hk.
  - apply NoDup_filter. by_compute.
Qed.

(** The synonym table leaves the key columns alone and never renames a
    column into one. *)
Lemma canonical_label_key c k :
  k ∈ key_cols → canonical_label c = k ↔ c = k.
Proof.
  intros Hk. split.
  - unfold canonical_label.
    destruct (_ !! c) as [v|] eqn:E; simpl; [|done]. intros ->.
    apply elem_of_list_to_map_2 in E.
    assert (H : Forall (λ kv : string * string, kv.2 ∉ key_cols) HISTORICAL_NAME_MAP)
      by by_compute.
    rewrite Forall_forall in H. by apply H in E.
  - intros ->.
    assert (H : Forall (λ k, canonical_label k = k) key_cols) by by_compute.
    rewrite Forall_forall in H. by apply H.
Qed.

Lemma filter_missing_nil (cols req : list string) :
  filter (λ c, c ∉ cols) req = [] ↔ req ⊆ cols.
Proof.
  induction req as [|c req IH].
  - split; [intros _ x Hx; by apply elem_of_nil in Hx|done].
  - rewrite filter_cons. case_decide as Hc.
    + split; [done|]. intros Hsub. destruct Hc. apply Hsub. by left.
    + rewrite IH. split.
      * intros Hsub x [->|Hx]%elem_of_cons; auto.
      * intros Hsub x Hx. apply Hsub. by right.
Qed.

(** C9 (amended).  The loader answers [None] when no path is given, the path
    is empty or nothing lies at it; a path that exists but cannot be read
    makes [read_csv] raise, and the error escapes.  For a readable file whose
    labels stay distinct under the synonym table it answers [None] when a
    key column is absent after renaming, and otherwise the table with the
    key columns followed by the canonical odds-value columns present, the
    team cells normalised, the other kept cells unchanged and nothing else. *)
Theorem loader_outcomes fs path :
  _prepare_historical_lines fs None key_cols = Returned None ∧
  (path = "" ∨ fs path = Absent →
     _prepare_historical_lines fs (Some path) key_cols = Returned None) ∧
  (path ≠ "" → fs path = Unreadable →
     _prepare_historical_lines fs (Some path) key_cols = Raised ReadError) ∧
  (∀ table, path ≠ "" → fs path = Csv table →
     NoDup (canonical_label <$> columns table) →
     let labels := canonical_label <$> columns table in
     (¬ key_cols ⊆ labels →
        _prepare_historical_lines fs (Some path) key_cols = Returned None) ∧
     (key_cols ⊆ labels →
        ∃ hist,
          _prepare_historical_lines fs (Some path) key_cols = Returned (Some hist) ∧
          columns hist = key_cols ++ filter (λ c, c ∈ labels) ODDS_VALUE_COLUMNS ∧
          Forall2 (λ r r',
              (∀ c, c ∈ columns table →
                 r' !! canonical_label c =
                   if decide (c = "home_team" ∨ c = "away_team")
                   then _normalize_team (r !! c)
                   else if decide (canonical_label c ∈ columns hist) then r !! c
                   else None) ∧
              (∀ k, k ∉ columns hist → r' !! k = None))
            (rows table) (rows hist))).
Proof.
  split; [done|]. split; [|split].
  - intros [->|Hfs]; [done|].
    unfold _prepare_historical_lines, path_exists. rewrite Hfs.
    by rewrite orb_true_r.
  - intros Hne Hfs. unfold _prepare_historical_lines, path_exists, read_csv, truthy.
    rewrite Hfs. by destruct (String.eqb_spec path "").
  - intros table Hne Hfs Hnd labels.
    unfold _prepare_historical_lines, path_exists, read_csv, truthy.
    rewrite Hfs. destruct (String.eqb_spec path ""); [done|].
    cbn [negb orb]. rewrite rename_historical. cbn [columns].
    fold labels.
    destruct (filter (λ col, col ∉ labels) key_cols) as [|m ms] eqn:Hmiss.
    + apply filter_missing_nil in Hmiss. split; [done|]. intros _.
      eexists. split; [reflexivity|].
      assert (Hhome : "home_team" ∈ labels) by (apply Hmiss; by_compute).
      assert (Haway : "away_team" ∈ labels) by (apply Hmiss; by_compute).
      set (h0 := {| columns := labels; rows := _ |}).
      assert (Hc1 : columns (pd.map_column "home_team" _normalize_team h0) = labels)
        by by rewrite columns_map_column.
      assert (Hc2 : columns (pd.map_column "away_team" _normalize_team
                               (pd.map_column "home_team" _normalize_team h0)) = labels)
        by (rewrite columns_map_column; by rewrite Hc1).
      rewrite Hc2, dict_fromkeys_NoDup by apply NoDup_keep_cols.
      cbn [pd.select columns rows].
      split; [done|].
      rewrite !rows_map_column. subst h0. cbn [rows]. rewrite <- !list_fmap_compose.
      apply Forall2_fmap_r, Forall_Forall2_diag, Forall_forall.
      intros r _. cbn [compose]. split.
      * intros c Hc. rewrite lookup_select_row, !lookup_set_cell.
        assert (Hinj : ∀ c1 c2, c1 ∈ columns table → c2 ∈ columns table →
                  canonical_label c1 = canonical_label c2 → c1 = c2).
        { intros c1 c2 Hc1' Hc2' Heq.
          apply list_elem_of_lookup in Hc1' as [i Hi], Hc2' as [j Hj].
          assert (i = j) as ->; [|congruence].
          eapply NoDup_lookup; [exact Hnd|..]; rewrite list_lookup_fmap.
          - by rewrite Hi.
          - by rewrite Hj, Heq. }
        assert (Hth : "home_team" ∈ columns table).
        { apply list_elem_of_fmap in Hhome as (c' & Heq & Hc').
          symmetry in Heq. apply canonical_label_key in Heq as ->; [done|by_compute]. }
        assert (Hta : "away_team" ∈ columns table).
        { apply list_elem_of_fmap in Haway as (c' & Heq & Hc').
          symmetry in Heq. apply canonical_label_key in Heq as ->; [done|by_compute]. }
        assert (Hkh : canonical_label "home_team" = "home_team") by by vm_compute.
        assert (Hka : canonical_label "away_team" = "away_team") by by vm_compute.
        pose proof (relabel_lookup canonical_label (columns table) r "home_team" Hth
                      (λ c' Hc' Heq, Hinj _ _ Hc' Hth Heq)) as Hrh.
        pose proof (relabel_lookup canonical_label (columns table) r "away_team" Hta
                      (λ c' Hc' Heq, Hinj _ _ Hc' Hta Heq)) as Hra.
        pose proof (relabel_lookup canonical_label (columns table) r c Hc
                      (λ c' Hc' Heq, Hinj _ _ Hc' Hc Heq)) as Hrc.
        rewrite Hkh in Hrh. rewrite Hka in Hra. rewrite Hrh, Hra, Hrc.
        rewrite (decide_False (P := "home_team" = "away_team")) by done.
        destruct (decide (c = "away_team")) as [->|Hna].
        { rewrite Hka. rewrite decide_True by by_compute.
          rewrite decide_True by done. by rewrite decide_True by auto. }
        rewrite (decide_False (P := "away_team" = canonical_label c)).
        2:{ intros Heq. symmetry in Heq.
            by apply (proj1 (canonical_label_key c "away_team" ltac:(by_compute))) in Heq. }
        destruct (decide (c = "home_team")) as [->|Hnh].
        { rewrite Hkh. rewrite decide_True by by_compute.
          rewrite decide_True by done. by rewrite decide_True by auto. }
        rewrite (decide_False (P := "home_team" = canonical_label c)).
        2:{ intros Heq. symmetry in Heq.
            by apply (proj1 (canonical_label_key c "home_team" ltac:(by_compute))) in Heq. }
        rewrite (decide_False (P := c = "home_team" ∨ c = "away_team")) by (by intros [?|?]).
        done.
      * intros k Hk. rewrite lookup_select_row. by case_decide.
    + split; [|intros Hsub; apply filter_missing_nil in Hsub; congruence].
      done.
Qed.

(** On the sample file system: nothing lies at one path, one file lacks the
    [week] column, and one file is loaded with its synonyms renamed. *)
Lemma loader_outcomes_witness :
  _prepare_historical_lines sample_fs (Some "absent.csv") key_cols = Returned None ∧
  _prepare_historical_lines sample_fs (Some "keyless.csv") key_cols = Returned None ∧
  ∃ hist,
    _prepare_historical_lines sample_fs (Some "lines.csv") key_cols
      = Returned (Some hist) ∧
    columns hist = ["season"; "week"; "home_team"; "away_team"; "spread_line"; "total_line"].
Proof.
  split; [|split].
  - apply (proj1 (proj2 (loader_outcomes sample_fs "absent.csv"))). right. reflexivity.
  - apply (proj2 (proj2 (proj2 (loader_outcomes sample_fs "keyless.csv")))
             keyless_lines_table); [done|reflexivity|by_compute|by_compute].
  - destruct (proj2 (proj2 (proj2 (loader_outcomes sample_fs "lines.csv")))
                lines_table) as [_ Hsome]; [done|reflexivity|by_compute|].
    destruct Hsome as (hist & Hret & Hcols & _); [by_compute|].
    exists hist. split; [exact Hret|]. rewrite Hcols. reflexivity.
Defined.

(** A file that exists and cannot be read: the loader raises, it does not
    answer [None]. *)
Lemma loader_raises_on_unreadable_file :
  sample_fs "broken.csv" = Unreadable ∧
  _prepare_historical_lines sample_fs (Some "broken.csv") key_cols = Raised ReadError.
Proof. split; reflexivity. Qed.


(** ** Schedule enrichment orchestrator *)

Lemma required_sorted (cols : list string) :
  ["away_team"; "home_team"; "season"; "week"] ⊆ cols ↔ key_cols ⊆ cols.
Proof.
  assert (H : ∀ c, c ∈ ["away_team"; "home_team"; "season"; "week"] ↔ c ∈ key_cols).
  { intros c. unfold key_cols. rewrite !elem_of_cons, !elem_of_nil. tauto. }
  split; intros Hs c Hc; apply Hs, H, Hc.
Qed.

(** When the loader raises, the path exists and cannot be read. *)
Lemma loader_raises fs historical_csv e :
  _prepare_historical_lines fs historical_csv key_cols = Raised e →
  e = ReadError ∧
  ∃ path, historical_csv = Some path ∧ path ≠ "" ∧ fs path = Unreadable.
Proof.
  unfold _prepare_historical_lines, path_exists, read_csv.
  destruct historical_csv as [path|]; [|done].
  destruct (negb (truthy (Some path))) eqn:Ht; [done|].
  apply negb_false_iff in Ht. cbn [orb].
  destruct (fs path) as [| |table] eqn:Hfs; cbn [negb].
  - done.
  - intros [= <-]. split; [done|]. exists path. split; [done|]. split; [|done].
    intros ->. done.
  - by destruct (filter _ key_cols).
Qed.

(** C3 (amended).  [fetch_schedule_odds] raises the [ValueError] of the
    schema check exactly when the schedule lacks one of season, week,
    home_team and away_team; the error lists exactly the key columns that
    are absent, so a schedule without [week] raises an error that names
    [week].  It is not the only error that escapes: with a schedule that
    passes the check, a historical file that exists and cannot be read makes
    the call raise the read error. *)
Theorem validation_is_the_schema_error fs response schedule api_key historical_csv preference :
  let result :=
    fetch_schedule_odds fs response schedule api_key historical_csv preference in
  (¬ key_cols ⊆ columns schedule ↔
     ∃ missing, result = Raised (ValueError_missing_columns missing)) ∧
  (∀ missing, result = Raised (ValueError_missing_columns missing) →
     ∀ c, c ∈ missing ↔ c ∈ key_cols ∧ c ∉ columns schedule) ∧
  ("week" ∉ columns schedule →
     ∃ missing, result = Raised (ValueError_missing_columns missing) ∧ "week" ∈ missing) ∧
  (key_cols ⊆ columns schedule →
   ∀ path, historical_csv = Some path → path ≠ "" → fs path = Unreadable →
     result = Raised ReadError).
Proof.
  cbn zeta. unfold fetch_schedule_odds.
  set (required := ["away_team"; "home_team"; "season"; "week"]).
  assert (Hmem : ∀ c, c ∈ filter (λ c, c ∉ columns schedule) required
                      ↔ c ∈ key_cols ∧ c ∉ columns schedule).
  { intros c. rewrite list_elem_of_filter. unfold required, key_cols.
    rewrite !elem_of_cons, !elem_of_nil. tauto. }
  destruct (filter (λ c, c ∉ columns schedule) required) as [|m ms] eqn:Hmiss.
  - apply filter_missing_nil, required_sorted in Hmiss.
    set (hist := if truthy historical_csv then _ else _).
    assert (Hhist : ∀ e, hist = Raised e →
              e = ReadError ∧
              ∃ path, historical_csv = Some path ∧ path ≠ "" ∧ fs path = Unreadable).
    { intros e. unfold hist. destruct (truthy historical_csv); [|done].
      apply loader_raises. }
    split; [|split; [|split]].
    + split; [done|]. intros [missing H]. destruct hist as [h|e] eqn:E; [done|].
      injection H as ->. by destruct (Hhist _ eq_refl).
    + intros missing H. destruct hist as [h|e] eqn:E; [done|].
      injection H as ->. by destruct (Hhist _ eq_refl).
    + intros Hweek. destruct Hweek. apply Hmiss. by_compute.
    + intros _ path -> Hne Hfs.
      assert (Hraise : hist = Raised ReadError).
      { unfold hist, _prepare_historical_lines, path_exists, read_csv, truthy.
        rewrite Hfs. by destruct (String.eqb_spec path ""). }
      by rewrite Hraise.
  - split; [|split; [|split]].
    + split; [eauto|]. intros _ Hsub.
      assert (Hm : m ∈ m :: ms) by left. apply Hmem in Hm as [Hk Hn]. auto.
    + intros missing [= <-]. apply Hmem.
    + intros Hweek. eexists. split; [done|]. apply Hmem. split; [by_compute|done].
    + intros Hsub. assert (Hm : m ∈ m :: ms) by left.
      apply Hmem in Hm as [Hk Hn]. destruct Hn. by apply Hsub.
Qed.

(** A schedule without the [week] column. *)
Lemma validation_is_the_schema_error_witness :
  ∃ missing,
    fetch_schedule_odds sample_fs HttpFailure schedule_without_week "key"
      (Some "lines.csv") (Some "pinnacle")
      = Raised (ValueError_missing_columns missing) ∧
    "week" ∈ missing.
Proof.
  apply (proj1 (proj2 (proj2 (validation_is_the_schema_error sample_fs HttpFailure
           schedule_without_week "key" (Some "lines.csv") (Some "pinnacle"))))).
  by_compute.
Defined.

(** A schedule with all four key columns and a historical file that cannot
    be read: the read error escapes. *)
Lemma unreadable_history_escapes :
  Forall (λ k, k ∈ columns sample_schedule) key_cols ∧
  fetch_schedule_odds sample_fs HttpFailure sample_schedule "key"
    (Some "broken.csv") (Some "pinnacle") = Raised ReadError.
Proof. split; [by_compute|vm_compute; reflexivity]. Qed.


Lemma odds_source_not_odds : "odds_source" ∉ ODDS_VALUE_COLUMNS.
Proof. by_compute. Qed.

(** C2 (amended).  For a schedule with the four key columns, a call with an
    empty provider key and no historical path returns.  The labels of the
    result are those of the schedule, the eight odds-value columns and
    [odds_source]; no [commence_time] column is added.  The result has one
    row per schedule row, in order, with the cells of the schedule (teams
    normalised), every odds-value column that the schedule did not carry
    missing, and [odds_source] equal to [missing] on every row whose
    odds-value columns are all missing; that is every row when the schedule
    carries no odds-value column. *)
Theorem enrich_without_sources fs response schedule preference :
  key_cols ⊆ columns schedule →
  ∃ out,
    fetch_schedule_odds fs response schedule "" None preference = Returned out ∧
    (∀ c, c ∈ columns out ↔
          c ∈ columns schedule ∨ c ∈ ODDS_VALUE_COLUMNS ∨ c = "odds_source") ∧
    Forall2 (λ s r,
        (∀ c, c ∈ columns schedule → c ≠ "odds_source" →
           r !! c = if decide (c = "home_team" ∨ c = "away_team")
                    then _normalize_team (s !! c) else s !! c) ∧
        (∀ c, c ∈ ODDS_VALUE_COLUMNS → c ∉ columns schedule → r !! c = None) ∧
        ((∀ c, c ∈ ODDS_VALUE_COLUMNS → r !! c = None) →
           r !! "odds_source" = Some (SStr "missing")))
      (rows schedule) (rows out) ∧
    ((∀ c, c ∈ ODDS_VALUE_COLUMNS → c ∉ columns schedule) →
       Forall (λ r, (∀ c, c ∈ ODDS_VALUE_COLUMNS → r !! c = None) ∧
                    r !! "odds_source" = Some (SStr "missing")) (rows out)).
Proof.
  intros Hkeys.
  assert (Hh : "home_team" ∈ columns schedule) by (apply Hkeys; by_compute).
  assert (Ha : "away_team" ∈ columns schedule) by (apply Hkeys; by_compute).
  unfold fetch_schedule_odds.
  rewrite (proj2 (filter_missing_nil _ _)) by by apply required_sorted.
  destruct (normalised_schedule schedule Hh Ha) as [Hc0 Hr0].
  set (schedule' := pd.map_column "away_team" _ _) in *.
  change (fetched_latest "" response preference)
    with (pd.empty_frame ["home_team"; "away_team"]).
  change (clean_latest (pd.empty_frame ["home_team"; "away_team"]))
    with (pd.empty_frame ["home_team"; "away_team"]).
  cbn [truthy]. eexists. split; [reflexivity|].
  unfold merge_live.
  change (["home_team"; "away_team"] ++ _) with ["home_team"; "away_team"].
  rewrite merge_empty_right by done.
  set (m0 := {| columns := columns schedule'; rows := _ |}).
  destruct (ensure_columns_spec ODDS_VALUE_COLUMNS m0) as [Hc1 Hr1].
  set (m1 := foldl ensure_column m0 ODDS_VALUE_COLUMNS) in *.
  cbn [backfill].
  destruct (ensure_column_spec m1 "odds_source") as [Hc2 Hr2].
  set (m2 := ensure_column m1 "odds_source") in *.
  destruct (tag_sources_spec m2) as [Hc3 Hr3].
  assert (Hcols : ∀ c, c ∈ columns (tag_sources m2) ↔
            c ∈ columns schedule ∨ c ∈ ODDS_VALUE_COLUMNS ∨ c = "odds_source").
  { intros c. rewrite Hc3, Hc2, Hc1. subst m0. cbn [columns]. rewrite Hc0. tauto. }
  assert (Hrows : Forall2 (λ s r,
        (∀ c, c ∈ columns schedule → c ≠ "odds_source" →
           r !! c = if decide (c = "home_team" ∨ c = "away_team")
                    then _normalize_team (s !! c) else s !! c) ∧
        (∀ c, c ∈ ODDS_VALUE_COLUMNS → c ∉ columns schedule → r !! c = None) ∧
        ((∀ c, c ∈ ODDS_VALUE_COLUMNS → r !! c = None) →
           r !! "odds_source" = Some (SStr "missing")))
      (rows schedule) (rows (tag_sources m2))).
  { rewrite Hr3, Hr2, Hr1. subst m0. cbn [rows columns]. rewrite Hr0, Hc0.
    rewrite <- !list_fmap_compose.
    apply Forall2_fmap_r, Forall_Forall2_diag, Forall_forall. intros s _.
    cbn [compose].
    set (s1 := pd.set_cell "away_team" _ _).
    set (s2 := pd.relabel id (columns schedule) s1).
    set (s3 := foldr delete s2 _).
    set (s4 := if bool_decide _ then s3 else _).
    assert (H1 : ∀ c, s1 !! c = if decide (c = "home_team" ∨ c = "away_team")
                                 then _normalize_team (s !! c) else s !! c).
    { intros c. unfold s1. rewrite !lookup_set_cell.
      destruct (decide (c = "home_team" ∨ c = "away_team")) as [[->| ->]|Hn]; [done..|].
      rewrite !decide_False; [done|intros <-; auto..]. }
    assert (H3 : ∀ c, s3 !! c = if decide (c ∈ columns schedule) then s1 !! c else None).
    { intros c. unfold s3, s2. rewrite lookup_drop_cells, relabel_id_lookup.
      destruct (decide (c ∈ filter _ ODDS_VALUE_COLUMNS)) as [Hin|]; [|done].
      apply list_elem_of_filter in Hin as [Hin _]. by rewrite decide_False. }
    assert (H4 : ∀ c, c ≠ "odds_source" → s4 !! c = s3 !! c).
    { intros c Hc. unfold s4. case_bool_decide; [done|]. by rewrite lookup_delete_ne. }
    split; [|split].
    - intros c Hc Hne. rewrite tag_row_lookup, decide_False by done.
      by rewrite H4, H3, decide_True, H1.
    - intros c Hc Hnc. rewrite tag_row_lookup, decide_False.
      + rewrite H4, H3, decide_False; try done. intros ->. by apply odds_source_not_odds.
      + intros ->. by apply odds_source_not_odds.
    - intros Hnull. rewrite tag_row_lookup, decide_True by done.
      rewrite (proj2 (forallb_odds_isna s4)); [done|].
      intros c Hc. specialize (Hnull c Hc). rewrite tag_row_lookup, decide_False in Hnull.
      + done.
      + intros ->. by apply odds_source_not_odds. }
  split; [exact Hcols|]. split; [exact Hrows|].
  intros Hdisj. apply Forall_forall. intros r Hr.
  apply list_elem_of_lookup in Hr as [i Hi].
  destruct (Forall2_lookup_r _ _ _ _ _ Hrows Hi) as (s & _ & _ & Hnull & Hmiss).
  split; [|apply Hmiss]; intros c Hc; apply Hnull; auto.
Qed.

(** The sample schedule, with no key and no historical path. *)
Lemma enrich_without_sources_witness :
  ∃ out,
    fetch_schedule_odds sample_fs HttpFailure sample_schedule "" None (Some "pinnacle")
      = Returned out ∧
    Forall (λ r, (∀ c, c ∈ ODDS_VALUE_COLUMNS → r !! c = None) ∧
                 r !! "odds_source" = Some (SStr "missing")) (rows out).
Proof.
  destruct (enrich_without_sources sample_fs HttpFailure sample_schedule (Some "pinnacle"))
    as (out & Hout & _ & _ & Hall); [by_compute|].
  exists out. split; [exact Hout|]. apply Hall.
  apply Forall_forall. by_compute.
Defined.

(** The same run: the result has no [commence_time] column.  And a schedule
    that carries a spread of its own keeps it, tagged [odds_api]. *)
Lemma no_sources_output_lacks_commence_time :
  (∃ out,
     fetch_schedule_odds sample_fs HttpFailure sample_schedule "" None (Some "pinnacle")
       = Returned out ∧
     columns out = columns sample_schedule ++ ODDS_VALUE_COLUMNS ++ ["odds_source"] ∧
     "commence_time" ∉ columns out) ∧
  (∃ out,
     fetch_schedule_odds sample_fs HttpFailure priced_schedule "" None (Some "pinnacle")
       = Returned out ∧
     (λ r, r !! "spread_line") <$> rows out = [Some (SNum (-3))] ∧
     (λ r, r !! "odds_source") <$> rows out = [Some (SStr "odds_api")]).
Proof.
  split.
  - eexists. split; [vm_compute; reflexivity|]. split; [reflexivity|by_compute].
  - eexists. split; [vm_compute; reflexivity|]. split; reflexivity.
Qed.


(** ** The historical merge and fill, pair by pair *)

Lemma string_append_nil_r s : s +:+ "" = s.
Proof. induction s as [|a s IH]; [done|]. change (String a (s +:+ "") = String a s). by rewrite IH. Qed.

Lemma elem_of_joined on ls rs p :
  p ∈ joined on ls rs →
  p.1 ∈ ls ∧ ∀ h, p.2 = Some h → h ∈ rs ∧ pd.key on h = pd.key on p.1.
Proof.
  unfold joined. intros (l & Hp & Hl)%list_elem_of_bind.
  destruct (filter _ rs) as [|m ms] eqn:E.
  - apply list_elem_of_singleton in Hp as ->. by split.
  - apply list_elem_of_fmap in Hp as (h & -> & Hh). split; [done|].
    intros ? [= <-]. rewrite <- E in Hh. by apply list_elem_of_filter in Hh as [? ?].
Qed.

Lemma odds_labels_NoDup : NoDup ODDS_VALUE_COLUMNS.
Proof. by_compute. Qed.

Lemma odds_labels_no_clash c1 c2 :
  c1 ∈ ODDS_VALUE_COLUMNS → c2 ∈ ODDS_VALUE_COLUMNS → c1 ≠ hist_label c2.
Proof.
  assert (H : Forall (λ c1, Forall (λ c2, c1 ≠ hist_label c2) ODDS_VALUE_COLUMNS)
                ODDS_VALUE_COLUMNS) by by_compute.
  intros H1 H2. rewrite Forall_forall in H. specialize (H _ H1).
  rewrite Forall_forall in H. by apply H.
Qed.

Lemma odds_source_not_hist_label c : c ∈ ODDS_VALUE_COLUMNS → "odds_source" ≠ hist_label c.
Proof.
  assert (H : Forall (λ c, "odds_source" ≠ hist_label c) ODDS_VALUE_COLUMNS) by by_compute.
  rewrite Forall_forall in H. apply H.
Qed.

Lemma backfilled_row_lookup l h k :
  backfilled_row (l, h) !! k =
  if decide (k ∈ ODDS_VALUE_COLUMNS) then
    match l !! k with Some v => Some v | None => hist_value h k end
  else if decide (k = "odds_source") then
    match l !! "odds_source" with
    | Some x => Some x
    | None => if filled_from_hist l h then Some (SStr "historical") else None
    end
  else l !! k.
Proof.
  unfold backfilled_row.
  set (fill := foldr _ l ODDS_VALUE_COLUMNS).
  assert (Hfill : fill !! k =
            if decide (k ∈ ODDS_VALUE_COLUMNS) then
              match l !! k with Some v => Some v | None => hist_value h k end
            else l !! k).
  { unfold fill. generalize odds_labels_NoDup.
    induction ODDS_VALUE_COLUMNS as [|c cs IH]; intros Hnd; [done|].
    apply NoDup_cons in Hnd as [Hc Hnd]. cbn [foldr].
    set (rest := foldr _ l cs) in *. specialize (IH Hnd).
    assert (Hstep : (if pd.isna (l !! c) && pd.notna (hist_value h c)
                     then pd.set_cell c (hist_value h c) rest else rest) !! k
                    = if decide (k = c)
                      then match l !! c with Some v => Some v | None => hist_value h c end
                      else rest !! k).
    { unfold pd.isna, pd.notna, pd.isna.
      destruct (decide (k = c)) as [->|Hne].
      - assert (Hrest : rest !! c = l !! c) by (by rewrite IH, decide_False).
        destruct (l !! c) as [v|] eqn:El.
        + by rewrite bool_decide_eq_false_2.
        + rewrite bool_decide_eq_true_2 by done. cbn [andb].
          destruct (hist_value h c) as [w|] eqn:Eh.
          * rewrite bool_decide_eq_false_2 by done. cbn [negb].
            by rewrite lookup_set_cell, decide_True.
          * by rewrite bool_decide_eq_true_2.
      - destruct (_ && _); [|done]. by rewrite lookup_set_cell, decide_False. }
    rewrite Hstep. destruct (decide (k = c)) as [->|Hne].
    - by rewrite decide_True by left.
    - rewrite IH. destruct (decide (k ∈ cs)).
      + by rewrite decide_True by by right.
      + rewrite decide_False; [done|]. by intros [?|?]%elem_of_cons. }
  destruct (decide (k = "odds_source")) as [->|Hne].
  - rewrite (decide_False (P := "odds_source" ∈ ODDS_VALUE_COLUMNS)) in *
      by apply odds_source_not_odds.
    unfold pd.isna. destruct (l !! "odds_source") as [x|] eqn:Eos.
    + rewrite bool_decide_eq_false_2 by done. by rewrite andb_false_r.
    + rewrite bool_decide_eq_true_2 by done. rewrite andb_true_r.
      destruct (filled_from_hist l h); [|done].
      by rewrite lookup_set_cell, decide_True.
  - destruct (_ && _); [|done]. by rewrite lookup_set_cell, decide_False.
Qed.

Lemma zip_fmap_same {A B C} (a : A → B) (b : A → C) (l : list A) :
  zip (a <$> l) (b <$> l) = (λ x, (a x, b x)) <$> l.
Proof. apply (zip_with_fmap_same pair). Qed.

Section backfill_stage.
Context (merged hist : DataFrame).
Hypothesis merged_wf : ∀ l k, l ∈ rows merged → k ∉ columns merged → l !! k = None.
Hypothesis hist_wf : ∀ h k, h ∈ rows hist → k ∉ columns hist → h !! k = None.
Hypothesis merged_odds : ∀ c, c ∈ ODDS_VALUE_COLUMNS → c ∈ columns merged.
Hypothesis merged_fresh : ∀ c, c ∈ ODDS_VALUE_COLUMNS → hist_label c ∉ columns merged.
Hypothesis hist_keys : key_cols ⊆ columns hist.
Hypothesis hist_odds : ∀ c, c ∈ columns hist → c ∈ key_cols ∨ c ∈ ODDS_VALUE_COLUMNS.

Local Abbreviation rest_h := (pd.rest key_cols hist).
Local Abbreviation ov := (pd.overlap merged hist key_cols).
Local Abbreviation pairs := (joined key_cols (rows merged) (rows hist)).

Lemma elem_of_rest_h c :
  c ∈ rest_h ↔ c ∈ columns hist ∧ c ∈ ODDS_VALUE_COLUMNS.
Proof.
  unfold pd.rest. rewrite list_elem_of_filter. split.
  - intros [Hk Hc]. split; [done|]. by destruct (hist_odds c Hc).
  - intros [Hc Ho]. split; [|done]. intros Hk. by apply key_cols_not_odds in Hk.
Qed.

Lemma rest_h_overlap c : c ∈ rest_h → c ∈ ov.
Proof.
  intros Hc. unfold pd.overlap. apply list_elem_of_filter. split; [done|].
  apply elem_of_rest_h in Hc as [_ Ho].
  unfold pd.rest. apply list_elem_of_filter. split; [|by apply merged_odds].
  intros Hk. by apply key_cols_not_odds in Hk.
Qed.

Lemma hist_merge_columns :
  columns (pd.merge merged hist key_cols ("", "_hist"))
  = columns merged ++ (hist_label <$> rest_h).
Proof.
  unfold pd.merge; cbn [columns fst snd]. f_equal.
  - rewrite <- (list_fmap_id (columns merged)) at 2. apply list_fmap_ext.
    intros _ c _. unfold pd.suffixed. case_bool_decide; [|done].
    apply string_append_nil_r.
  - apply list_fmap_ext_in. intros c Hc. unfold pd.suffixed.
    by rewrite bool_decide_eq_true_2 by by apply rest_h_overlap.
Qed.

Lemma hist_label_fresh k :
  k ∈ columns merged → k ∉ hist_label <$> rest_h.
Proof.
  intros Hk (c & -> & Hc)%list_elem_of_fmap.
  apply elem_of_rest_h in Hc as [_ Hc]. by apply (merged_fresh c).
Qed.

Lemma relabel_left l : l ∈ rows merged →
  pd.relabel (pd.suffixed ov "") (columns merged) l = l.
Proof.
  intros Hl. rewrite (relabel_ext _ id).
  - apply map_eq. intros k. rewrite relabel_id_lookup.
    case_decide; [done|]. symmetry. by apply merged_wf.
  - intros c _. unfold pd.suffixed. case_bool_decide; [|done].
    apply string_append_nil_r.
Qed.

Lemma relabel_right h :
  pd.relabel (pd.suffixed ov "_hist") rest_h h = pd.relabel hist_label rest_h h.
Proof.
  apply relabel_ext. intros c Hc. unfold pd.suffixed.
  by rewrite bool_decide_eq_true_2 by by apply rest_h_overlap.
Qed.

(** The row that the historical merge forms from a pair. *)
Lemma hist_merge_row_lookup p k :
  p ∈ pairs →
  merge_row ov ("", "_hist") (columns merged) rest_h p !! k =
  match p.1 !! k with
  | Some v => Some v
  | None => match p.2 with
            | Some h => pd.relabel hist_label rest_h h !! k
            | None => None
            end
  end.
Proof.
  intros [Hl Hh]%elem_of_joined. destruct p as [l [h|]]; cbn [fst snd] in *.
  - unfold merge_row; cbn [fst snd]. rewrite relabel_left, relabel_right by done.
    rewrite lookup_union. by destruct (l !! k), (pd.relabel _ _ _ !! k).
  - unfold merge_row; cbn [fst snd]. rewrite relabel_left by done.
    by destruct (l !! k).
Qed.

Lemma hist_merge_row_left p k :
  p ∈ pairs → k ∉ hist_label <$> rest_h →
  merge_row ov ("", "_hist") (columns merged) rest_h p !! k = p.1 !! k.
Proof.
  intros Hp Hk. rewrite hist_merge_row_lookup by done.
  destruct (p.1 !! k); [done|]. destruct p.2; [|done].
  by apply relabel_lookup_None.
Qed.

Lemma hist_merge_row_hist p c :
  p ∈ pairs → c ∈ rest_h →
  merge_row ov ("", "_hist") (columns merged) rest_h p !! hist_label c
  = hist_value p.2 c.
Proof.
  intros Hp Hc. rewrite hist_merge_row_lookup by done.
  apply elem_of_joined in Hp as [Hl Hh].
  rewrite merged_wf; [|done|].
  2:{ apply merged_fresh. by apply elem_of_rest_h in Hc as [_ ?]. }
  destruct p.2 as [h|]; [|done]. cbn.
  apply relabel_lookup; [done|]. by intros c' _ ?%(inj hist_label).
Qed.

Lemma hist_value_outside p c :
  p ∈ pairs → c ∈ ODDS_VALUE_COLUMNS → c ∉ rest_h → hist_value p.2 c = None.
Proof.
  intros [_ Hh]%elem_of_joined Hc Hn. destruct p.2 as [h|]; [|done]. cbn.
  destruct (Hh h eq_refl) as [Hin _]. apply hist_wf; [done|].
  intros Hcol. apply Hn, elem_of_rest_h. by split.
Qed.

Lemma hist_label_in_merge c :
  c ∈ ODDS_VALUE_COLUMNS →
  hist_label c ∈ columns merged ++ (hist_label <$> rest_h) ↔ c ∈ rest_h.
Proof.
  intros Hc. rewrite elem_of_app, list_elem_of_fmap. split.
  - intros [H|(c' & Heq%(inj hist_label) & Hc')]; [by apply merged_fresh in H|by subst].
  - intros H. right. by exists c.
Qed.

(** The state of a pair after the fill loop. *)
Local Abbreviation after_loop p :=
  (foldl fill_step
     (columns merged ++ (hist_label <$> rest_h),
      merge_row ov ("", "_hist") (columns merged) rest_h p, false)
     ODDS_VALUE_COLUMNS).

Lemma after_loop_lookup p k :
  p ∈ pairs →
  (after_loop p).1.2 !! k =
  if decide (k ∈ ODDS_VALUE_COLUMNS) then
    match p.1 !! k with Some v => Some v | None => hist_value p.2 k end
  else p.1 !! k.
Proof.
  intros Hp. destruct (decide (k ∈ ODDS_VALUE_COLUMNS)) as [Hk|Hk].
  - rewrite fill_loop_col;
      [|apply odds_labels_NoDup|apply odds_labels_no_clash|done].
    assert (Hleft : merge_row ov ("", "_hist") (columns merged) rest_h p !! k = p.1 !! k).
    { apply hist_merge_row_left; [done|]. by apply hist_label_fresh, merged_odds. }
    rewrite Hleft. unfold pd.isna.
    destruct (decide (k ∈ rest_h)) as [Hr|Hr].
    + rewrite bool_decide_eq_true_2 by by apply hist_label_in_merge.
      rewrite hist_merge_row_hist by done. cbn [andb].
      destruct (p.1 !! k); [by rewrite bool_decide_eq_false_2|].
      by rewrite bool_decide_eq_true_2.
    + rewrite bool_decide_eq_false_2 by by rewrite hist_label_in_merge.
      cbn [andb]. rewrite hist_value_outside by done. by destruct (p.1 !! k).
  - assert (Hnone : ∀ c, c ∈ ODDS_VALUE_COLUMNS → p.1 !! hist_label c = None).
    { intros c Hc. apply elem_of_joined in Hp as [Hl _].
      apply merged_wf; [done|]. by apply merged_fresh. }
    destruct (decide (k ∈ hist_label <$> ODDS_VALUE_COLUMNS)) as [Hh|Hh].
    + apply list_elem_of_fmap in Hh as (c & -> & Hc). rewrite Hnone by done.
      destruct (decide (c ∈ rest_h)) as [Hr|Hr].
      * apply fill_loop_hist; [apply odds_labels_no_clash|done|].
        by apply hist_label_in_merge.
      * apply fill_loop_stays_missing; [|done].
        rewrite hist_merge_row_left, Hnone; [done..|].
        intros (c' & Heq%(inj hist_label) & Hc')%list_elem_of_fmap. by subst.
    + rewrite fill_loop_other by done. apply hist_merge_row_left; [done|].
      intros (c & -> & Hc)%list_elem_of_fmap. apply Hh, list_elem_of_fmap.
      exists c. split; [done|]. by apply elem_of_rest_h in Hc as [_ ?].
Qed.

Lemma after_loop_flag p :
  p ∈ pairs → (after_loop p).2 = filled_from_hist p.1 p.2.
Proof.
  intros Hp. rewrite fill_loop_flag;
    [|apply odds_labels_NoDup|apply odds_labels_no_clash].
  cbn [orb]. unfold filled_from_hist.
  apply eq_true_iff_eq. rewrite !existsb_exists.
  assert (Hsame : ∀ c, c ∈ ODDS_VALUE_COLUMNS →
    bool_decide (hist_label c ∈ columns merged ++ (hist_label <$> rest_h))
      && pd.isna (merge_row ov ("", "_hist") (columns merged) rest_h p !! c)
      && pd.notna (merge_row ov ("", "_hist") (columns merged) rest_h p !! hist_label c)
    = pd.isna (p.1 !! c) && pd.notna (hist_value p.2 c)).
  { intros c Hc.
    rewrite (hist_merge_row_left p c) by (try done; by apply hist_label_fresh, merged_odds).
    destruct (decide (c ∈ rest_h)) as [Hr|Hr].
    - rewrite bool_decide_eq_true_2 by by apply hist_label_in_merge.
      by rewrite hist_merge_row_hist.
    - rewrite bool_decide_eq_false_2 by by rewrite hist_label_in_merge.
      rewrite hist_value_outside by done. cbn. by rewrite andb_false_r. }
  split; intros (c & Hc & Hb); exists c; (split; [done|]);
    apply list_elem_of_In in Hc; [rewrite <- Hsame by done|rewrite Hsame by done]; done.
Qed.

Lemma backfilled_row_no_hist l :
  l ∈ rows merged → backfilled_row (l, None) = l.
Proof.
  intros Hl. apply map_eq. intros k. rewrite backfilled_row_lookup.
  assert (Hf : filled_from_hist l None = false).
  { unfold filled_from_hist. apply not_true_is_false. rewrite existsb_exists.
    intros (c & _ & Hc). cbn in Hc. by rewrite andb_false_r in Hc. }
  rewrite Hf. cbn. destruct (decide (k ∈ ODDS_VALUE_COLUMNS)); [by destruct (l !! k)|].
  destruct (decide (k = "odds_source")) as [->|]; [|done].
  by destruct (l !! "odds_source").
Qed.

Lemma ensure_odds_source_rows :
  rows (ensure_column merged "odds_source") = rows merged.
Proof.
  rewrite (proj2 (ensure_column_spec merged "odds_source")).
  rewrite <- (list_fmap_id (rows merged)) at 2. apply list_fmap_ext_in.
  intros l Hl. case_bool_decide as Hin; [done|].
  apply map_eq. intros k. rewrite lookup_delete. case_decide as Hk; [|done].
  subst. symmetry. by apply merged_wf.
Qed.

(** The rows of [backfill], pair by pair. *)
Lemma backfill_rows :
  rows (backfill merged (Some hist)) = backfilled_row <$> pairs.
Proof.
  unfold backfill. destruct (pd.empty hist) eqn:Hempty; cbn [negb].
  - assert (Hnil : rows hist = []).
    { unfold pd.empty in Hempty. apply orb_true_iff in Hempty as [H|H].
      - by apply bool_decide_eq_true_1 in H.
      - apply bool_decide_eq_true_1 in H.
        assert (Hk : "season" ∈ columns hist) by (apply hist_keys; by_compute).
        rewrite H in Hk. by apply elem_of_nil in Hk. }
    rewrite ensure_odds_source_rows, Hnil, joined_nil_r, <- list_fmap_compose.
    rewrite <- (list_fmap_id (rows merged)) at 1. apply list_fmap_ext_in.
    intros l Hl. cbn [compose]. symmetry. by apply backfilled_row_no_hist.
  - set (m2 := pd.merge merged hist key_cols ("", "_hist")).
    set (g := merge_row ov ("", "_hist") (columns merged) rest_h).
    assert (Hrows2 : rows m2 = g <$> pairs) by apply rows_merge.
    assert (Hcols2 : columns m2 = columns merged ++ (hist_label <$> rest_h))
      by apply hist_merge_columns.
    rewrite Hrows2 at 1. rewrite <- list_fmap_compose.
    destruct (backfill_loop_fmap pairs ODDS_VALUE_COLUMNS g ((λ _, false) ∘ g) m2 Hrows2)
      as (Hc3 & Hr3 & Hf3).
    destruct (foldl backfill_column (m2, _) ODDS_VALUE_COLUMNS) as [m3 fl3].
    cbn [fst snd] in Hc3, Hr3, Hf3. rewrite Hcols2 in Hc3, Hr3, Hf3.
    cbn [compose] in Hr3, Hf3.
    destruct (ensure_column_spec m3 "odds_source") as [_ Hr4].
    set (m4 := ensure_column m3 "odds_source") in *.
    unfold pd.loc_set; cbn [rows]. rewrite Hr4, Hr3, Hf3.
    rewrite <- !list_fmap_compose, zip_fmap_same, <- list_fmap_compose.
    rewrite zip_with_fmap_same. apply list_fmap_ext_in. intros p Hp.
    unfold compose. cbv beta iota. fold g.
    set (st3 := foldl fill_step _ ODDS_VALUE_COLUMNS).
    set (r3 := st3.1.2). set (f3 := st3.2).
    set (r4 := if bool_decide ("odds_source" ∈ columns m3) then r3
               else delete "odds_source" r3).
    assert (H3 : ∀ k, r3 !! k =
              if decide (k ∈ ODDS_VALUE_COLUMNS) then
                match p.1 !! k with Some v => Some v | None => hist_value p.2 k end
              else p.1 !! k) by (intros k; by apply after_loop_lookup).
    assert (Hf : f3 = filled_from_hist p.1 p.2) by by apply after_loop_flag.
    clearbody r3 f3. clear st3.
    assert (Hos : r3 !! "odds_source" = p.1 !! "odds_source").
    { rewrite H3. by rewrite decide_False by apply odds_source_not_odds. }
    assert (H4 : r4 = r3).
    { unfold r4. case_bool_decide as Hin; [done|].
      apply delete_id. rewrite Hos.
      apply elem_of_joined in Hp as [Hl _]. apply merged_wf; [done|].
      intros Hm. apply Hin. rewrite Hc3. apply fill_loop_elem_of. split.
      - apply elem_of_app. by left.
      - intros (c & Heq & Hc)%list_elem_of_fmap. by apply odds_source_not_hist_label in Heq. }
    rewrite H4, Hf, Hos. apply map_eq. intros k.
    destruct p as [l h]. cbn [fst snd] in *.
    rewrite backfilled_row_lookup.
    unfold pd.isna. destruct (l !! "odds_source") as [x|] eqn:Eos.
    + rewrite bool_decide_eq_false_2, andb_false_r by done. rewrite H3.
      destruct (decide (k ∈ ODDS_VALUE_COLUMNS)); [done|].
      by destruct (decide (k = "odds_source")) as [->|].
    + rewrite bool_decide_eq_true_2, andb_true_r by done.
      destruct (filled_from_hist l h) eqn:Ef; cbv iota.
      * rewrite lookup_set_cell, H3.
        destruct (decide ("odds_source" = k)) as [<-|Hne].
        -- rewrite decide_False by apply odds_source_not_odds.
           by rewrite decide_True.
        -- destruct (decide (k ∈ ODDS_VALUE_COLUMNS)); [done|].
           by rewrite decide_False.
      * rewrite H3. destruct (decide (k ∈ ODDS_VALUE_COLUMNS)); [done|].
        by destruct (decide (k = "odds_source")) as [->|].
Qed.
End backfill_stage.

Lemma frame_wf_lookup df r k :
  frame_wf df → r ∈ rows df → k ∉ columns df → r !! k = None.
Proof.
  unfold frame_wf. rewrite Forall_forall. intros Hwf Hr Hk.
  apply not_elem_of_dom. intros Hd. apply Hk.
  apply (Hwf r Hr) in Hd. by apply elem_of_list_to_set in Hd.
Qed.

Lemma backfill_ready_rows merged hist :
  backfill_ready merged hist →
  rows (backfill merged (Some hist))
  = backfilled_row <$> joined key_cols (rows merged) (rows hist).
Proof.
  intros (Hwm & Hwh & Hodds & Hkeys & Hcols).
  rewrite Forall_forall in Hodds. rewrite Forall_forall in Hkeys.
  rewrite Forall_forall in Hcols.
  apply backfill_rows.
  - intros l k. by apply frame_wf_lookup.
  - intros h k. by apply frame_wf_lookup.
  - intros c Hc. by apply Hodds.
  - intros c Hc. by apply Hodds.
  - intros k Hk. by apply Hkeys.
  - done.
Qed.

Lemma backfill_never_overwrites_stage merged hist :
  backfill_ready merged hist →
  Forall2 (λ p r',
      p.1 ∈ rows merged ∧
      (∀ h, p.2 = Some h → h ∈ rows hist ∧ pd.key key_cols h = pd.key key_cols p.1) ∧
      ∀ c, c ∈ ODDS_VALUE_COLUMNS →
        (is_Some (p.1 !! c) → r' !! c = p.1 !! c) ∧
        (r' !! c ≠ p.1 !! c →
           p.1 !! c = None ∧ is_Some (hist_value p.2 c) ∧ r' !! c = hist_value p.2 c))
    (joined key_cols (rows merged) (rows hist))
    (rows (backfill merged (Some hist))).
Proof.
  intros Hready. rewrite backfill_ready_rows by done.
  apply Forall2_fmap_r, Forall_Forall2_diag, Forall_forall.
  intros [l h] Hp. apply elem_of_joined in Hp as [Hl Hh]. cbn [fst snd] in *.
  split; [done|]. split; [done|]. intros c Hc.
  rewrite backfilled_row_lookup, decide_True by done.
  destruct (l !! c) as [v|]; split.
  - done.
  - by intros Hne.
  - by intros [? ?].
  - intros Hne. split; [done|]. split; [|done].
    destruct (hist_value h c); [done|]. by destruct Hne.
Qed.

Lemma tagged_row_lookup p :
  let r' := tag_row (backfilled_row p) in
  (∀ c, c ∈ ODDS_VALUE_COLUMNS →
     r' !! c = match p.1 !! c with Some v => Some v | None => hist_value p.2 c end) ∧
  r' !! "odds_source" =
    if forallb (λ c, pd.isna (r' !! c)) ODDS_VALUE_COLUMNS then Some (SStr "missing")
    else match p.1 !! "odds_source" with
         | Some tag => Some tag
         | None => if filled_from_hist p.1 p.2 then Some (SStr "historical")
                   else Some (SStr "odds_api")
         end.
Proof.
  destruct p as [l h]. cbn [fst snd]. cbn zeta.
  assert (Hodds : ∀ c, c ∈ ODDS_VALUE_COLUMNS →
            tag_row (backfilled_row (l, h)) !! c = backfilled_row (l, h) !! c).
  { intros c Hc. rewrite tag_row_lookup, decide_False; [done|].
    intros ->. by apply odds_source_not_odds. }
  split.
  - intros c Hc. by rewrite Hodds, backfilled_row_lookup, decide_True.
  - rewrite tag_row_lookup, decide_True by done.
    assert (Hall : forallb (λ c, pd.isna (tag_row (backfilled_row (l, h)) !! c))
                     ODDS_VALUE_COLUMNS
                   = forallb (λ c, pd.isna (backfilled_row (l, h) !! c)) ODDS_VALUE_COLUMNS).
    { apply eq_true_iff_eq. rewrite !forallb_odds_isna.
      split; intros H c Hc; [rewrite <- Hodds by done|rewrite Hodds by done]; auto. }
    rewrite Hall. clear Hall. destruct (forallb _ _); [done|].
    rewrite backfilled_row_lookup.
    rewrite decide_False by apply odds_source_not_odds. rewrite decide_True by done.
    destruct (l !! "odds_source"); [done|]. by destruct (filled_from_hist l h).
Qed.

Lemma odds_source_tagging_stage merged hist :
  backfill_ready merged hist →
  Forall (λ l : gmap string scalar,
            l !! "odds_source" = None ∨ l !! "odds_source" = Some (SStr "odds_api"))
         (rows merged) →
  Forall2 (λ p r',
      let all_null := ∀ c, c ∈ ODDS_VALUE_COLUMNS → r' !! c = None in
      let tagged := p.1 !! "odds_source" = Some (SStr "odds_api") in
      let filled := ∃ c, c ∈ ODDS_VALUE_COLUMNS ∧ p.1 !! c = None ∧
                         is_Some (hist_value p.2 c) in
      (r' !! "odds_source" = Some (SStr "missing") ↔ all_null) ∧
      (r' !! "odds_source" = Some (SStr "historical") ↔ ¬ tagged ∧ filled) ∧
      (r' !! "odds_source" = Some (SStr "odds_api") ↔
         ¬ all_null ∧ (tagged ∨ ¬ filled)))
    (joined key_cols (rows merged) (rows hist))
    (rows (tag_sources (backfill merged (Some hist)))).
Proof.
  intros Hready Htags.
  rewrite (proj2 (tag_sources_spec _)), backfill_ready_rows by done.
  rewrite <- list_fmap_compose.
  apply Forall2_fmap_r, Forall_Forall2_diag, Forall_forall.
  intros [l h] Hp. apply elem_of_joined in Hp as [Hl _]. cbn [fst snd compose] in *.
  rewrite Forall_forall in Htags. specialize (Htags l Hl).
  destruct (tagged_row_lookup (l, h)) as [Hcells Hsrc]. cbn [fst snd] in *. cbn zeta in *.
  set (r' := tag_row (backfilled_row (l, h))) in *. clearbody r'.
  assert (Hfilled : filled_from_hist l h = true ↔
            ∃ c, c ∈ ODDS_VALUE_COLUMNS ∧ l !! c = None ∧ is_Some (hist_value h c)).
  { unfold filled_from_hist. rewrite existsb_exists. split.
    - intros (c & Hc%list_elem_of_In & Hb). exists c. split; [done|].
      apply andb_true_iff in Hb as [H1 H2]. unfold pd.notna, pd.isna in *.
      apply bool_decide_eq_true_1 in H1. apply negb_true_iff, bool_decide_eq_false_1 in H2.
      split; [done|]. by destruct (hist_value h c).
    - intros (c & Hc & H1 & [v H2]). exists c. split; [by apply list_elem_of_In|].
      unfold pd.notna, pd.isna. rewrite H1, H2. done. }
  assert (Hfn : (∃ c, c ∈ ODDS_VALUE_COLUMNS ∧ l !! c = None ∧ is_Some (hist_value h c)) →
                ¬ ∀ c, c ∈ ODDS_VALUE_COLUMNS → r' !! c = None).
  { intros (c & Hc & H1 & [v H2]) Hall. specialize (Hall c Hc).
    rewrite Hcells, H1, H2 in Hall; done. }
  rewrite Hsrc. destruct (forallb _ _) eqn:Eall.
  - pose proof (proj1 (forallb_odds_isna r') Eall) as Hall. split; [done|]. split.
    + split; [done|]. intros [_ Hf]. by apply Hfn in Hf.
    + split; [done|]. by intros [? _].
  - assert (Hnn : ¬ ∀ c, c ∈ ODDS_VALUE_COLUMNS → r' !! c = None).
    { intros H. pose proof (proj2 (forallb_odds_isna r') H). congruence. }
    destruct Htags as [-> | ->].
    + destruct (filled_from_hist l h).
      * pose proof (proj1 Hfilled eq_refl) as Ef.
        split; [split; [done|by intros ?]|]. split.
        -- split; [|done]. intros _. by split.
        -- split; [done|]. intros [_ [?|?]]; done.
      * assert (Hnf : ¬ ∃ c, c ∈ ODDS_VALUE_COLUMNS ∧ l !! c = None ∧
                             is_Some (hist_value h c)).
        { intros H. by apply Hfilled in H. }
        split; [split; [done|by intros ?]|]. split.
        -- split; [done|]. by intros [_ ?].
        -- split; [|done]. intros _. split; [done|]. by right.
    + split; [split; [done|by intros ?]|]. split.
      * split; [done|]. by intros [? _].
      * split; [|done]. intros _. split; [done|]. by left.
Qed.

(** ** The pipeline establishes the preconditions of the historical stage *)

Lemma frame_wf_intro df :
  (∀ r k, r ∈ rows df → k ∉ columns df → r !! k = None) → frame_wf df.
Proof.
  intros H. apply Forall_forall. intros r Hr k Hk.
  apply elem_of_list_to_set. destruct (decide (k ∈ columns df)) as [|Hn]; [done|].
  apply elem_of_dom in Hk as [v Hv]. rewrite (H r k Hr Hn) in Hv. done.
Qed.

Lemma merge_wf left right on sfx : frame_wf (pd.merge left right on sfx).
Proof.
  apply frame_wf_intro. intros r k. rewrite rows_merge.
  intros (p & -> & Hp)%list_elem_of_fmap. unfold pd.merge; cbn [columns].
  rewrite elem_of_app. intros Hk. unfold merge_row.
  assert (Hl : pd.relabel (pd.suffixed (pd.overlap left right on) sfx.1) (columns left) p.1
               !! k = None) by (apply relabel_lookup_None; tauto).
  destruct p.2 as [h|]; [|done].
  rewrite lookup_union, Hl, relabel_lookup_None by tauto. done.
Qed.

Lemma ensure_column_wf df col : frame_wf df → frame_wf (ensure_column df col).
Proof.
  intros Hwf. apply frame_wf_intro. intros r k.
  destruct (ensure_column_spec df col) as [Hc Hr]. rewrite Hr, Hc.
  intros (r0 & -> & Hr0)%list_elem_of_fmap Hk.
  assert (r0 !! k = None) by (apply (frame_wf_lookup df); tauto).
  case_bool_decide; [done|]. rewrite lookup_delete. by case_decide.
Qed.

Lemma ensure_columns_wf cols df : frame_wf df → frame_wf (foldl ensure_column df cols).
Proof.
  revert df. induction cols as [|c cols IH]; intros df Hwf; [done|].
  cbn [foldl]. by apply IH, ensure_column_wf.
Qed.

Lemma merge_live_wf schedule latest : frame_wf (merge_live schedule latest).
Proof. apply ensure_columns_wf, merge_wf. Qed.

Lemma merge_live_odds schedule latest c :
  c ∈ ODDS_VALUE_COLUMNS → c ∈ columns (merge_live schedule latest).
Proof.
  intros Hc. unfold merge_live. apply (proj1 (ensure_columns_spec _ _)). by right.
Qed.

Lemma live_rest latest c :
  c ∈ pd.rest ["home_team"; "away_team"]
        (pd.select (["home_team"; "away_team"] ++
                    filter (λ c, c ∈ columns latest) live_labels) latest) →
  c ∈ live_labels ∧ c ∈ columns latest.
Proof.
  unfold pd.rest, pd.select; cbn [columns]. rewrite list_elem_of_filter, elem_of_app.
  intros [Hn [Hk|Hc]]; [done|]. apply list_elem_of_filter in Hc. tauto.
Qed.

Lemma live_overlap schedule latest c :
  c ∈ pd.overlap schedule
        (pd.select (["home_team"; "away_team"] ++
                    filter (λ c, c ∈ columns latest) live_labels) latest)
        ["home_team"; "away_team"] →
  c ∈ live_labels ∧ c ∈ columns schedule.
Proof.
  unfold pd.overlap. intros [Hr Hl]%list_elem_of_filter.
  apply live_rest in Hr as [Hr _]. split; [done|].
  unfold pd.rest in Hl. by apply list_elem_of_filter in Hl as [_ ?].
Qed.

(** No label produced by the live merge is a [_hist] label. *)
Lemma live_labels_not_hist x c :
  x ∈ live_labels → c ∈ ODDS_VALUE_COLUMNS →
  x ≠ hist_label c ∧ x +:+ "_x" ≠ hist_label c ∧ x +:+ "_y" ≠ hist_label c.
Proof.
  assert (H : Forall (λ x, Forall (λ c,
                x ≠ hist_label c ∧ x +:+ "_x" ≠ hist_label c ∧ x +:+ "_y" ≠ hist_label c)
              ODDS_VALUE_COLUMNS) live_labels) by by_compute.
  intros Hx Hc. rewrite Forall_forall in H. specialize (H x Hx).
  rewrite Forall_forall in H. by apply H.
Qed.

Lemma merge_live_fresh schedule latest c :
  c ∈ ODDS_VALUE_COLUMNS →
  hist_label c ∉ columns schedule →
  hist_label c ∉ columns (merge_live schedule latest).
Proof.
  intros Hc Hs. unfold merge_live. rewrite (proj1 (ensure_columns_spec _ _)).
  intros [Hm|Ho].
  - unfold pd.merge in Hm; cbn [columns fst snd] in Hm.
    apply elem_of_app in Hm as [Hm|Hm];
      apply list_elem_of_fmap in Hm as (x & Heq & Hx); unfold pd.suffixed in Heq.
    + case_bool_decide as Hov.
      * apply live_overlap in Hov as [Hov _].
        by destruct (live_labels_not_hist x c Hov Hc) as (_ & ? & _).
      * by subst.
    + apply live_rest in Hx as [Hx _].
      destruct (live_labels_not_hist x c Hx Hc) as (? & _ & ?).
      by case_bool_decide.
  - by apply (odds_labels_no_clash (hist_label c) c).
Qed.

Lemma columns_select cols df : columns (pd.select cols df) = cols.
Proof. done. Qed.

Lemma rows_select cols df :
  rows (pd.select cols df)
  = (λ r, filter (λ kv : string * scalar, kv.1 ∈ cols) r) <$> rows df.
Proof. done. Qed.

Lemma keep_cols_NoDup (labels : list string) :
  dict_fromkeys (key_cols ++ filter (λ c, c ∈ labels) ODDS_VALUE_COLUMNS)
  = key_cols ++ filter (λ c, c ∈ labels) ODDS_VALUE_COLUMNS.
Proof. apply dict_fromkeys_NoDup, NoDup_keep_cols. Qed.

Lemma loader_Some fs historical_csv hist :
  _prepare_historical_lines fs historical_csv key_cols = Returned (Some hist) →
  ∃ X, hist = pd.select (key_cols ++ filter (λ c, c ∈ columns X) ODDS_VALUE_COLUMNS) X.
Proof.
  unfold _prepare_historical_lines.
  destruct historical_csv as [path|]; [|done].
  destruct (_ || _); [done|]. destruct (read_csv fs path) as [table|]; [|done].
  destruct (filter _ key_cols); [|done].
  rewrite keep_cols_NoDup.
  match goal with
  | |- Returned (Some (pd.select _ ?X)) = _ → _ => intros H; exists X; congruence
  end.
Qed.

(** What the loader returns has the key columns and odds-value columns only,
    and cells under these labels only. *)
Lemma loader_shape fs historical_csv hist :
  _prepare_historical_lines fs historical_csv key_cols = Returned (Some hist) →
  frame_wf hist ∧
  Forall (λ k, k ∈ columns hist) key_cols ∧
  Forall (λ c, c ∈ key_cols ∨ c ∈ ODDS_VALUE_COLUMNS) (columns hist).
Proof.
  intros [X ->]%loader_Some. rewrite columns_select. split; [|split].
  - apply frame_wf_intro. intros r k. rewrite rows_select, columns_select.
    intros (r0 & -> & _)%list_elem_of_fmap Hk.
    rewrite lookup_select_row. by rewrite decide_False.
  - apply Forall_forall. intros k Hk. apply elem_of_app. by left.
  - apply Forall_forall. intros c [Hc|Hc]%elem_of_app; [by left|right].
    by apply list_elem_of_filter in Hc as [_ ?].
Qed.

Lemma merge_live_ready schedule latest fs historical_csv hist :
  Forall (λ c, hist_label c ∉ columns schedule) ODDS_VALUE_COLUMNS →
  _prepare_historical_lines fs historical_csv key_cols = Returned (Some hist) →
  backfill_ready (merge_live schedule latest) hist.
Proof.
  intros Hfresh (Hwf & Hkeys & Hcols)%loader_shape.
  split; [apply merge_live_wf|]. split; [done|]. split; [|done].
  rewrite Forall_forall in Hfresh. apply Forall_forall. intros c Hc. split.
  - by apply merge_live_odds.
  - apply merge_live_fresh; auto.
Qed.

(** Without a historical table the stage behaves as with an empty one. *)
Lemma backfill_None merged :
  backfill merged None = backfill merged (Some (pd.empty_frame key_cols)).
Proof. done. Qed.

Lemma empty_hist_ready schedule latest :
  Forall (λ c, hist_label c ∉ columns schedule) ODDS_VALUE_COLUMNS →
  backfill_ready (merge_live schedule latest) (pd.empty_frame key_cols).
Proof.
  intros Hfresh. split; [apply merge_live_wf|]. split; [by apply Forall_nil|].
  split; [|split; by_compute].
  rewrite Forall_forall in Hfresh. apply Forall_forall. intros c Hc. split.
  - by apply merge_live_odds.
  - apply merge_live_fresh; auto.
Qed.

(** ** Row structure of the two merges *)

Lemma filter_all_False {A} (P : A → Prop) `{∀ x, Decision (P x)} (l : list A) :
  Forall (λ x, ¬ P x) l → filter P l = [].
Proof.
  induction 1 as [|x l Hx _ IH]; [done|]. by rewrite filter_cons, decide_False.
Qed.

Lemma filter_key_unique {A B} `{EqDecision B} (f : A → B) (l : list A) v :
  NoDup (f <$> l) →
  filter (λ x, f x = v) l = [] ∨ ∃ x, filter (λ x, f x = v) l = [x].
Proof.
  induction l as [|x l IH]; [by left|].
  rewrite fmap_cons. intros [Hx Hnd]%NoDup_cons. rewrite filter_cons.
  case_decide as Hv; [|by apply IH]. right. exists x. f_equal.
  apply filter_all_False, Forall_forall. intros y Hy Hfy. apply Hx.
  apply list_elem_of_fmap. exists y. split; [congruence|done].
Qed.

Lemma joined_unique on ls rs :
  NoDup (pd.key on <$> rs) →
  joined on ls rs
  = (λ l, (l, head (filter (λ r, pd.key on r = pd.key on l) rs))) <$> ls.
Proof.
  intros Hnd. unfold joined. induction ls as [|l ls IH]; [done|].
  rewrite bind_cons, IH, fmap_cons.
  change ((?x :: ?l)) with ([x] ++ l) at 2. f_equal.
  destruct (filter_key_unique (pd.key on) rs (pd.key on l) Hnd) as [->|[m ->]]; done.
Qed.

(** No key column is a label that the live merge can produce or rename. *)
Lemma key_cols_not_live k x :
  k ∈ key_cols → x ∈ live_labels →
  k ≠ x ∧ k ≠ x +:+ "_x" ∧ k ≠ x +:+ "_y".
Proof.
  assert (H : Forall (λ k, Forall (λ x, k ≠ x ∧ k ≠ x +:+ "_x" ∧ k ≠ x +:+ "_y")
                live_labels) key_cols) by by_compute.
  intros Hk Hx. rewrite Forall_forall in H. specialize (H k Hk).
  rewrite Forall_forall in H. by apply H.
Qed.

Lemma merge_live_rows schedule latest :
  let sel := live_selection latest in
  let on := ["home_team"; "away_team"] in
  rows (merge_live schedule latest)
  = (λ p, foldr delete
            (merge_row (pd.overlap schedule sel on) ("_x", "_y") (columns schedule)
               (pd.rest on sel) p)
            (filter (λ c, c ∉ columns (pd.merge schedule sel on ("_x", "_y")))
                    ODDS_VALUE_COLUMNS))
    <$> joined on (rows schedule) (rows sel).
Proof.
  cbn zeta. unfold merge_live. rewrite (proj2 (ensure_columns_spec _ _)).
  unfold live_selection, live_labels. rewrite rows_merge.
  by rewrite <- list_fmap_compose.
Qed.

(** A key cell of a live-merged row is the key cell of its schedule row. *)
Lemma live_merge_row_key schedule latest p k :
  k ∈ key_cols → k ∈ columns schedule →
  let sel := live_selection latest in
  merge_row (pd.overlap schedule sel ["home_team"; "away_team"]) ("_x", "_y")
    (columns schedule) (pd.rest ["home_team"; "away_team"] sel) p !! k
  = p.1 !! k.
Proof.
  intros Hk Hin sel.
  set (ov := pd.overlap schedule sel ["home_team"; "away_team"]).
  assert (Hov : ∀ c, c ∈ ov → c ∈ live_labels)
    by (intros c Hc; exact (proj1 (live_overlap schedule latest c Hc))).
  assert (Hkov : k ∉ ov).
  { intros Hc%Hov. by destruct (key_cols_not_live k k Hk Hc). }
  assert (Hleft : pd.relabel (pd.suffixed ov "_x") (columns schedule) p.1 !! k = p.1 !! k).
  { assert (Hfix : pd.suffixed ov "_x" k = k)
      by (unfold pd.suffixed; by rewrite bool_decide_eq_false_2).
    rewrite <- Hfix at 1. apply relabel_lookup; [done|].
    intros c' _. rewrite Hfix. unfold pd.suffixed. case_bool_decide as Hc'; [|done].
    intros Heq. apply Hov in Hc'.
    destruct (key_cols_not_live k c' Hk Hc') as (_ & ? & _). congruence. }
  unfold merge_row; cbn [fst snd]. destruct p.2 as [lv|]; [|done].
  rewrite lookup_union, Hleft. rewrite relabel_lookup_None; [by destruct (p.1 !! k)|].
  intros (c & Heq & Hc)%list_elem_of_fmap.
  pose proof (proj1 (live_rest latest c Hc)) as Hc'.
  destruct (key_cols_not_live k c Hk Hc') as (? & _ & ?).
  unfold pd.suffixed in Heq. by case_bool_decide.
Qed.

(** ** The live frame *)

Lemma dict_empty_wf : dict_wf dict_empty.
Proof.
  intros k. unfold dict_empty; cbn. rewrite lookup_empty. split.
  - by intros ?%elem_of_nil.
  - by intros [? ?].
Qed.

Lemma dict_set_wf k v d : dict_wf d → dict_wf (dict_set k v d).
Proof.
  intros Hwf k'. unfold dict_wf in Hwf. unfold dict_set; cbn [dkeys dvals].
  rewrite lookup_insert.
  destruct (decide (k = k')) as [->|Hne].
  - split; [eauto|]. intros _.
    destruct (dvals d !! k') eqn:E.
    + apply Hwf. by rewrite E.
    + apply elem_of_app. right. by left.
  - rewrite <- Hwf.
    destruct (dvals d !! k); [done|]. rewrite elem_of_app, list_elem_of_singleton.
    split; [|tauto]. by intros [?|?].
Qed.

Lemma dict_setdefault_wf k v d : dict_wf d → dict_wf (dict_setdefault k v d).
Proof.
  intros Hwf. unfold dict_setdefault. destruct (dvals d !! k); [done|].
  by apply dict_set_wf.
Qed.

Lemma event_row_wf event preference d :
  event_row event preference = Some d → dict_wf d.
Proof.
  intros (home & away & book & _ & _ & _ & _ & _ & ->)%event_row_Some.
  unfold total_fields, spread_fields, moneyline_fields, base_row.
  repeat first
    [ apply dict_set_wf | apply dict_setdefault_wf | apply dict_empty_wf
    | match goal with |- dict_wf (match ?x with _ => _ end) => destruct x end ].
Qed.

Lemma event_row_fixed_cells event preference d :
  event_row event preference = Some d →
  dvals d !! "odds_source" = Some (Some (SStr "odds_api")) ∧
  is_Some (dvals d !! "commence_time").
Proof.
  intros (home & away & book & _ & _ & _ & _ & _ & ->)%event_row_Some.
  rewrite !total_fields_other, !spread_fields_other, !moneyline_fields_other by done.
  rewrite !base_row_lookup. split; [done|]. cbn. eauto.
Qed.

Lemma from_dicts_columns ds d k :
  d ∈ ds → k ∈ dkeys d → k ∈ columns (pd.from_dicts ds).
Proof.
  unfold pd.from_dicts; cbn [columns].
  assert (Hmono : ∀ ds acc, k ∈ acc →
            k ∈ foldl (λ acc d, acc ++ filter (λ k, k ∉ acc) (dkeys d)) acc ds).
  { intros ds'. induction ds' as [|d' ds' IH]; intros acc Hk; [done|].
    cbn [foldl]. apply IH, elem_of_app. by left. }
  generalize (@nil string).
  induction ds as [|d' ds IH]; intros acc Hd Hk; [by apply elem_of_nil in Hd|].
  cbn [foldl]. apply elem_of_cons in Hd as [->|Hd]; [|by apply IH].
  apply Hmono. destruct (decide (k ∈ acc)).
  - apply elem_of_app. by left.
  - apply elem_of_app. right. by apply list_elem_of_filter.
Qed.

(** Every live table that the pipeline builds is empty or carries the
    [commence_time] column, and its rows are tagged [odds_api]. *)
Lemma fetched_latest_shape api_key response preference :
  let latest := fetched_latest api_key response preference in
  (rows latest = [] ∨ "commence_time" ∈ columns latest) ∧
  Forall (λ r : gmap string scalar, r !! "odds_source" = Some (SStr "odds_api"))
         (rows latest).
Proof.
  cbn zeta. unfold fetched_latest.
  destruct (truthy (Some api_key)); [|split; [by left|constructor]].
  destruct response as [|data]; cbn [_fetch_latest_odds]; [split; [by left|constructor]|].
  unfold _odds_json_to_frame.
  destruct (omap (λ event, event_row event preference) data) as [|d ds] eqn:E.
  { split; [by left|constructor]. }
  rewrite <- E.
  assert (Hall : ∀ d', d' ∈ omap (λ event, event_row event preference) data →
            ∃ event, event_row event preference = Some d').
  { intros d' (event & _ & He)%list_elem_of_omap. eauto. }
  split.
  - right. destruct (Hall d) as [event He]; [rewrite E; left|].
    apply (from_dicts_columns _ d); [rewrite E; left|].
    apply (event_row_wf _ _ _ He). by apply (event_row_fixed_cells _ _ _ He).
  - apply Forall_forall. intros r (d' & -> & Hd')%list_elem_of_fmap.
    destruct (Hall d' Hd') as [event He].
    rewrite lookup_omap. by rewrite (proj1 (event_row_fixed_cells _ _ _ He)).
Qed.

(** ** The whole pipeline *)

(** The loader answers nothing when the path is not truthy. *)
Lemma loader_not_truthy fs historical_csv :
  truthy historical_csv = false →
  _prepare_historical_lines fs historical_csv key_cols = Returned None.
Proof.
  unfold _prepare_historical_lines. destruct historical_csv as [path|]; [|done].
  by intros ->.
Qed.

(** The frames behind a returned result. *)
Lemma fetch_Returned fs response schedule api_key historical_csv preference out :
  fetch_schedule_odds fs response schedule api_key historical_csv preference
    = Returned out →
  key_cols ⊆ columns schedule ∧
  out = tag_sources
          (backfill (live_merged schedule api_key response preference)
             (Some (loaded_hist fs historical_csv))).
Proof.
  unfold fetch_schedule_odds, loaded_hist, live_merged.
  destruct (filter _ _) as [|m ms] eqn:Hmiss; [|done].
  apply filter_missing_nil, required_sorted in Hmiss. intros H. split; [done|].
  destruct (truthy historical_csv) eqn:Ht.
  - destruct (_prepare_historical_lines fs historical_csv key_cols) as [[hist|]|] eqn:E;
      [| |done].
    + congruence.
    + rewrite <- backfill_None. congruence.
  - rewrite loader_not_truthy by done. rewrite <- backfill_None. congruence.
Qed.

Lemma loaded_hist_cases fs historical_csv :
  loaded_hist fs historical_csv = pd.empty_frame key_cols ∨
  _prepare_historical_lines fs historical_csv key_cols
    = Returned (Some (loaded_hist fs historical_csv)).
Proof.
  unfold loaded_hist.
  destruct (_prepare_historical_lines fs historical_csv key_cols) as [[hist|]|]; auto.
Qed.

Lemma live_merged_ready fs schedule api_key response preference historical_csv :
  key_cols ⊆ columns schedule →
  Forall (λ c, hist_label c ∉ columns schedule) ODDS_VALUE_COLUMNS →
  backfill_ready (live_merged schedule api_key response preference)
                 (loaded_hist fs historical_csv).
Proof.
  intros Hkeys Hfresh.
  assert (Hh : "home_team" ∈ columns schedule) by (apply Hkeys; by_compute).
  assert (Ha : "away_team" ∈ columns schedule) by (apply Hkeys; by_compute).
  destruct (normalised_schedule schedule Hh Ha) as [Hc0 _].
  unfold live_merged.
  destruct (loaded_hist_cases fs historical_csv) as [-> | Hl].
  - apply empty_hist_ready. by rewrite Hc0.
  - eapply merge_live_ready; [by rewrite Hc0|done].
Qed.

Lemma live_selection_keys latest :
  pd.key ["home_team"; "away_team"] <$> rows (live_selection latest)
  = pd.key ["home_team"; "away_team"] <$> rows latest.
Proof.
  unfold live_selection. rewrite rows_select, <- list_fmap_compose.
  apply list_fmap_ext. intros _ r _. cbn [compose]. unfold pd.key.
  cbn [fmap list_fmap]. rewrite !lookup_select_row.
  rewrite !decide_True; [done|..]; apply elem_of_app; left; by_compute.
Qed.

Lemma cleaned_latest_keys api_key response preference :
  NoDup (pd.key ["home_team"; "away_team"]
           <$> rows (live_selection (clean_latest (fetched_latest api_key response preference)))).
Proof.
  rewrite live_selection_keys.
  apply clean_latest_spec, fetched_latest_shape.
Qed.

(** One live-merged row per schedule row, with the schedule row's key. *)
Lemma merge_live_keys schedule latest :
  key_cols ⊆ columns schedule →
  NoDup (pd.key ["home_team"; "away_team"] <$> rows (live_selection latest)) →
  Forall2 (λ s l, ∀ k, k ∈ key_cols → l !! k = s !! k)
          (rows schedule) (rows (merge_live schedule latest)).
Proof.
  intros Hkeys Hnd. rewrite merge_live_rows. cbn zeta.
  rewrite joined_unique by done. rewrite <- list_fmap_compose.
  apply Forall2_fmap_r, Forall_Forall2_diag, Forall_forall.
  intros s _ k Hk. cbn [compose].
  rewrite lookup_drop_cells, decide_False.
  - rewrite live_merge_row_key; [done|done|]. by apply Hkeys.
  - intros [_ Ho]%list_elem_of_filter. by apply key_cols_not_odds in Hk.
Qed.

Lemma key_cols_not_odds_source : "odds_source" ∉ key_cols.
Proof. by_compute. Qed.

Lemma odds_source_not_suffixed x :
  x ∈ live_labels → "odds_source" ≠ x +:+ "_x" ∧ "odds_source" ≠ x +:+ "_y".
Proof.
  assert (H : Forall (λ x, "odds_source" ≠ x +:+ "_x" ∧ "odds_source" ≠ x +:+ "_y")
                live_labels) by by_compute.
  rewrite Forall_forall in H. apply H.
Qed.

(** The live merge tags a row [odds_api] or leaves it untagged, when the
    schedule has no [odds_source] column of its own. *)
Lemma merge_live_tags schedule latest :
  "odds_source" ∉ columns schedule →
  Forall (λ r : gmap string scalar, r !! "odds_source" = Some (SStr "odds_api"))
         (rows latest) →
  Forall (λ l : gmap string scalar,
            l !! "odds_source" = None ∨ l !! "odds_source" = Some (SStr "odds_api"))
         (rows (merge_live schedule latest)).
Proof.
  intros Hos Htags. rewrite Forall_forall in Htags.
  rewrite merge_live_rows. cbn zeta. apply Forall_forall.
  intros l (p & -> & Hp)%list_elem_of_fmap.
  rewrite lookup_drop_cells, decide_False.
  2:{ intros [_ Ho]%list_elem_of_filter. by apply odds_source_not_odds. }
  set (sel := live_selection latest) in *.
  set (ov := pd.overlap schedule sel ["home_team"; "away_team"]).
  assert (Hov : ∀ c, c ∈ ov → c ∈ live_labels ∧ c ∈ columns schedule)
    by (intros c Hc; exact (live_overlap schedule latest c Hc)).
  assert (Hrest : ∀ c, c ∈ pd.rest ["home_team"; "away_team"] sel → c ∈ live_labels)
    by (intros c Hc; exact (proj1 (live_rest latest c Hc))).
  unfold merge_row; cbn [fst snd].
  assert (Hleft : pd.relabel (pd.suffixed ov "_x") (columns schedule) p.1 !! "odds_source"
                  = None).
  { apply relabel_lookup_None. intros (c & Heq & Hc)%list_elem_of_fmap.
    unfold pd.suffixed in Heq. case_bool_decide as Hc'; [|by subst].
    apply Hov in Hc' as [Hc' _]. by destruct (odds_source_not_suffixed c Hc'). }
  apply elem_of_joined in Hp as [_ Hlv]. destruct p.2 as [lv|]; [|by left].
  destruct (Hlv lv eq_refl) as [Hin _].
  assert (Hfix : pd.suffixed ov "_y" "odds_source" = "odds_source").
  { unfold pd.suffixed. rewrite bool_decide_eq_false_2; [done|].
    intros [_ ?]%Hov. done. }
  assert (Hright :
    pd.relabel (pd.suffixed ov "_y") (pd.rest ["home_team"; "away_team"] sel) lv
      !! "odds_source" = None ∨
    pd.relabel (pd.suffixed ov "_y") (pd.rest ["home_team"; "away_team"] sel) lv
      !! "odds_source" = Some (SStr "odds_api")).
  { destruct (decide ("odds_source" ∈ pd.rest ["home_team"; "away_team"] sel)) as [Hr|Hr].
    - assert (Hlook :
        pd.relabel (pd.suffixed ov "_y") (pd.rest ["home_team"; "away_team"] sel) lv
          !! pd.suffixed ov "_y" "odds_source" = lv !! "odds_source").
      { apply relabel_lookup; [done|].
        intros c' Hc'. rewrite Hfix. unfold pd.suffixed. case_bool_decide as Hc''; [|done].
        intros Heq. apply Hrest in Hc'.
        destruct (odds_source_not_suffixed c' Hc') as [_ ?]. congruence. }
      rewrite Hfix in Hlook. rewrite Hlook.
      unfold sel, live_selection in Hin. rewrite rows_select in Hin.
      apply list_elem_of_fmap in Hin as (orig & -> & Horig).
      rewrite lookup_select_row. case_decide; [|by left].
      rewrite (Htags orig Horig). by right.
    - left. apply relabel_lookup_None.
      intros (c & Heq & Hc)%list_elem_of_fmap. unfold pd.suffixed in Heq.
      case_bool_decide; [|by subst].
      apply Hrest in Hc. by destruct (odds_source_not_suffixed c Hc). }
  rewrite lookup_union, Hleft. destruct Hright as [-> | ->]; [by left|by right].
Qed.

Lemma cleaned_latest_tags api_key response preference :
  Forall (λ r : gmap string scalar, r !! "odds_source" = Some (SStr "odds_api"))
         (rows (clean_latest (fetched_latest api_key response preference))).
Proof.
  destruct (fetched_latest_shape api_key response preference) as [Hshape Htags].
  destruct (clean_latest_spec _ Hshape) as (Hsub & _ & _).
  rewrite Forall_forall in Htags. apply Forall_forall. intros r Hr.
  apply Htags. by apply Hsub.
Qed.

(** One live-merged row per schedule row, in order, with its key cells. *)
Lemma live_merged_keys schedule api_key response preference :
  key_cols ⊆ columns schedule →
  Forall2 (λ s l,
      l !! "season" = s !! "season" ∧ l !! "week" = s !! "week" ∧
      l !! "home_team" = _normalize_team (s !! "home_team") ∧
      l !! "away_team" = _normalize_team (s !! "away_team"))
    (rows schedule) (rows (live_merged schedule api_key response preference)).
Proof.
  intros Hkeys.
  assert (Hh : "home_team" ∈ columns schedule) by (apply Hkeys; by_compute).
  assert (Ha : "away_team" ∈ columns schedule) by (apply Hkeys; by_compute).
  destruct (normalised_schedule schedule Hh Ha) as [Hc0 Hr0].
  unfold live_merged.
  set (schedule' := pd.map_column "away_team" _ _) in *.
  assert (Hlive : Forall2 (λ s l, ∀ k, k ∈ key_cols → l !! k = s !! k)
                    (rows schedule') (rows (merge_live schedule' (clean_latest
                       (fetched_latest api_key response preference))))).
  { apply merge_live_keys; [by rewrite Hc0|apply cleaned_latest_keys]. }
  rewrite Hr0 in Hlive. apply Forall2_fmap_l in Hlive.
  eapply Forall2_impl; [exact Hlive|].
  intros s l Hl. cbn [compose] in *.
  rewrite !Hl by by_compute. rewrite !lookup_set_cell. repeat split; done.
Qed.

Lemma live_merged_tags schedule api_key response preference :
  key_cols ⊆ columns schedule →
  "odds_source" ∉ columns schedule →
  Forall (λ l : gmap string scalar,
            l !! "odds_source" = None ∨ l !! "odds_source" = Some (SStr "odds_api"))
         (rows (live_merged schedule api_key response preference)).
Proof.
  intros Hkeys Hos.
  assert (Hh : "home_team" ∈ columns schedule) by (apply Hkeys; by_compute).
  assert (Ha : "away_team" ∈ columns schedule) by (apply Hkeys; by_compute).
  destruct (normalised_schedule schedule Hh Ha) as [Hc0 _].
  apply merge_live_tags; [by rewrite Hc0|apply cleaned_latest_tags].
Qed.

(** ** The claims about the whole run *)

(** C8.  In a run that returns, take the rows of the live merge paired with
    their historical partners as the historical merge pairs them.  The output
    has one row per pair, and for every odds-value column: a value present
    after the live merge is unchanged; the value differs from the live-merge
    value only when that was missing and the partner's value is present, and
    then it is the partner's value.  The schedule is assumed to carry no
    label of the form [<odds column>_hist]. *)
Theorem enrich_backfill_never_overwrites
    fs response schedule api_key historical_csv preference out :
  fetch_schedule_odds fs response schedule api_key historical_csv preference
    = Returned out →
  Forall (λ c, hist_label c ∉ columns schedule) ODDS_VALUE_COLUMNS →
  Forall2 (λ p r',
      (∀ h, p.2 = Some h →
         h ∈ rows (loaded_hist fs historical_csv) ∧
         pd.key key_cols h = pd.key key_cols p.1) ∧
      ∀ c, c ∈ ODDS_VALUE_COLUMNS →
        (is_Some (p.1 !! c) → r' !! c = p.1 !! c) ∧
        (r' !! c ≠ p.1 !! c →
           p.1 !! c = None ∧ is_Some (hist_value p.2 c) ∧ r' !! c = hist_value p.2 c))
    (joined key_cols (rows (live_merged schedule api_key response preference))
                     (rows (loaded_hist fs historical_csv)))
    (rows out).
Proof.
  intros [Hkeys ->]%fetch_Returned Hfresh.
  pose proof (live_merged_ready fs schedule api_key response preference historical_csv
                Hkeys Hfresh) as Hready.
  rewrite (proj2 (tag_sources_spec _)).
  apply Forall2_fmap_r.
  eapply Forall2_impl; [exact (backfill_never_overwrites_stage _ _ Hready)|].
  intros p r (_ & Hpartner & Hodds). split; [done|].
  intros c Hc. rewrite tag_row_lookup, decide_False; [by apply Hodds|].
  intros ->. by apply odds_source_not_odds.
Qed.

(** The sample run with a live response and a historical file: the first
    game keeps its live spread although the file has another one, and takes
    nothing from the file's total because "Under" supplied the line; the
    second game takes the file's spread. *)
Lemma enrich_backfill_never_overwrites_witness :
  ∃ out,
    fetch_schedule_odds sample_fs (HttpEvents sample_events) sample_schedule "key"
      (Some "lines.csv") (Some "pinnacle") = Returned out ∧
    (λ r, r !! "spread_line") <$> rows out
      = [Some (SNum (-7 # 2)); Some (SNum (-7 # 2)); None] ∧
    (λ r, r !! "total_line") <$> rows out = [Some (SNum (95 # 2)); None; None] ∧
    Forall2 (λ p r',
        ∀ c, c ∈ ODDS_VALUE_COLUMNS → is_Some (p.1 !! c) → r' !! c = p.1 !! c)
      (joined key_cols
         (rows (live_merged sample_schedule "key" (HttpEvents sample_events)
                  (Some "pinnacle")))
         (rows (loaded_hist sample_fs (Some "lines.csv"))))
      (rows out).
Proof.
  exists (result_frame
            (fetch_schedule_odds sample_fs (HttpEvents sample_events) sample_schedule
               "key" (Some "lines.csv") (Some "pinnacle"))).
  assert (Hout : fetch_schedule_odds sample_fs (HttpEvents sample_events) sample_schedule
                   "key" (Some "lines.csv") (Some "pinnacle")
                 = Returned (result_frame
                     (fetch_schedule_odds sample_fs (HttpEvents sample_events)
                        sample_schedule "key" (Some "lines.csv") (Some "pinnacle"))))
    by (vm_compute; reflexivity).
  split; [exact Hout|]. split; [vm_compute; reflexivity|].
  split; [vm_compute; reflexivity|].
  eapply Forall2_impl.
  - apply (enrich_backfill_never_overwrites _ _ _ _ _ _ _ Hout). by_compute.
  - intros p r' [_ Hodds] c Hc. apply (Hodds c Hc).
Defined.

(** C1 (amended).  In a run that returns, for a schedule without an
    [odds_source] column, take the rows of the live merge paired with their
    historical partners.  The output row of a pair is tagged [missing]
    exactly when its eight odds-value columns are all missing; [historical]
    exactly when the live merge left the row untagged and the historical
    partner filled at least one field; and [odds_api] exactly when some
    odds-value column is present and either the live merge tagged the row
    (it matched a live row, whether or not that row supplied a field) or the
    historical partner filled nothing. *)
Theorem enrich_odds_source
    fs response schedule api_key historical_csv preference out :
  fetch_schedule_odds fs response schedule api_key historical_csv preference
    = Returned out →
  Forall (λ c, hist_label c ∉ columns schedule) ODDS_VALUE_COLUMNS →
  "odds_source" ∉ columns schedule →
  Forall2 (λ p r',
      let all_null := ∀ c, c ∈ ODDS_VALUE_COLUMNS → r' !! c = None in
      let tagged := p.1 !! "odds_source" = Some (SStr "odds_api") in
      let filled := ∃ c, c ∈ ODDS_VALUE_COLUMNS ∧ p.1 !! c = None ∧
                         is_Some (hist_value p.2 c) in
      (r' !! "odds_source" = Some (SStr "missing") ↔ all_null) ∧
      (r' !! "odds_source" = Some (SStr "historical") ↔ ¬ tagged ∧ filled) ∧
      (r' !! "odds_source" = Some (SStr "odds_api") ↔
         ¬ all_null ∧ (tagged ∨ ¬ filled)))
    (joined key_cols (rows (live_merged schedule api_key response preference))
                     (rows (loaded_hist fs historical_csv)))
    (rows out).
Proof.
  intros [Hkeys ->]%fetch_Returned Hfresh Hos.
  apply odds_source_tagging_stage.
  - by apply live_merged_ready.
  - by apply live_merged_tags.
Qed.

(** A run in which the first game is priced by the live feed, the second is
    filled by two historical rows and the third has no odds. *)
Lemma enrich_odds_source_witness :
  ∃ out,
    fetch_schedule_odds sample_fs (HttpEvents [chiefs_event_earlier; chiefs_event]) sample_schedule "key"
      (Some "repeated.csv") (Some "pinnacle") = Returned out ∧
    (λ r, r !! "odds_source") <$> rows out
      = [Some (SStr "odds_api"); Some (SStr "historical"); Some (SStr "historical");
         Some (SStr "missing")] ∧
    Forall2 (λ p r',
        r' !! "odds_source" = Some (SStr "missing") ↔
        ∀ c, c ∈ ODDS_VALUE_COLUMNS → r' !! c = None)
      (joined key_cols
         (rows (live_merged sample_schedule "key" (HttpEvents [chiefs_event_earlier; chiefs_event])
                  (Some "pinnacle")))
         (rows (loaded_hist sample_fs (Some "repeated.csv"))))
      (rows out).
Proof.
  exists (result_frame
            (fetch_schedule_odds sample_fs (HttpEvents [chiefs_event_earlier; chiefs_event]) sample_schedule
               "key" (Some "repeated.csv") (Some "pinnacle"))).
  assert (Hout : fetch_schedule_odds sample_fs (HttpEvents [chiefs_event_earlier; chiefs_event]) sample_schedule
                   "key" (Some "repeated.csv") (Some "pinnacle")
                 = Returned (result_frame
                     (fetch_schedule_odds sample_fs (HttpEvents [chiefs_event_earlier; chiefs_event])
                        sample_schedule "key" (Some "repeated.csv") (Some "pinnacle"))))
    by (vm_compute; reflexivity).
  split; [exact Hout|]. split; [vm_compute; reflexivity|].
  eapply Forall2_impl.
  - apply (enrich_odds_source _ _ _ _ _ _ _ Hout); by_compute.
  - intros p r' [Hmissing _]. exact Hmissing.
Defined.

(** A live event whose bookmaker lists no market matches the game: the live
    merge supplies no odds-value field, the historical file fills the
    spread, and the row is tagged [odds_api]. *)
Lemma odds_api_without_live_field :
  ∃ out,
    fetch_schedule_odds sample_fs (HttpEvents [raiders_event]) raiders_schedule "key"
      (Some "lines.csv") (Some "pinnacle") = Returned out ∧
    Forall (λ l, Forall (λ c, l !! c = None) ODDS_VALUE_COLUMNS)
      (rows (live_merged raiders_schedule "key" (HttpEvents [raiders_event])
               (Some "pinnacle"))) ∧
    (λ r, r !! "spread_line") <$> rows out = [Some (SNum (-7 # 2))] ∧
    (λ r, r !! "odds_source") <$> rows out = [Some (SStr "odds_api")].
Proof.
  eexists. split; [vm_compute; reflexivity|].
  split; [by_compute|]. split; vm_compute; reflexivity.
Qed.

(** The cells of an output row under the key columns are those of the row of
    the live merge it comes from. *)
Lemma tagged_row_key p k :
  k ∈ key_cols → tag_row (backfilled_row p) !! k = p.1 !! k.
Proof.
  intros Hk. destruct p as [l h].
  rewrite tag_row_lookup, decide_False.
  2:{ intros ->. by apply key_cols_not_odds_source. }
  rewrite backfilled_row_lookup, decide_False by by apply key_cols_not_odds.
  rewrite decide_False; [done|]. intros ->. by apply key_cols_not_odds_source.
Qed.

(** C10.  In a run that returns in which the loaded historical table has at
    most one row per (season, week, home_team, away_team) key, the output has
    one row per schedule row, in the same order, and each output row carries
    the season and week of its schedule row and its normalised teams.  When
    the loaded historical table repeats a key, the output can have more rows
    than the schedule: the sample schedule of three games is returned with
    four rows. *)
Theorem enrich_rows_preserved :
  (∀ fs response schedule api_key historical_csv preference out,
     fetch_schedule_odds fs response schedule api_key historical_csv preference
       = Returned out →
     Forall (λ c, hist_label c ∉ columns schedule) ODDS_VALUE_COLUMNS →
     NoDup (pd.key key_cols <$> rows (loaded_hist fs historical_csv)) →
     Forall2 (λ s r,
         r !! "season" = s !! "season" ∧ r !! "week" = s !! "week" ∧
         r !! "home_team" = _normalize_team (s !! "home_team") ∧
         r !! "away_team" = _normalize_team (s !! "away_team"))
       (rows schedule) (rows out)) ∧
  (∃ out,
     fetch_schedule_odds sample_fs HttpFailure sample_schedule "key"
       (Some "repeated.csv") None = Returned out ∧
     ¬ NoDup (pd.key key_cols <$> rows (loaded_hist sample_fs (Some "repeated.csv"))) ∧
     length (rows sample_schedule) = 3 ∧ length (rows out) = 4).
Proof.
  split.
  - intros fs response schedule api_key historical_csv preference out
      [Hkeys ->]%fetch_Returned Hfresh Hnd.
    pose proof (live_merged_ready fs schedule api_key response preference
                  historical_csv Hkeys Hfresh) as Hready.
    rewrite (proj2 (tag_sources_spec _)), backfill_ready_rows by done.
    rewrite joined_unique by done.
    rewrite <- !list_fmap_compose. apply Forall2_fmap_r.
    eapply Forall2_impl; [exact (live_merged_keys _ api_key response preference Hkeys)|].
    intros s l (H1 & H2 & H3 & H4). unfold compose.
    rewrite !tagged_row_key by by_compute. done.
  - eexists. split; [vm_compute; reflexivity|]. split; [|split; reflexivity].
    by_compute.
Qed.

(** The sample run with a historical file of distinct keys. *)
Lemma enrich_rows_preserved_witness :
  ∃ out,
    fetch_schedule_odds sample_fs (HttpEvents sample_events) sample_schedule "key"
      (Some "lines.csv") (Some "pinnacle") = Returned out ∧
    Forall2 (λ s r,
        r !! "season" = s !! "season" ∧ r !! "week" = s !! "week" ∧
        r !! "home_team" = _normalize_team (s !! "home_team") ∧
        r !! "away_team" = _normalize_team (s !! "away_team"))
      (rows sample_schedule) (rows out).
Proof.
  exists (result_frame
            (fetch_schedule_odds sample_fs (HttpEvents sample_events) sample_schedule
               "key" (Some "lines.csv") (Some "pinnacle"))).
  assert (Hout : fetch_schedule_odds sample_fs (HttpEvents sample_events) sample_schedule
                   "key" (Some "lines.csv") (Some "pinnacle")
                 = Returned (result_frame
                     (fetch_schedule_odds sample_fs (HttpEvents sample_events)
                        sample_schedule "key" (Some "lines.csv") (Some "pinnacle"))))
    by (vm_compute; reflexivity).
  split; [exact Hout|].
  apply (proj1 enrich_rows_preserved _ _ _ _ _ _ _ Hout); by_compute.
Defined.

(** Distinct keys do not protect rows of the file: aliases of one team fall
    together when the loader normalises them. *)
Example aliases_repeat_keys :
  NoDup (pd.key key_cols <$> rows aliased_lines_table) ∧
  ¬ NoDup (pd.key key_cols <$> rows (loaded_hist sample_fs (Some "aliased.csv"))) ∧
  ∃ out,
    fetch_schedule_odds sample_fs HttpFailure raiders_schedule "" (Some "aliased.csv") None
      = Returned out ∧
    length (rows out) = 2.
Proof.
  split; [by_compute|]. split; [by_compute|].
  eexists. split; [vm_compute; reflexivity|reflexivity].
Qed.

(** * Further properties of the code *)

(** ** The lookup tables and the normaliser *)

Lemma alias_values_canonical :
  map_Forall (λ _ abbr, abbr ∈ (map_img ODDS_TEAM_NAME_TO_ABBR : gset string))
    TEAM_ABBR_FIXES.
Proof. by_compute. Qed.

Lemma full_names_distinct_abbr :
  map_Forall (λ n1 a1,
      map_Forall (λ n2 a2, a1 = a2 → n1 = n2) ODDS_TEAM_NAME_TO_ABBR)
    ODDS_TEAM_NAME_TO_ABBR.
Proof. by_compute. Qed.

(** X1.  The answer of [_normalize_team] for a string is the string itself
    or the abbreviation of one of the teams of the first table,
    and no two full names of that table share an abbreviation. *)
Theorem normalize_team_range :
  (∀ s, _normalize_team (Some (SStr s)) = Some (SStr s) ∨
        ∃ name abbr, ODDS_TEAM_NAME_TO_ABBR !! name = Some abbr ∧
                     _normalize_team (Some (SStr s)) = Some (SStr abbr)) ∧
  (∀ n1 n2, is_Some (ODDS_TEAM_NAME_TO_ABBR !! n1) →
     _normalize_team (Some (SStr n1)) = _normalize_team (Some (SStr n2)) →
     is_Some (ODDS_TEAM_NAME_TO_ABBR !! n2) → n1 = n2).
Proof.
  destruct normalize_team_cases_aux as (_ & Hfull & Halias & Hother & _).
  split.
  - intros s. destruct (ODDS_TEAM_NAME_TO_ABBR !! s) as [a|] eqn:H1.
    { right. exists s, a. split; [done|]. by apply Hfull. }
    destruct (TEAM_ABBR_FIXES !! upper s) as [a|] eqn:H2.
    + right. pose proof (alias_values_canonical _ _ H2) as Hin. cbv beta in Hin.
      apply elem_of_map_img in Hin as [name Hname].
      exists name, a. split; [done|]. by apply Halias.
    + left. by apply Hother.
  - intros n1 n2 [a1 H1] Heq [a2 H2].
    rewrite (Hfull _ _ H1), (Hfull _ _ H2) in Heq. injection Heq as ->.
    exact (full_names_distinct_abbr _ _ H1 _ _ H2 eq_refl).
Qed.

Lemma full_names_not_aliases :
  map_Forall (λ name _, TEAM_ABBR_FIXES !! upper name = None) ODDS_TEAM_NAME_TO_ABBR.
Proof. by_compute. Qed.

Lemma full_names_distinct_upper :
  map_Forall (λ n1 _,
      map_Forall (λ n2 _, upper n1 = upper n2 → n1 = n2) ODDS_TEAM_NAME_TO_ABBR)
    ODDS_TEAM_NAME_TO_ABBR.
Proof. by_compute. Qed.

(** X2.  Abbreviations are recognised in any letter case: a string whose
    upper-casing is a key of the alias table normalises to that key's
    abbreviation.  Full names are recognised in their exact spelling only:
    any other string that upper-cases like a full name comes back
    unchanged. *)
Theorem normalize_team_letter_case :
  (∀ s abbr, TEAM_ABBR_FIXES !! upper s = Some abbr →
     _normalize_team (Some (SStr s)) = Some (SStr abbr)) ∧
  (∀ name s, is_Some (ODDS_TEAM_NAME_TO_ABBR !! name) →
     upper s = upper name → s ≠ name →
     _normalize_team (Some (SStr s)) = Some (SStr s)).
Proof.
  destruct normalize_team_cases_aux as (_ & Hfull & Halias & Hother & _).
  split.
  - intros s abbr Hs. apply Halias; [|done].
    destruct (ODDS_TEAM_NAME_TO_ABBR !! s) as [a|] eqn:H1; [|done].
    pose proof (full_names_not_aliases _ _ H1) as Hno. cbv beta in Hno. congruence.
  - intros name s [a Hname] Hup Hne.
    assert (Hs : ODDS_TEAM_NAME_TO_ABBR !! s = None).
    { destruct (ODDS_TEAM_NAME_TO_ABBR !! s) as [a'|] eqn:H1; [|done].
      destruct Hne. exact (full_names_distinct_upper _ _ H1 _ _ Hname Hup). }
    apply Hother; [done|]. rewrite Hup. exact (full_names_not_aliases _ _ Hname).
Qed.

(** An alias in mixed case, and a full name in lower case. *)
Lemma normalize_team_letter_case_witness :
  _normalize_team (Some (SStr "Gnb")) = Some (SStr "GB") ∧
  _normalize_team (Some (SStr "green bay packers")) = Some (SStr "green bay packers").
Proof.
  destruct normalize_team_letter_case as [Halias Hfull]. split.
  - apply Halias. reflexivity.
  - apply (Hfull "Green Bay Packers"); [by eexists|reflexivity|by_compute].
Defined.

(** ** Choosing a bookmaker, a market and an outcome *)

Lemma find_first {A} (f : A → bool) (l : list A) (x : A) :
  find f l = Some x →
  f x = true ∧ ∃ pre post, l = pre ++ x :: post ∧ Forall (λ y, f y = false) pre.
Proof.
  induction l as [|y l IH]; [done|]. simpl. destruct (f y) eqn:Hy.
  - intros [= ->]. split; [done|]. by exists [], l.
  - intros H. destruct (IH H) as (Hx & pre & post & -> & Hpre).
    split; [done|]. exists (y :: pre), post. split; [done|]. by constructor.
Qed.

Lemma find_nothing {A} (f : A → bool) (l : list A) :
  find f l = None ↔ Forall (λ y, f y = false) l.
Proof.
  induction l as [|y l IH]; simpl.
  - split; [constructor|done].
  - rewrite Forall_cons. destruct (f y) eqn:Hy.
    + split; [done|]. by intros [? _].
    + rewrite IH. tauto.
Qed.

Lemma lower_empty s : lower s = "" ↔ s = "".
Proof. by destruct s. Qed.

Lemma select_bookmaker_None bookmakers preference :
  _select_bookmaker bookmakers preference = None ↔ bookmakers = [].
Proof.
  destruct bookmakers as [|first rest]; [done|]. split; [|done].
  unfold _select_bookmaker. destruct preference as [pref|]; [|done].
  destruct (truthy (Some pref)); [|done]. by destruct (find _ _).
Qed.

(** X3.  [_select_bookmaker] answers [None] exactly for the empty list, and
    otherwise a bookmaker of the list.  Without a preference (none, or the
    empty string) it is the first bookmaker.  With one, it is the first
    bookmaker whose key equals the preference up to letter case, and the
    first bookmaker of the list when no key does; so two preferences that
    differ in letter case only choose the same bookmaker. *)
Theorem select_bookmaker_spec bookmakers preference :
  let matches pref book :=
    lower (default "" (bk_key book)) = lower pref in
  (_select_bookmaker bookmakers preference = None ↔ bookmakers = []) ∧
  (∀ book, _select_bookmaker bookmakers preference = Some book → book ∈ bookmakers) ∧
  (truthy preference = false →
     _select_bookmaker bookmakers preference = head bookmakers) ∧
  (∀ pref book, preference = Some pref → pref ≠ "" →
     _select_bookmaker bookmakers preference = Some book →
     (matches pref book ∧
      ∃ pre post, bookmakers = pre ++ book :: post ∧
                  Forall (λ b, ¬ matches pref b) pre) ∨
     (Forall (λ b, ¬ matches pref b) bookmakers ∧ head bookmakers = Some book)) ∧
  (∀ p q, lower p = lower q →
     _select_bookmaker bookmakers (Some p) = _select_bookmaker bookmakers (Some q)).
Proof.
  cbn zeta. split; [|split; [|split; [|split]]].
  - apply select_bookmaker_None.
  - intros book. destruct bookmakers as [|first rest]; [done|].
    unfold _select_bookmaker. destruct preference as [pref|].
    2:{ intros [= <-]. by left. }
    destruct (truthy (Some pref)).
    2:{ intros [= <-]. by left. }
    destruct (find _ _) as [b|] eqn:Hfind.
    + intros [= <-]. apply find_some in Hfind as [Hin _]. by apply list_elem_of_In.
    + intros [= <-]. by left.
  - intros Ht. destruct bookmakers as [|first rest]; [done|].
    unfold _select_bookmaker. destruct preference as [pref|]; [|done]. by rewrite Ht.
  - intros pref book -> Hne. destruct bookmakers as [|first rest]; [done|].
    unfold _select_bookmaker, truthy.
    destruct (String.eqb_spec pref ""); [done|]. cbn [negb].
    destruct (find _ _) as [b|] eqn:Hfind.
    + intros [= <-]. left. apply find_first in Hfind as (Hb & pre & post & Hl & Hpre).
      apply String.eqb_eq in Hb. split; [done|]. exists pre, post. split; [done|].
      eapply Forall_impl; [exact Hpre|]. intros b' Hb'. cbv beta in Hb'.
      by apply String.eqb_neq.
    + intros [= <-]. right. split; [|done]. apply find_nothing in Hfind.
      eapply Forall_impl; [exact Hfind|]. intros b' Hb'. cbv beta in Hb'.
      by apply String.eqb_neq.
  - intros p q Hpq. destruct bookmakers as [|first rest]; [done|].
    unfold _select_bookmaker, truthy. rewrite Hpq.
    assert (Heq : String.eqb p "" = String.eqb q "").
    { apply eq_true_iff_eq. rewrite !String.eqb_eq.
      rewrite <- (lower_empty p), <- (lower_empty q). by rewrite Hpq. }
    by rewrite Heq.
Qed.

(** X4.  [_find_market] and [_find_outcome] answer the first market with the
    given key and the first outcome with the given name; entries after it
    are ignored, and the answer is [None] exactly when no entry carries the
    key or name. *)
Theorem find_market_and_outcome_first_match :
  (∀ bookmaker market_key m,
     _find_market bookmaker market_key = Some m →
     mk_key m = Some market_key ∧
     ∃ pre post, bk_markets bookmaker = pre ++ m :: post ∧
                 Forall (λ m', mk_key m' ≠ Some market_key) pre) ∧
  (∀ bookmaker market_key,
     _find_market bookmaker market_key = None ↔
     Forall (λ m', mk_key m' ≠ Some market_key) (bk_markets bookmaker)) ∧
  (∀ market target o,
     _find_outcome market target = Some o →
     oc_name o = Some target ∧
     ∃ pre post, mk_outcomes market = pre ++ o :: post ∧
                 Forall (λ o', oc_name o' ≠ Some target) pre) ∧
  (∀ market target,
     _find_outcome market target = None ↔
     Forall (λ o', oc_name o' ≠ Some target) (mk_outcomes market)).
Proof.
  split; [|split; [|split]].
  - intros b k m (Hm & pre & post & Hl & Hpre)%find_first.
    apply bool_decide_eq_true in Hm. split; [done|]. exists pre, post. split; [done|].
    eapply Forall_impl; [exact Hpre|]. intros m' Hm'. by apply bool_decide_eq_false in Hm'.
  - intros b k. unfold _find_market. rewrite find_nothing.
    apply Forall_iff. intros m'. by rewrite bool_decide_eq_false.
  - intros m t o (Ho & pre & post & Hl & Hpre)%find_first.
    apply bool_decide_eq_true in Ho. split; [done|]. exists pre, post. split; [done|].
    eapply Forall_impl; [exact Hpre|]. intros o' Ho'. by apply bool_decide_eq_false in Ho'.
  - intros m t. unfold _find_outcome. rewrite find_nothing.
    apply Forall_iff. intros o'. by rewrite bool_decide_eq_false.
Qed.

(** ** The market extractor, event by event *)

Lemma select_bookmaker_elem bookmakers preference book :
  _select_bookmaker bookmakers preference = Some book → book ∈ bookmakers.
Proof.
  destruct bookmakers as [|first rest]; [done|].
  unfold _select_bookmaker. destruct preference as [pref|].
  2:{ intros [= <-]. by left. }
  destruct (truthy (Some pref)).
  2:{ intros [= <-]. by left. }
  destruct (find _ _) as [b|] eqn:Hfind.
  - intros [= <-]. apply find_some in Hfind as [Hin _]. by apply list_elem_of_In.
  - intros [= <-]. by left.
Qed.

Lemma event_row_None event preference :
  event_row event preference = None ↔ event_kept event preference = false.
Proof.
  unfold event_row, event_kept, event_usable, away_of.
  destruct (truthy (ev_home_team event)) eqn:Hh; cbn [negb orb andb]; [|done].
  destruct (truthy (find _ (ev_teams event))) eqn:Ha; cbn [negb andb]; [|done].
  destruct (ev_home_team event) as [home|]; [|done].
  destruct (find _ (ev_teams event)) as [away|]; [|done].
  pose proof (select_bookmaker_None (ev_bookmakers event) preference) as Hsel.
  destruct (_select_bookmaker _ _) as [book|].
  - rewrite bool_decide_eq_true_2.
    2:{ intros Hnil. by apply Hsel in Hnil. }
    cbn [andb]. by destruct (bookmaker_truthy book).
  - split; [|done]. intros _. apply andb_false_r.
Qed.

(** An event that lacks a team or a bookmaker gives no row. *)
Lemma event_unusable_no_row event preference :
  event_usable event = false → event_row event preference = None.
Proof.
  intros H. apply event_row_None. unfold event_kept. by rewrite H.
Qed.

Lemma Forall2_filter_omap {A B} (f : A → option B) (P : A → Prop)
    `{∀ x, Decision (P x)} (l : list A) :
  (∀ x, P x ↔ is_Some (f x)) →
  Forall2 (λ x y, f x = Some y) (filter P l) (omap f l).
Proof.
  intros HP. induction l as [|x l IH]; [constructor|].
  rewrite filter_cons. cbn [omap list_omap]. destruct (f x) as [y|] eqn:Hx.
  - rewrite decide_True by (apply HP; by rewrite Hx). by constructor.
  - rewrite decide_False; [done|]. intros [? ?]%HP. congruence.
Qed.

Lemma odds_frame_rows events preference :
  rows (_odds_json_to_frame events preference)
  = (λ d, omap id (dvals d)) <$> omap (λ event, event_row event preference) events.
Proof.
  unfold _odds_json_to_frame.
  by destruct (omap (λ event, event_row event preference) events).
Qed.

(** The cells that identify the game, in the row dict of an event. *)
Lemma event_row_base_cells event preference d :
  event_row event preference = Some d →
  dvals d !! "home_team" = Some (_normalize_team (SStr <$> ev_home_team event)) ∧
  dvals d !! "away_team" = Some (_normalize_team (SStr <$> away_of event)) ∧
  dvals d !! "commence_time" = Some (SStr <$> ev_commence_time event) ∧
  dvals d !! "odds_source" = Some (Some (SStr "odds_api")).
Proof.
  intros (home & away & book & Hh & _ & _ & Ha & _ & ->)%event_row_Some.
  unfold away_of. rewrite Hh, Ha.
  rewrite !total_fields_other, !spread_fields_other, !moneyline_fields_other by done.
  rewrite !base_row_lookup. done.
Qed.

(** X5.  The extractor skips exactly the events that lack a home team, a
    team other than the home team, or a bookmaker, and those whose selected
    bookmaker is the empty object; when no listed bookmaker is the empty
    object the first three are the only ones.  It emits one row for each
    other event, in the order of the events.  The row carries the
    normalised home and away teams, the event's [commence_time] and the tag
    [odds_api]. *)
Theorem extractor_rows events preference :
  (∀ event, event_row event preference = None ↔ event_kept event preference = false) ∧
  (∀ event, event_usable event = false → event_kept event preference = false) ∧
  (∀ event, Forall (λ book, bookmaker_truthy book = true) (ev_bookmakers event) →
     event_kept event preference = event_usable event) ∧
  Forall2 (λ event r,
      r !! "home_team" = _normalize_team (SStr <$> ev_home_team event) ∧
      r !! "away_team" = _normalize_team (SStr <$> away_of event) ∧
      r !! "commence_time" = SStr <$> ev_commence_time event ∧
      r !! "odds_source" = Some (SStr "odds_api"))
    (filter (λ event, event_kept event preference = true) events)
    (rows (_odds_json_to_frame events preference)).
Proof.
  split; [intros event; apply event_row_None|]. split; [|split].
  - intros event H. unfold event_kept. by rewrite H.
  - intros event Hall. unfold event_kept.
    destruct (event_usable event) eqn:Hu; [|done]. cbn [andb].
    destruct (_select_bookmaker _ _) as [book|] eqn:Hsel.
    + rewrite Forall_forall in Hall. apply Hall.
      by apply (select_bookmaker_elem _ preference).
    + apply select_bookmaker_None in Hsel. unfold event_usable in Hu.
      rewrite Hsel in Hu. by rewrite andb_false_r in Hu.
  - rewrite odds_frame_rows. apply Forall2_fmap_r.
    eapply Forall2_impl.
    + apply Forall2_filter_omap. intros event.
      rewrite <- not_eq_None_Some, event_row_None.
      by destruct (event_kept event preference).
    + intros event d Hd. unfold compose. cbv beta in Hd |- *.
      destruct (event_row_base_cells _ _ _ Hd) as (H1 & H2 & H3 & H4).
      rewrite !lookup_omap, H1, H2, H3, H4. done.
Qed.

(** An event that lists the empty object as its only bookmaker names both
    teams and lists a bookmaker, and is skipped. *)
Example empty_bookmaker_is_skipped :
  event_usable chiefs_event_empty_book = true ∧
  event_row chiefs_event_empty_book (Some "pinnacle") = None ∧
  rows (_odds_json_to_frame [chiefs_event_empty_book] (Some "pinnacle")) = [].
Proof. repeat split; reflexivity. Qed.

(** A key that is not bound in a row dict is not among its keys. *)
Lemma dict_wf_absent d k : dict_wf d → dvals d !! k = None → k ∉ dkeys d.
Proof. intros Hwf Hk Hin. apply Hwf in Hin as [? ?]. congruence. Qed.

(** X6.  In the row dict of an event, the moneyline block writes both
    [home_moneyline] and [away_moneyline] when the chosen bookmaker has an
    [h2h] market: each is the price of the team's outcome, or [None] when
    the market has no outcome for the team.  A market that the bookmaker
    lacks writes no key at all: the keys of the moneyline, spread or total
    block are then absent from the dict.  Unlike the moneyline block, the
    spread and total blocks write nothing either when the market is there
    and has neither of the two outcomes. *)
Theorem extractor_market_blocks event preference row home away book :
  event_row event preference = Some row →
  ev_home_team event = Some home →
  away_of event = Some away →
  _select_bookmaker (ev_bookmakers event) preference = Some book →
  (∀ h2h, _find_market book "h2h" = Some h2h →
     dvals row !! "home_moneyline" = Some (_find_outcome h2h home ≫= oc_price) ∧
     dvals row !! "away_moneyline" = Some (_find_outcome h2h away ≫= oc_price)) ∧
  (_find_market book "h2h" = None →
     Forall (λ k, k ∉ dkeys row) ["home_moneyline"; "away_moneyline"]) ∧
  (_find_market book "spreads" = None →
     Forall (λ k, k ∉ dkeys row) ["spread_line"; "home_spread_odds"; "away_spread_odds"]) ∧
  (_find_market book "totals" = None →
     Forall (λ k, k ∉ dkeys row) ["total_line"; "over_odds"; "under_odds"]) ∧
  (∀ spreads, _find_market book "spreads" = Some spreads →
     _find_outcome spreads home = None → _find_outcome spreads away = None →
     Forall (λ k, k ∉ dkeys row) ["spread_line"; "home_spread_odds"; "away_spread_odds"]) ∧
  (∀ totals, _find_market book "totals" = Some totals →
     _find_outcome totals "Over" = None → _find_outcome totals "Under" = None →
     Forall (λ k, k ∉ dkeys row) ["total_line"; "over_odds"; "under_odds"]).
Proof.
  intros Hrow Hhome Haway Hbook.
  pose proof (event_row_wf _ _ _ Hrow) as Hwf.
  apply event_row_Some in Hrow as (home' & away' & book' & Hh & _ & _ & Ha & Hb & ->).
  unfold away_of in Haway. rewrite Hhome in Hh, Haway. injection Hh as <-.
  rewrite Haway in Ha. injection Ha as <-.
  rewrite Hbook in Hb. injection Hb as <-.
  split; [|split; [|split; [|split; [|split]]]].
  - intros h2h Hm.
    rewrite !total_fields_other, !spread_fields_other by done.
    unfold moneyline_fields. rewrite Hm. by dict_lookup.
  - intros Hm. repeat apply Forall_cons_2; [..|constructor];
      apply dict_wf_absent; try done;
      rewrite total_fields_other, spread_fields_other by done;
      unfold moneyline_fields; rewrite Hm; by rewrite base_row_lookup.
  - intros Hm. repeat apply Forall_cons_2; [..|constructor];
      apply dict_wf_absent; try done;
      rewrite total_fields_other by done;
      unfold spread_fields; rewrite Hm;
      rewrite moneyline_fields_other by done; by rewrite base_row_lookup.
  - intros Hm. repeat apply Forall_cons_2; [..|constructor];
      apply dict_wf_absent; try done;
      unfold total_fields; rewrite Hm;
      rewrite spread_fields_other, moneyline_fields_other by done;
      by rewrite base_row_lookup.
  - intros spreads Hm Hh Ha. repeat apply Forall_cons_2; [..|constructor];
      apply dict_wf_absent; try done;
      rewrite total_fields_other by done;
      unfold spread_fields; rewrite Hm, Hh, Ha;
      rewrite moneyline_fields_other by done; by rewrite base_row_lookup.
  - intros totals Hm Ho Hu. repeat apply Forall_cons_2; [..|constructor];
      apply dict_wf_absent; try done;
      unfold total_fields; rewrite Hm, Ho, Hu;
      rewrite spread_fields_other, moneyline_fields_other by done;
      by rewrite base_row_lookup.
Qed.

(** The Kansas City event of the sample data lists both moneylines. *)
Lemma extractor_market_blocks_witness :
  dvals chiefs_row !! "home_moneyline" = Some (Some (SNum (-150))) ∧
  dvals chiefs_row !! "away_moneyline" = Some (Some (SNum 130)).
Proof.
  assert (Hrow : event_row chiefs_event (Some "pinnacle") = Some chiefs_row)
    by (vm_compute; reflexivity).
  destruct (extractor_market_blocks chiefs_event (Some "pinnacle") chiefs_row
              "Kansas City Chiefs" "Denver Broncos"
              (default {| bk_key := None; bk_markets := []; bk_other := false |}
                 (head (ev_bookmakers chiefs_event)))
              Hrow eq_refl eq_refl eq_refl) as [Hml _].
  exact (Hml _ eq_refl).
Defined.

(** ** The columns of the live table *)

Lemma dkeys_set_new k v d :
  dvals d !! k = None → dkeys (dict_set k v d) = dkeys d ++ [k].
Proof. intros H. unfold dict_set; cbn [dkeys]. by rewrite H. Qed.

Lemma dkeys_base_row event home away :
  dkeys (base_row event home away) = base_labels.
Proof.
  unfold base_row.
  rewrite dkeys_set_new by by dict_lookup.
  rewrite dkeys_set_new by by dict_lookup.
  rewrite dkeys_set_new by by dict_lookup.
  rewrite dkeys_set_new by by dict_lookup.
  done.
Qed.

Lemma dict_set_keys_ok k v d :
  k ∈ extractor_labels → row_keys_ok d →
  row_keys_ok (dict_set k v d) ∧ ∃ more, dkeys (dict_set k v d) = dkeys d ++ more.
Proof.
  intros Hk (Hwf & Hnd & Hsub). split; [split; [by apply dict_set_wf|]|].
  - unfold dict_set; cbn [dkeys]. destruct (dvals d !! k) eqn:E; [done|]. split.
    + apply NoDup_app. split; [done|]. split; [|apply NoDup_singleton].
      intros x Hx ->%list_elem_of_singleton. apply Hwf in Hx as [? ?]. congruence.
    + intros x [Hx| ->%list_elem_of_singleton]%elem_of_app; [by apply Hsub|done].
  - unfold dict_set; cbn [dkeys]. destruct (dvals d !! k).
    + exists []. by rewrite app_nil_r.
    + by exists [k].
Qed.

Lemma dict_setdefault_keys_ok k v d :
  k ∈ extractor_labels → row_keys_ok d →
  row_keys_ok (dict_setdefault k v d) ∧
  ∃ more, dkeys (dict_setdefault k v d) = dkeys d ++ more.
Proof.
  intros Hk Hok. unfold dict_setdefault. destruct (dvals d !! k).
  - split; [done|]. exists []. by rewrite app_nil_r.
  - by apply dict_set_keys_ok.
Qed.

(** The keys of the row dict of an event. *)
Lemma event_row_keys event preference d :
  event_row event preference = Some d →
  row_keys_ok d ∧ ∃ more, dkeys d = base_labels ++ more.
Proof.
  intros (home & away & book & _ & _ & _ & _ & _ & ->)%event_row_Some.
  assert (Hbase : row_keys_ok (base_row event home away) ∧
                  ∃ more, dkeys (base_row event home away) = base_labels ++ more).
  { split; [split; [|split]|].
    - unfold base_row. repeat apply dict_set_wf. apply dict_empty_wf.
    - rewrite dkeys_base_row. by_compute.
    - rewrite dkeys_base_row. intros x Hx. apply elem_of_app. by left.
    - exists []. by rewrite dkeys_base_row, app_nil_r. }
  assert (Hstep : ∀ k v d,
            k ∈ extractor_labels →
            (row_keys_ok d ∧ ∃ more, dkeys d = base_labels ++ more) →
            row_keys_ok (dict_set k v d) ∧
            ∃ more, dkeys (dict_set k v d) = base_labels ++ more).
  { intros k v d Hk [Hok [more Hd]].
    destruct (dict_set_keys_ok k v d Hk Hok) as [Hok' [more' Hd']].
    split; [done|]. exists (more ++ more'). by rewrite Hd', Hd, app_assoc. }
  assert (Hstep' : ∀ k v d,
            k ∈ extractor_labels →
            (row_keys_ok d ∧ ∃ more, dkeys d = base_labels ++ more) →
            row_keys_ok (dict_setdefault k v d) ∧
            ∃ more, dkeys (dict_setdefault k v d) = base_labels ++ more).
  { intros k v d Hk [Hok [more Hd]].
    destruct (dict_setdefault_keys_ok k v d Hk Hok) as [Hok' [more' Hd']].
    split; [done|]. exists (more ++ more'). by rewrite Hd', Hd, app_assoc. }
  unfold total_fields, spread_fields, moneyline_fields.
  repeat first
    [ exact Hbase
    | apply Hstep; [by_compute|]
    | apply Hstep'; [by_compute|]
    | match goal with
      | |- context [match ?x with _ => _ end] => destruct x
      end ].
Qed.

(** The column list that [pd.DataFrame(rows)] builds from the dicts. *)
Lemma from_dicts_fold (ds : list pydict) (L acc : list string) :
  Forall (λ d, NoDup (dkeys d) ∧ dkeys d ⊆ L) ds →
  NoDup acc → acc ⊆ L →
  let cols := foldl (λ acc d, acc ++ filter (λ k, k ∉ acc) (dkeys d)) acc ds in
  NoDup cols ∧ cols ⊆ L ∧ ∃ more, cols = acc ++ more.
Proof.
  cbn zeta. revert acc. induction ds as [|d ds IH]; intros acc Hds Hnd Hsub.
  { split; [done|]. split; [done|]. exists []. by rewrite app_nil_r. }
  apply Forall_cons in Hds as [[Hd1 Hd2] Hds]. cbn [foldl].
  destruct (IH (acc ++ filter (λ k, k ∉ acc) (dkeys d)) Hds) as (H1 & H2 & more & H3).
  - apply NoDup_app. split; [done|]. split.
    + intros x Hx [Hn _]%list_elem_of_filter. done.
    + by apply NoDup_filter.
  - intros x [Hx|[_ Hx]%list_elem_of_filter]%elem_of_app; auto.
  - split; [done|]. split; [done|]. rewrite H3, <- app_assoc. eauto.
Qed.

(** The rows of the live table have cells under its labels only. *)
Lemma odds_frame_wf events preference :
  frame_wf (_odds_json_to_frame events preference).
Proof.
  unfold _odds_json_to_frame.
  assert (Hall : ∀ d, d ∈ omap (λ event, event_row event preference) events →
            ∃ event, event_row event preference = Some d).
  { intros d (event & _ & He)%list_elem_of_omap. eauto. }
  destruct (omap (λ event, event_row event preference) events) as [|d ds] eqn:E.
  { constructor. }
  apply frame_wf_intro. intros r k (d' & -> & Hd')%list_elem_of_fmap Hk.
  rewrite lookup_omap. destruct (dvals d' !! k) as [v|] eqn:Hv; [|done].
  destruct Hk. apply (from_dicts_columns _ d'); [done|].
  destruct (Hall d' Hd') as [event He]. apply (event_row_wf _ _ _ He). by rewrite Hv.
Qed.

(** X7.  The live table that the extractor builds has distinct column
    labels, all among the four base labels and the eight odds-value columns,
    and every row has cells under these labels only.  Without rows its
    columns are [home_team] and [away_team]; with rows they start with
    [home_team], [away_team], [commence_time] and [odds_source]. *)
Theorem extractor_columns events preference :
  let latest := _odds_json_to_frame events preference in
  NoDup (columns latest) ∧
  columns latest ⊆ extractor_labels ∧
  frame_wf latest ∧
  (rows latest = [] → columns latest = ["home_team"; "away_team"]) ∧
  (rows latest ≠ [] → ∃ more, columns latest = base_labels ++ more).
Proof.
  cbn zeta.
  pose proof (odds_frame_rows events preference) as Hrows.
  pose proof (odds_frame_wf events preference) as Hwf.
  unfold _odds_json_to_frame in *.
  assert (Hall : ∀ d, d ∈ omap (λ event, event_row event preference) events →
            ∃ event, event_row event preference = Some d).
  { intros d (event & _ & He)%list_elem_of_omap. eauto. }
  destruct (omap (λ event, event_row event preference) events) as [|d ds] eqn:E.
  { cbn [columns rows pd.empty_frame]. split; [by_compute|]. split; [|split; [|done]].
    - intros x Hx. apply elem_of_app. left. revert Hx. unfold base_labels.
      rewrite !elem_of_cons. tauto.
    - done. }
  assert (Hok : Forall (λ d, NoDup (dkeys d) ∧ dkeys d ⊆ extractor_labels) (d :: ds)).
  { apply Forall_forall. intros d' Hd'. destruct (Hall d' Hd') as [event He].
    by destruct (event_row_keys _ _ _ He) as [(_ & ? & ?) _]. }
  destruct (from_dicts_fold (d :: ds) extractor_labels [] Hok) as (Hnd & Hsub & _);
    [constructor|by intros x ?%elem_of_nil|].
  split; [done|]. split; [done|]. split; [|split].
  - done.
  - by rewrite Hrows.
  - intros _. destruct (Hall d) as [event He]; [by left|].
    destruct (event_row_keys _ _ _ He) as [(_ & Hd1 & Hd2) [more Hd]].
    apply Forall_cons in Hok as [_ Hok].
    destruct (from_dicts_fold ds extractor_labels (dkeys d) Hok Hd1 Hd2)
      as (_ & _ & more' & Hcols).
    exists (more ++ more'). unfold pd.from_dicts; cbn [columns foldl].
    assert (Hf : [] ++ filter (λ k : string, k ∉ @nil string) (dkeys d) = dkeys d).
    { cbn [app]. clear. induction (dkeys d) as [|x l IH]; [done|].
      rewrite filter_cons, decide_True by apply not_elem_of_nil. by rewrite IH. }
    rewrite Hf, Hcols, Hd, app_assoc. done.
Qed.

(** ** The loader on its own output *)

Lemma normalize_team_fixed x : _normalize_team (_normalize_team x) = _normalize_team x.
Proof.
  destruct normalize_team_cases_aux as (_ & Hfull & Halias & Hother & _).
  destruct x as [[s|q]|]; [|reflexivity..].
  destruct (ODDS_TEAM_NAME_TO_ABBR !! s) as [a|] eqn:H1.
  { rewrite (Hfull _ _ H1). exact (full_name_values_fixed _ _ H1). }
  destruct (TEAM_ABBR_FIXES !! upper s) as [a|] eqn:H2.
  { rewrite (Halias _ _ H1 H2). exact (alias_values_fixed _ _ H2). }
  rewrite (Hother _ H1 H2). exact (Hother _ H1 H2).
Qed.

Lemma canonical_label_fixed c :
  c ∈ key_cols ++ ODDS_VALUE_COLUMNS → canonical_label c = c.
Proof.
  revert c. apply Forall_forall. by_compute.
Qed.

Lemma set_cell_same c (r : gmap string scalar) : pd.set_cell c (r !! c) r = r.
Proof.
  apply map_eq. intros k. rewrite lookup_set_cell. by case_decide; subst.
Qed.

Lemma filter_ext_in {A} (P Q : A → Prop) `{∀ x, Decision (P x)} `{∀ x, Decision (Q x)}
    (l : list A) :
  (∀ x, x ∈ l → P x ↔ Q x) → filter P l = filter Q l.
Proof.
  induction l as [|x l IH]; intros Hext; [done|].
  rewrite !filter_cons. rewrite IH by (intros y Hy; apply Hext; by right).
  destruct (decide (P x)) as [HP|HP].
  - rewrite decide_True; [done|]. apply Hext; [by left|done].
  - rewrite decide_False; [done|]. intros HQ. apply HP, Hext; [by left|done].
Qed.

(** The loader with a readable file, step by step. *)
Lemma loader_Csv fs path table :
  path ≠ "" → fs path = Csv table →
  _prepare_historical_lines fs (Some path) key_cols =
  if decide (key_cols ⊆ columns table) then
    let renamed := {| columns := canonical_label <$> columns table;
                      rows := pd.relabel canonical_label (columns table) <$> rows table |} in
    let normalised := pd.map_column "away_team" _normalize_team
                        (pd.map_column "home_team" _normalize_team renamed) in
    Returned (Some (pd.select
       (key_cols ++ filter (λ c, c ∈ canonical_label <$> columns table) ODDS_VALUE_COLUMNS)
       normalised))
  else Returned None.
Proof.
  intros Hne Hfs.
  unfold _prepare_historical_lines, path_exists, read_csv, truthy.
  rewrite Hfs. destruct (String.eqb_spec path ""); [done|].
  cbn [negb orb]. rewrite rename_historical. cbn [columns]. cbn zeta.
  assert (Hkeys : key_cols ⊆ canonical_label <$> columns table ↔ key_cols ⊆ columns table).
  { split; intros Hsub k Hk.
    - apply Hsub in Hk as Hin. apply list_elem_of_fmap in Hin as (c & Heq & Hc).
      symmetry in Heq. by apply canonical_label_key in Heq as ->.
    - apply list_elem_of_fmap. exists k. split; [|by apply Hsub].
      symmetry. by apply canonical_label_key. }
  destruct (filter (λ col, col ∉ canonical_label <$> columns table) key_cols)
    as [|m ms] eqn:Hmiss.
  - apply filter_missing_nil in Hmiss. rewrite decide_True by by apply Hkeys.
    set (h0 := {| columns := canonical_label <$> columns table; rows := _ |}).
    assert (Hc1 : columns (pd.map_column "home_team" _normalize_team h0)
                  = canonical_label <$> columns table).
    { rewrite columns_map_column; [done|]. apply Hmiss. by_compute. }
    assert (Hc2 : columns (pd.map_column "away_team" _normalize_team
                             (pd.map_column "home_team" _normalize_team h0))
                  = canonical_label <$> columns table).
    { rewrite columns_map_column; [done|]. rewrite Hc1. apply Hmiss. by_compute. }
    by rewrite Hc2, keep_cols_NoDup.
  - rewrite decide_False; [done|]. intros Hsub%Hkeys.
    apply filter_missing_nil in Hsub. congruence.
Qed.

(** What the loader returns is in canonical form. *)
Lemma loader_returns_canonical fs historical_csv hist :
  _prepare_historical_lines fs historical_csv key_cols = Returned (Some hist) →
  canonical_table hist.
Proof.
  intros Hload. split; [by apply (loader_shape _ _ _ Hload)|].
  revert Hload. unfold _prepare_historical_lines.
  destruct historical_csv as [path|]; [|done].
  destruct (_ || _); [done|]. destruct (read_csv fs path) as [table|]; [|done].
  destruct (filter _ key_cols); [|done].
  rewrite keep_cols_NoDup.
  match goal with
  | |- Returned (Some (pd.select ?L (pd.map_column _ _ (pd.map_column _ _ ?X)))) = _ → _ =>
      intros H;
      assert (hist = pd.select L (pd.map_column "away_team" _normalize_team
                                    (pd.map_column "home_team" _normalize_team X)))
        as -> by congruence;
      clear H; generalize X; intros X0
  end.
  rewrite columns_select. split; [eauto|].
  rewrite rows_select, !rows_map_column, <- !list_fmap_compose.
  apply Forall_fmap, Forall_forall. intros r _. unfold compose.
  rewrite !lookup_select_row.
  rewrite !decide_True by (apply elem_of_app; left; by_compute).
  rewrite !lookup_set_cell.
  rewrite (decide_False (P := "away_team" = "home_team")) by done.
  rewrite (decide_True (P := "home_team" = "home_team")) by done.
  rewrite (decide_True (P := "away_team" = "away_team")) by done.
  rewrite (decide_False (P := "home_team" = "away_team")) by done.
  by rewrite !normalize_team_fixed.
Qed.

(** A readable file in canonical form is loaded as it is. *)
Lemma loader_fixes_canonical fs path hist :
  canonical_table hist → path ≠ "" → fs path = Csv hist →
  _prepare_historical_lines fs (Some path) key_cols = Returned (Some hist).
Proof.
  intros (Hwf & [present Hcols] & Hteams) Hne Hfs.
  rewrite (loader_Csv fs path hist Hne Hfs).
  assert (Hkeys : key_cols ⊆ columns hist).
  { intros k Hk. rewrite Hcols. apply elem_of_app. by left. }
  rewrite decide_True by done. cbn zeta.
  assert (Hfix : ∀ c, c ∈ columns hist → canonical_label c = c).
  { intros c Hc. apply canonical_label_fixed. rewrite Hcols in Hc.
    apply elem_of_app in Hc as [Hc|[_ Hc]%list_elem_of_filter]; apply elem_of_app; auto. }
  assert (Hlabels : canonical_label <$> columns hist = columns hist).
  { rewrite <- (list_fmap_id (columns hist)) at 2. by apply list_fmap_ext_in. }
  rewrite Hlabels.
  assert (Hkeep : key_cols ++ filter (λ c, c ∈ columns hist) ODDS_VALUE_COLUMNS
                  = columns hist).
  { transitivity (key_cols ++ filter (λ c, c ∈ present) ODDS_VALUE_COLUMNS); [|done].
    f_equal. apply filter_ext_in. intros c Hc. rewrite Hcols.
    rewrite elem_of_app, list_elem_of_filter. split; [|tauto].
    intros [Hk|[? _]]; [|done]. by apply key_cols_not_odds in Hk. }
  rewrite Hkeep. do 2 f_equal. apply frame_eq; [by rewrite columns_select|].
  rewrite rows_select, !rows_map_column. cbn [rows]. rewrite <- !list_fmap_compose.
  rewrite <- (list_fmap_id (rows hist)) at 2. apply list_fmap_ext_in.
  intros r Hr. unfold compose.
  rewrite Forall_forall in Hteams. destruct (Hteams r Hr) as [Hh Ha].
  assert (Hrel : pd.relabel canonical_label (columns hist) r = r).
  { rewrite (relabel_ext canonical_label id) by done.
    apply map_eq. intros k. rewrite relabel_id_lookup. case_decide; [done|].
    symmetry. by apply (frame_wf_lookup hist). }
  rewrite Hrel, Hh, set_cell_same, Ha, set_cell_same.
  apply map_eq. intros k. rewrite lookup_select_row. case_decide; [done|].
  symmetry. by apply (frame_wf_lookup hist).
Qed.

(** X8.  The loader is idempotent: a table that it returned, stored and read
    back, is returned unchanged. *)
Theorem loader_idempotent fs historical_csv hist fs' path' :
  _prepare_historical_lines fs historical_csv key_cols = Returned (Some hist) →
  path' ≠ "" → fs' path' = Csv hist →
  _prepare_historical_lines fs' (Some path') key_cols = Returned (Some hist).
Proof.
  intros Hload Hne Hfs. apply loader_fixes_canonical; [|done..].
  by apply (loader_returns_canonical fs historical_csv).
Qed.

(** The table loaded from the sample file, read back from another path. *)
Lemma loader_idempotent_witness :
  _prepare_historical_lines (λ _, Csv (loaded_hist sample_fs (Some "lines.csv")))
    (Some "again.csv") key_cols
  = Returned (Some (loaded_hist sample_fs (Some "lines.csv"))).
Proof.
  apply (loader_idempotent sample_fs (Some "lines.csv")); [|done|done].
  vm_compute. reflexivity.
Defined.

(** X9.  The key columns have no synonyms: for a readable file the loader
    returns a table exactly when the file carries the four labels season,
    week, home_team and away_team themselves, and [None] otherwise.  A
    label of the returned table is a key column or an odds-value column. *)
Theorem loader_needs_literal_keys fs path table :
  path ≠ "" → fs path = Csv table →
  ((∃ hist, _prepare_historical_lines fs (Some path) key_cols = Returned (Some hist)) ↔
     key_cols ⊆ columns table) ∧
  (_prepare_historical_lines fs (Some path) key_cols = Returned None ↔
     ¬ key_cols ⊆ columns table) ∧
  (∀ hist, _prepare_historical_lines fs (Some path) key_cols = Returned (Some hist) →
     length (rows hist) = length (rows table) ∧
     ∀ c, c ∈ columns hist ↔
          c ∈ key_cols ∨
          c ∈ ODDS_VALUE_COLUMNS ∧ ∃ c0, c0 ∈ columns table ∧ canonical_label c0 = c).
Proof.
  intros Hne Hfs. rewrite (loader_Csv fs path table Hne Hfs).
  destruct (decide (key_cols ⊆ columns table)) as [Hsub|Hsub]; cbn zeta.
  - split; [by split; eauto|]. split; [by split|].
    intros hist H.
    match type of H with
    | Returned (Some ?X) = _ => assert (hist = X) as -> by congruence
    end.
    clear H. rewrite columns_select, rows_select, !rows_map_column.
    cbn [rows]. rewrite !length_fmap. split; [done|].
    intros c. rewrite elem_of_app, list_elem_of_filter, list_elem_of_fmap.
    split; (intros [?|[H1 H2]]; [by left|right]); split; try done.
    + destruct H1 as (c0 & -> & ?). eauto.
    + destruct H2 as (c0 & ? & <-). eauto.
  - split; [split; [by intros [? ?]|done]|]. split; [done|]. by intros hist.
Qed.

(** The sample file without the [week] column. *)
Lemma loader_needs_literal_keys_witness :
  _prepare_historical_lines sample_fs (Some "keyless.csv") key_cols = Returned None.
Proof.
  apply (loader_needs_literal_keys sample_fs "keyless.csv" keyless_lines_table);
    [done|reflexivity|by_compute].
Defined.

(** ** Sources that deliver nothing *)


Lemma no_usable_event_no_row events preference :
  Forall (λ event, event_usable event = false) events →
  _odds_json_to_frame events preference = pd.empty_frame ["home_team"; "away_team"].
Proof.
  intros Hall. unfold _odds_json_to_frame.
  assert (Hnone : omap (λ event, event_row event preference) events = []).
  { induction Hall as [|event events He _ IH]; [done|].
    cbn [omap list_omap]. by rewrite (event_unusable_no_row event preference He). }
  by rewrite Hnone.
Qed.




(** A historical table without rows is not merged. *)
Lemma backfill_no_rows merged hist :
  rows hist = [] → backfill merged (Some hist) = backfill merged None.
Proof.
  intros Hrows. unfold backfill, pd.empty.
  by rewrite (bool_decide_eq_true_2 _ Hrows).
Qed.

(** X11.  A historical path that gives no table, or a table without rows,
    is the same as no historical path: the empty path, a path at which
    nothing lies, a readable file that lacks one of the four key labels, and
    a readable file without rows all leave the result as it is without a
    path. *)
Theorem unusable_history_is_no_history fs response schedule api_key preference path :
  path = "" ∨ fs path = Absent ∨
  (∃ table, fs path = Csv table ∧ (¬ key_cols ⊆ columns table ∨ rows table = [])) →
  fetch_schedule_odds fs response schedule api_key (Some path) preference
  = fetch_schedule_odds fs response schedule api_key None preference.
Proof.
  intros Hcase. unfold fetch_schedule_odds.
  destruct (filter (λ c, c ∉ columns schedule) _); [|done].
  destruct (truthy (Some path)) eqn:Ht; [|done].
  assert (Hne : path ≠ "") by (intros ->; done).
  cbn [truthy].
  destruct Hcase as [->|[Habs|(table & Hfs & Hcase)]]; [done| |].
  - unfold _prepare_historical_lines, path_exists. rewrite Habs.
    by rewrite orb_true_r.
  - rewrite (loader_Csv fs path table Hne Hfs).
    destruct (decide (key_cols ⊆ columns table)) as [Hsub|Hsub]; [|done].
    destruct Hcase as [?|Hrows]; [done|]. lazy beta iota zeta.
    rewrite backfill_no_rows; [done|].
    rewrite rows_select, !rows_map_column. cbn [rows]. by rewrite Hrows.
Qed.

(** The sample file without the [week] column, against no path. *)
Lemma unusable_history_is_no_history_witness :
  fetch_schedule_odds sample_fs (HttpEvents sample_events) sample_schedule "key"
    (Some "keyless.csv") (Some "pinnacle")
  = fetch_schedule_odds sample_fs (HttpEvents sample_events) sample_schedule "key"
      None (Some "pinnacle").
Proof.
  apply unusable_history_is_no_history. right. right.
  exists keyless_lines_table. split; [reflexivity|]. left. by_compute.
Defined.

(** ** The shape of the result *)

(** The historical stage adds the [odds_source] column and nothing else: the
    [_hist] columns of the merge are all dropped by the fill loop. *)
Lemma backfill_columns merged hist c :
  backfill_ready merged hist →
  c ∈ columns (backfill merged (Some hist)) ↔ c ∈ columns merged ∨ c = "odds_source".
Proof.
  intros (Hwm & Hwh & Hodds & Hkeys & Hcols).
  rewrite Forall_forall in Hodds. rewrite Forall_forall in Hcols.
  unfold backfill. destruct (pd.empty hist); cbn [negb].
  { apply ensure_column_spec. }
  set (m2 := pd.merge merged hist key_cols ("", "_hist")).
  assert (Hcols2 : columns m2 = columns merged ++ (hist_label <$> pd.rest key_cols hist)).
  { apply hist_merge_columns; [intros c' Hc'; by apply Hodds|done]. }
  assert (Hrows2 : rows m2 = id <$> rows m2) by by rewrite list_fmap_id.
  destruct (backfill_loop_fmap (rows m2) ODDS_VALUE_COLUMNS id (λ _, false) m2 Hrows2)
    as (Hc3 & _ & _).
  destruct (foldl backfill_column (m2, _) ODDS_VALUE_COLUMNS) as [m3 fl3].
  cbn [fst snd] in Hc3. unfold pd.loc_set; cbn [columns].
  rewrite (proj1 (ensure_column_spec m3 "odds_source")), Hc3, fill_loop_elem_of, Hcols2.
  rewrite elem_of_app. split.
  - intros [[[?|Hc] Hn]|?]; auto. destruct Hn.
    apply list_elem_of_fmap in Hc as (c0 & -> & Hc0).
    apply list_elem_of_fmap. exists c0. split; [done|].
    by apply (elem_of_rest_h hist Hcols) in Hc0 as [_ ?].
  - intros [Hc|?]; [left|by right]. split; [by left|].
    intros (c0 & -> & Hc0)%list_elem_of_fmap. by apply (Hodds c0).
Qed.

(** X12.  Every result carries the eight odds-value columns and
    [odds_source]; its columns are those of the live merge and [odds_source]:
    no [_hist] column of the historical merge is left.  No row has a missing
    [odds_source], and for a schedule without an [odds_source] column of its
    own the tag is one of [odds_api], [historical] and [missing]. *)
Theorem enrich_output_shape
    fs response schedule api_key historical_csv preference out :
  fetch_schedule_odds fs response schedule api_key historical_csv preference
    = Returned out →
  Forall (λ c, hist_label c ∉ columns schedule) ODDS_VALUE_COLUMNS →
  (∀ c, c ∈ columns out ↔
        c ∈ columns (live_merged schedule api_key response preference) ∨
        c = "odds_source") ∧
  Forall (λ c, c ∈ columns out ∧ hist_label c ∉ columns out) ODDS_VALUE_COLUMNS ∧
  Forall (λ r : gmap string scalar, is_Some (r !! "odds_source")) (rows out) ∧
  ("odds_source" ∉ columns schedule →
   Forall (λ r : gmap string scalar,
             r !! "odds_source" ∈
               [Some (SStr "odds_api"); Some (SStr "historical"); Some (SStr "missing")])
          (rows out)).
Proof.
  intros [Hkeys ->]%fetch_Returned Hfresh.
  pose proof (live_merged_ready fs schedule api_key response preference historical_csv
                Hkeys Hfresh) as Hready.
  set (merged := live_merged schedule api_key response preference) in *.
  set (hist := loaded_hist fs historical_csv) in *.
  assert (Hcols : ∀ c, c ∈ columns (tag_sources (backfill merged (Some hist))) ↔
                       c ∈ columns merged ∨ c = "odds_source").
  { intros c. rewrite (proj1 (tag_sources_spec _)), backfill_columns by done. tauto. }
  split; [done|]. split; [|split].
  - destruct Hready as (_ & _ & Hodds & _). rewrite Forall_forall in Hodds.
    apply Forall_forall. intros c Hc. destruct (Hodds c Hc) as [Hin Hout].
    rewrite !Hcols. split; [by left|]. intros [?|Heq]; [done|].
    symmetry in Heq. by apply odds_source_not_hist_label in Heq.
  - rewrite (proj2 (tag_sources_spec _)). apply Forall_fmap, Forall_forall.
    intros r _. unfold compose. rewrite tag_row_lookup, decide_True by done.
    destruct (forallb _ _); [done|]. by destruct (r !! "odds_source").
  - intros Hos.
    pose proof (live_merged_tags schedule api_key response preference Hkeys Hos) as Htags.
    rewrite (proj2 (tag_sources_spec _)), backfill_ready_rows by done.
    rewrite <- list_fmap_compose. apply Forall_fmap, Forall_forall.
    intros p Hp. unfold compose.
    rewrite (proj2 (tagged_row_lookup p)).
    apply elem_of_joined in Hp as [Hl _]. rewrite Forall_forall in Htags.
    destruct (forallb _ _); [by_compute|].
    destruct (Htags _ Hl) as [-> | ->]; [|by_compute].
    destruct (filled_from_hist _ _); by_compute.
Qed.

(** The sample run with a live response and a historical file. *)
Lemma enrich_output_shape_witness :
  Forall (λ c, c ∈ columns (result_frame
       (fetch_schedule_odds sample_fs (HttpEvents sample_events) sample_schedule "key"
          (Some "lines.csv") (Some "pinnacle"))))
    ODDS_VALUE_COLUMNS.
Proof.
  eapply Forall_impl.
  - apply (enrich_output_shape sample_fs (HttpEvents sample_events) sample_schedule "key"
             (Some "lines.csv") (Some "pinnacle")); [vm_compute; reflexivity|by_compute].
  - intros c [Hc _]. exact Hc.
Defined.

(** ** No game is lost *)

(** The pairs of a left merge, grouped by left row. *)
Lemma joined_groups on ls rs :
  ∃ groups,
    joined on ls rs = concat groups ∧
    Forall2 (λ l g, g ≠ [] ∧ Forall (λ p : gmap string scalar * option (gmap string scalar),
                                        p.1 = l) g) ls groups.
Proof.
  unfold joined. induction ls as [|l ls (groups & Heq & Hall)].
  { exists []. split; [done|constructor]. }
  rewrite bind_cons.
  set (g := match filter (λ r, pd.key on r = pd.key on l) rs with
            | [] => [(l, None)]
            | r :: matches => (λ r', (l, Some r')) <$> r :: matches
            end).
  exists (g :: groups). split; [cbn [concat]; by rewrite Heq|].
  constructor; [|done]. unfold g.
  destruct (filter _ rs) as [|r matches]; split; try done.
  - by repeat constructor.
  - apply Forall_fmap, Forall_forall. by intros r' _.
Qed.

Lemma Forall2_compose {A B C} (Q : A → B → Prop) (R : B → C → Prop) la lb lc :
  Forall2 Q la lb → Forall2 R lb lc →
  Forall2 (λ a c, ∃ b, Q a b ∧ R b c) la lc.
Proof.
  intros HQ. revert lc. induction HQ as [|a b la lb Hab _ IH]; intros lc HR.
  - apply Forall2_nil_inv_l in HR as ->. constructor.
  - apply Forall2_cons_inv_l in HR as (c & lc' & Hbc & HR & ->).
    constructor; [eauto|by apply IH].
Qed.

Lemma concat_length_ge {A} (groups : list (list A)) :
  Forall (λ g, g ≠ []) groups → (length groups ≤ length (concat groups))%nat.
Proof.
  induction 1 as [|g groups Hg _ IH]; [done|].
  cbn [concat length]. rewrite length_app. destruct g; [done|]. cbn [length]. lia.
Qed.

(** X13.  No game is lost and none changes place: the rows of the result
    are, in the order of the schedule, one non-empty group of rows for each
    schedule row, and every row of the group carries the season and week of
    the schedule row and its normalised teams.  So the result has at least
    as many rows as the schedule, and its teams are normalised. *)
Theorem enrich_keeps_every_game
    fs response schedule api_key historical_csv preference out :
  fetch_schedule_odds fs response schedule api_key historical_csv preference
    = Returned out →
  Forall (λ c, hist_label c ∉ columns schedule) ODDS_VALUE_COLUMNS →
  (∃ groups,
     rows out = concat groups ∧
     Forall2 (λ s g,
         g ≠ [] ∧
         Forall (λ r : gmap string scalar,
                   r !! "season" = s !! "season" ∧ r !! "week" = s !! "week" ∧
                   r !! "home_team" = _normalize_team (s !! "home_team") ∧
                   r !! "away_team" = _normalize_team (s !! "away_team")) g)
       (rows schedule) groups) ∧
  (length (rows schedule) ≤ length (rows out))%nat ∧
  Forall (λ r : gmap string scalar,
            _normalize_team (r !! "home_team") = r !! "home_team" ∧
            _normalize_team (r !! "away_team") = r !! "away_team") (rows out).
Proof.
  intros [Hkeys ->]%fetch_Returned Hfresh.
  pose proof (live_merged_ready fs schedule api_key response preference historical_csv
                Hkeys Hfresh) as Hready.
  pose proof (live_merged_keys schedule api_key response preference Hkeys) as Hlive.
  set (merged := live_merged schedule api_key response preference) in *.
  set (hist := loaded_hist fs historical_csv) in *.
  destruct (joined_groups key_cols (rows merged) (rows hist)) as (pgroups & Hj & Hg).
  assert (Hrows : rows (tag_sources (backfill merged (Some hist)))
                  = concat ((λ g : list (gmap string scalar * option (gmap string scalar)),
                             (λ p, tag_row (backfilled_row p)) <$> g) <$> pgroups)).
  { rewrite (proj2 (tag_sources_spec _)), backfill_ready_rows, Hj by done.
    rewrite <- list_fmap_compose. clear. induction pgroups as [|g gs IH]; [done|].
    cbn [concat]. rewrite fmap_app, fmap_cons. cbn [concat]. by rewrite IH. }
  assert (Hgroups : Forall2 (λ s g,
         g ≠ [] ∧
         Forall (λ r : gmap string scalar,
                   r !! "season" = s !! "season" ∧ r !! "week" = s !! "week" ∧
                   r !! "home_team" = _normalize_team (s !! "home_team") ∧
                   r !! "away_team" = _normalize_team (s !! "away_team")) g)
       (rows schedule) ((λ g : list (gmap string scalar * option (gmap string scalar)),
                             (λ p, tag_row (backfilled_row p)) <$> g) <$> pgroups)).
  { apply Forall2_fmap_r.
    eapply Forall2_impl; [exact (Forall2_compose _ _ _ _ _ Hlive Hg)|].
    intros s g (l & (H1 & H2 & H3 & H4) & Hne & Hall). split.
    - destruct g; [done|]. by rewrite fmap_cons.
    - apply Forall_fmap. eapply Forall_impl; [exact Hall|].
      intros p Hp. unfold compose. cbv beta in Hp.
      rewrite !tagged_row_key by by_compute. rewrite Hp. done. }
  split; [eauto|]. split.
  - rewrite Hrows. rewrite (Forall2_length _ _ _ Hgroups).
    apply concat_length_ge. clear -Hgroups.
    induction Hgroups as [|s g ss gs [Hne _] _ IH]; by constructor.
  - rewrite Hrows. clear -Hgroups.
    induction Hgroups as [|s g ss gs [_ Hg] _ IH]; [constructor|].
    cbn [concat]. apply Forall_app. split; [|done].
    eapply Forall_impl; [exact Hg|]. intros r (_ & _ & -> & ->).
    by rewrite !normalize_team_fixed.
Qed.

(** The sample schedule with the historical file that repeats a key. *)
Lemma enrich_keeps_every_game_witness :
  (length (rows sample_schedule) ≤
   length (rows (result_frame
     (fetch_schedule_odds sample_fs HttpFailure sample_schedule "key"
        (Some "repeated.csv") None))))%nat.
Proof.
  apply (enrich_keeps_every_game sample_fs HttpFailure sample_schedule "key"
           (Some "repeated.csv") None); [vm_compute; reflexivity|by_compute].
Defined.

(** ** The live merge, row by row *)

Lemma head_filter_fmap {A B} (f : A → B) (P : B → Prop) (Q : A → Prop)
    `{∀ y, Decision (P y)} `{∀ x, Decision (Q x)} (l : list A) :
  (∀ x, P (f x) ↔ Q x) →
  head (filter P (f <$> l)) = f <$> head (filter Q l).
Proof.
  intros HPQ. induction l as [|x l IH]; [done|].
  rewrite fmap_cons, !filter_cons. destruct (decide (Q x)) as [HQ|HQ].
  - by rewrite decide_True by by apply HPQ.
  - rewrite decide_False; [done|]. by intros ?%HPQ.
Qed.

Lemma clean_latest_columns latest : columns (clean_latest latest) = columns latest.
Proof. unfold clean_latest. by destruct (_ && _). Qed.

(** The cleaned live table of a run has cells under its labels only. *)
Lemma cleaned_latest_wf api_key response preference :
  frame_wf (clean_latest (fetched_latest api_key response preference)).
Proof.
  assert (Hwf : frame_wf (fetched_latest api_key response preference)).
  { unfold fetched_latest. destruct (truthy (Some api_key)); [|constructor].
    destruct response as [|data]; cbn [_fetch_latest_odds]; [constructor|].
    apply odds_frame_wf. }
  apply frame_wf_intro. intros r k Hr Hk. rewrite clean_latest_columns in Hk.
  apply (frame_wf_lookup _ r k Hwf); [|done].
  by apply (clean_latest_spec _ (proj1 (fetched_latest_shape api_key response preference))).
Qed.

Lemma live_labels_not_pair c :
  c ∈ live_labels → c ∉ ["home_team"; "away_team"].
Proof.
  intros Hc [->|[->|H%elem_of_nil]%elem_of_cons]%elem_of_cons; try done;
    revert Hc; by_compute.
Qed.

(** The cells of the rows of the live merge, for a schedule that has none
    of the live labels. *)
Lemma merge_live_cells schedule latest :
  (∀ c, c ∈ live_labels → c ∉ columns schedule) →
  frame_wf latest →
  NoDup (pd.key ["home_team"; "away_team"] <$> rows latest) →
  Forall2 (λ s l,
      (∀ c, c ∈ columns schedule → l !! c = s !! c) ∧
      match filter (λ t, pd.key ["home_team"; "away_team"] t
                         = pd.key ["home_team"; "away_team"] s) (rows latest) with
      | [] => ∀ c, c ∈ live_labels → l !! c = None
      | t :: _ => ∀ c, c ∈ live_labels → l !! c = t !! c
      end)
    (rows schedule) (rows (merge_live schedule latest)).
Proof.
  intros Hdisj Hwf Hnd. rewrite merge_live_rows. cbn zeta.
  rewrite joined_unique by by rewrite live_selection_keys.
  rewrite <- list_fmap_compose.
  apply Forall2_fmap_r, Forall_Forall2_diag, Forall_forall.
  intros s _. unfold compose.
  set (sel := live_selection latest).
  set (on := ["home_team"; "away_team"]).
  set (ov := pd.overlap schedule sel on).
  assert (Hov : ∀ c, c ∉ ov).
  { intros c Hc. destruct (live_overlap schedule latest c Hc) as [H1 H2].
    by apply (Hdisj c). }
  assert (Hsfx : ∀ sfx c, pd.suffixed ov sfx c = c).
  { intros sfx c. unfold pd.suffixed. by rewrite bool_decide_eq_false_2. }
  assert (Hrest : ∀ c, c ∈ pd.rest on sel ↔ c ∈ live_labels ∧ c ∈ columns latest).
  { intros c. split; [apply live_rest|]. intros [H1 H2].
    unfold pd.rest, sel, live_selection. rewrite columns_select.
    apply list_elem_of_filter. split; [by apply live_labels_not_pair|].
    apply elem_of_app. right. by apply list_elem_of_filter. }
  assert (Hdel : ∀ c, c ∈ filter (λ c, c ∉ columns (pd.merge schedule sel on ("_x", "_y")))
                            ODDS_VALUE_COLUMNS →
                      c ∈ live_labels ∧ c ∉ pd.rest on sel).
  { intros c [Hn Hc]%list_elem_of_filter. split.
    - apply elem_of_app. by left.
    - intros Hr. apply Hn. unfold pd.merge; cbn [columns]. apply elem_of_app. right.
      apply list_elem_of_fmap. exists c. by rewrite Hsfx. }
  assert (Hhead : head (filter (λ r, pd.key on r = pd.key on s) (rows sel))
                  = (λ t : gmap string scalar,
                       filter (λ kv : string * scalar,
                                 kv.1 ∈ on ++ filter (λ c, c ∈ columns latest) live_labels) t)
                    <$> head (filter (λ t, pd.key on t = pd.key on s) (rows latest))).
  { unfold sel, live_selection. rewrite rows_select. apply head_filter_fmap.
    intros t. unfold pd.key, on. cbn [fmap list_fmap]. rewrite !lookup_select_row.
    rewrite !decide_True; [done|..]; apply elem_of_app; left; by_compute. }
  rewrite Hhead. clear Hhead.
  assert (Hleft : ∀ sfx c, pd.relabel (pd.suffixed ov sfx) (columns schedule) s !! c
                           = if decide (c ∈ columns schedule) then s !! c else None).
  { intros sfx c. rewrite (relabel_ext _ id) by (intros; apply Hsfx).
    apply relabel_id_lookup. }
  split.
  - intros c Hc. rewrite lookup_drop_cells, decide_False.
    2:{ intros [Hl _]%Hdel. by apply (Hdisj c). }
    unfold merge_row; cbn [fst snd].
    destruct (head (filter _ (rows latest))) as [t|]; cbn [fmap option_fmap option_map].
    + rewrite lookup_union, Hleft, decide_True by done.
      rewrite relabel_lookup_None; [by destruct (s !! c)|].
      intros (c' & Heq & Hc')%list_elem_of_fmap. rewrite Hsfx in Heq. subst c'.
      apply Hrest in Hc' as [Hl _]. by apply (Hdisj c).
    + by rewrite Hleft, decide_True.
  - destruct (filter (λ t, pd.key on t = pd.key on s) (rows latest)) as [|t ts] eqn:Hf;
      cbn [head fmap option_fmap option_map]; intros c Hc.
    + rewrite lookup_drop_cells. case_decide; [done|].
      unfold merge_row; cbn [fst snd]. rewrite Hleft, decide_False; [done|].
      by apply Hdisj.
    + assert (Ht : t ∈ rows latest).
      { assert (H : t ∈ t :: ts) by left. rewrite <- Hf in H.
        by apply list_elem_of_filter in H as [_ ?]. }
      assert (Hnone : c ∉ pd.rest on sel → t !! c = None).
      { intros Hn. apply (frame_wf_lookup latest); [done..|].
        intros Hin. apply Hn, Hrest. done. }
      rewrite lookup_drop_cells. case_decide as Hd.
      { symmetry. apply Hnone. by apply Hdel in Hd as [_ ?]. }
      unfold merge_row; cbn [fst snd].
      rewrite lookup_union, Hleft, decide_False by by apply Hdisj.
      rewrite (relabel_ext _ id) by (intros; apply Hsfx).
      rewrite relabel_id_lookup, (left_id None _).
      case_decide as Hr; [|symmetry; by apply Hnone].
      rewrite lookup_select_row, decide_True; [done|].
      apply Hrest in Hr as [H1 H2]. apply elem_of_app. right.
      by apply list_elem_of_filter.
Qed.

(** X14.  The live merge gives every game the quote of its team pair.  For
    a schedule that has none of the live labels (the odds-value columns,
    [odds_source] and [commence_time]), each row of the live merge keeps the
    cells of its schedule row, teams normalised; at most one row of the
    cleaned live table has the game's normalised home and away teams; with
    such a row the live labels of the merged row are the cells of that row,
    and without one they are all missing.  So the live merge tags a row
    [odds_api] exactly when a live row has its team pair. *)
Theorem live_merge_takes_the_quote schedule api_key response preference :
  key_cols ⊆ columns schedule →
  (∀ c, c ∈ live_labels → c ∉ columns schedule) →
  let cleaned := rows (clean_latest (fetched_latest api_key response preference)) in
  Forall2 (λ s l,
      let quotes :=
        filter (λ t : gmap string scalar,
                  t !! "home_team" = _normalize_team (s !! "home_team") ∧
                  t !! "away_team" = _normalize_team (s !! "away_team")) cleaned in
      (∀ c, c ∈ columns schedule →
         l !! c = if decide (c = "home_team" ∨ c = "away_team")
                  then _normalize_team (s !! c) else s !! c) ∧
      (length quotes ≤ 1)%nat ∧
      match quotes with
      | [] => ∀ c, c ∈ live_labels → l !! c = None
      | t :: _ => ∀ c, c ∈ live_labels → l !! c = t !! c
      end ∧
      (l !! "odds_source" = Some (SStr "odds_api") ↔ quotes ≠ []))
    (rows schedule) (rows (live_merged schedule api_key response preference)).
Proof.
  intros Hkeys Hdisj. cbn zeta.
  assert (Hh : "home_team" ∈ columns schedule) by (apply Hkeys; by_compute).
  assert (Ha : "away_team" ∈ columns schedule) by (apply Hkeys; by_compute).
  destruct (normalised_schedule schedule Hh Ha) as [Hc0 Hr0].
  unfold live_merged.
  set (schedule' := pd.map_column "away_team" _ _) in *.
  set (latest := clean_latest (fetched_latest api_key response preference)).
  assert (Hnd : NoDup (pd.key ["home_team"; "away_team"] <$> rows latest)).
  { apply clean_latest_spec, fetched_latest_shape. }
  pose proof (merge_live_cells schedule' latest) as Hcells.
  rewrite Hc0 in Hcells.
  specialize (Hcells Hdisj (cleaned_latest_wf api_key response preference) Hnd).
  rewrite Hr0 in Hcells. apply Forall2_fmap_l in Hcells.
  eapply Forall2_impl; [exact Hcells|].
  intros s l [Hsched Hlive]. unfold compose in *.
  set (s' := pd.set_cell "away_team" _ _) in *.
  assert (Hs' : ∀ c, s' !! c = if decide (c = "home_team" ∨ c = "away_team")
                               then _normalize_team (s !! c) else s !! c).
  { intros c. unfold s'. rewrite !lookup_set_cell.
    destruct (decide ("away_team" = c)) as [<-|?].
    - by rewrite decide_True by auto.
    - destruct (decide ("home_team" = c)) as [<-|?].
      + by rewrite decide_True by auto.
      + rewrite decide_False; [done|]. by intros [->| ->]. }
  assert (Hfilter :
    filter (λ t, pd.key ["home_team"; "away_team"] t = pd.key ["home_team"; "away_team"] s')
      (rows latest)
    = filter (λ t : gmap string scalar,
                t !! "home_team" = _normalize_team (s !! "home_team") ∧
                t !! "away_team" = _normalize_team (s !! "away_team")) (rows latest)).
  { apply filter_ext_in. intros t _. unfold pd.key. cbn [fmap list_fmap].
    rewrite !Hs'. rewrite !decide_True by auto. split.
    - by intros [= -> ->].
    - by intros [-> ->]. }
  rewrite Hfilter in Hlive. split; [|split; [|split; [done|]]]; cycle 2.
  { assert (Htag : "odds_source" ∈ live_labels) by by_compute.
    destruct (filter _ (rows latest)) as [|t ts] eqn:Hf.
    - rewrite (Hlive _ Htag). by split.
    - rewrite (Hlive _ Htag). split; [done|]. intros _.
      assert (Ht : t ∈ rows latest).
      { assert (H : t ∈ t :: ts) by left. rewrite <- Hf in H.
        by apply list_elem_of_filter in H as [_ ?]. }
      apply (clean_latest_spec _ (proj1 (fetched_latest_shape api_key response preference)))
        in Ht as [Ht _].
      pose proof (proj2 (fetched_latest_shape api_key response preference)) as Htags.
      cbn zeta in Htags. rewrite Forall_forall in Htags. by apply Htags. }
  - intros c Hc. by rewrite Hsched, Hs'.
  - rewrite <- Hfilter.
    destruct (filter_key_unique (pd.key ["home_team"; "away_team"]) (rows latest)
                (pd.key ["home_team"; "away_team"] s') Hnd) as [Hq|[t Hq]];
      rewrite Hq; cbn [length]; lia.
Qed.

(** The sample schedule and response: only the first game has a moneyline. *)
Lemma live_merge_takes_the_quote_witness :
  (λ l : gmap string scalar, l !! "home_moneyline")
    <$> rows (live_merged sample_schedule "key" (HttpEvents sample_events) (Some "pinnacle"))
  = [Some (SNum (-150)); None; None] ∧
  Forall2 (λ s l : gmap string scalar, l !! "week" = s !! "week")
    (rows sample_schedule)
    (rows (live_merged sample_schedule "key" (HttpEvents sample_events) (Some "pinnacle"))).
Proof.
  split; [vm_compute; reflexivity|].
  eapply Forall2_impl.
  - apply (live_merge_takes_the_quote sample_schedule "key" (HttpEvents sample_events)
             (Some "pinnacle")); [by_compute|].
    apply Forall_forall. by_compute.
  - intros s l [Hsched _]. cbv beta in Hsched. rewrite Hsched by by_compute.
    by rewrite decide_False by (by intros [?|?]).
Defined.

(** ** One source alone *)

Lemma Forall2_right {A B} (P : A → B → Prop) (Q : B → Prop) l k :
  Forall2 P l k → (∀ x y, P x y → Q y) → Forall Q k.
Proof. induction 1; intros HPQ; constructor; eauto. Qed.

(** A row of the live merge is tagged by a live row or has no live cell. *)
Lemma live_merged_cells_or_tag schedule api_key response preference :
  key_cols ⊆ columns schedule →
  (∀ c, c ∈ live_labels → c ∉ columns schedule) →
  Forall (λ l : gmap string scalar,
            l !! "odds_source" = Some (SStr "odds_api") ∨
            ∀ c, c ∈ live_labels → l !! c = None)
         (rows (live_merged schedule api_key response preference)) ∧
  (rows (clean_latest (fetched_latest api_key response preference)) = [] →
   Forall (λ l : gmap string scalar, ∀ c, c ∈ live_labels → l !! c = None)
          (rows (live_merged schedule api_key response preference))).
Proof.
  intros Hkeys Hdisj.
  assert (Hh : "home_team" ∈ columns schedule) by (apply Hkeys; by_compute).
  assert (Ha : "away_team" ∈ columns schedule) by (apply Hkeys; by_compute).
  destruct (normalised_schedule schedule Hh Ha) as [Hc0 _].
  unfold live_merged.
  set (schedule' := pd.map_column "away_team" _ _) in *.
  set (latest := clean_latest (fetched_latest api_key response preference)).
  assert (Hnd : NoDup (pd.key ["home_team"; "away_team"] <$> rows latest)).
  { apply clean_latest_spec, fetched_latest_shape. }
  pose proof (merge_live_cells schedule' latest) as Hcells.
  rewrite Hc0 in Hcells.
  specialize (Hcells Hdisj (cleaned_latest_wf api_key response preference) Hnd).
  split.
  - eapply Forall2_right; [exact Hcells|]. intros s l [_ Hlive]. cbv beta in Hlive.
    destruct (filter _ (rows latest)) as [|t ts] eqn:Hf; [by right|left].
    rewrite Hlive by by_compute.
    assert (Ht : t ∈ rows latest).
    { assert (H : t ∈ t :: ts) by left. rewrite <- Hf in H.
      by apply list_elem_of_filter in H as [_ ?]. }
    apply (clean_latest_spec _ (proj1 (fetched_latest_shape api_key response preference)))
      in Ht as [Ht _].
    pose proof (proj2 (fetched_latest_shape api_key response preference)) as Htags.
    cbn zeta in Htags. rewrite Forall_forall in Htags. by apply Htags.
  - intros Hnil. eapply Forall2_right; [exact Hcells|]. intros s l [_ Hlive].
    cbv beta in Hlive. by rewrite Hnil in Hlive.
Qed.

(** The provider delivers nothing: the cleaned live table has no rows. *)
Lemma cleaned_latest_no_rows api_key response preference :
  api_key = "" ∨ response = HttpFailure ∨
  (∃ events, response = HttpEvents events ∧
             Forall (λ event, event_usable event = false) events) →
  rows (clean_latest (fetched_latest api_key response preference)) = [].
Proof.
  intros Hcase.
  assert (Hlatest : fetched_latest api_key response preference
                    = pd.empty_frame ["home_team"; "away_team"] ∨
                    fetched_latest api_key response preference = pd.empty_frame key_cols).
  { unfold fetched_latest. destruct (truthy (Some api_key)) eqn:Ht; [|by left].
    destruct Hcase as [->|[->|(events & -> & Hall)]]; [done|by right|left].
    cbn [_fetch_latest_odds]. by apply no_usable_event_no_row. }
  by destruct Hlatest as [-> | ->].
Qed.

Lemma filled_from_hist_spec (l : gmap string scalar) h :
  filled_from_hist l h = true ↔
  ∃ c, c ∈ ODDS_VALUE_COLUMNS ∧ l !! c = None ∧ is_Some (hist_value h c).
Proof.
  unfold filled_from_hist. rewrite existsb_exists. split.
  - intros (c & Hc%list_elem_of_In & [H1 H2]%andb_true_iff). exists c.
    split; [done|]. unfold pd.notna, pd.isna in *.
    apply bool_decide_eq_true in H1. apply negb_true_iff, bool_decide_eq_false in H2.
    split; [done|]. by apply not_eq_None_Some.
  - intros (c & Hc & H1 & H2). exists c. split; [by apply list_elem_of_In|].
    unfold pd.notna, pd.isna. rewrite (bool_decide_eq_true_2 _ H1).
    apply negb_true_iff, bool_decide_eq_false, not_eq_None_Some. done.
Qed.

(** X15.  The historical stage touches nothing but the odds-value columns
    and [odds_source]: every other cell of a result row, the
    [commence_time] of the live row included, is the cell of the row of the
    live merge it comes from. *)
Theorem enrich_backfill_frame
    fs response schedule api_key historical_csv preference out :
  fetch_schedule_odds fs response schedule api_key historical_csv preference
    = Returned out →
  Forall (λ c, hist_label c ∉ columns schedule) ODDS_VALUE_COLUMNS →
  Forall2 (λ p r', ∀ k, k ∉ ODDS_VALUE_COLUMNS → k ≠ "odds_source" → r' !! k = p.1 !! k)
    (joined key_cols (rows (live_merged schedule api_key response preference))
                     (rows (loaded_hist fs historical_csv)))
    (rows out).
Proof.
  intros [Hkeys ->]%fetch_Returned Hfresh.
  pose proof (live_merged_ready fs schedule api_key response preference historical_csv
                Hkeys Hfresh) as Hready.
  rewrite (proj2 (tag_sources_spec _)), backfill_ready_rows by done.
  rewrite <- list_fmap_compose.
  apply Forall2_fmap_r, Forall_Forall2_diag, Forall_forall.
  intros [l h] _ k Hk Hos. unfold compose.
  rewrite tag_row_lookup, decide_False by done.
  by rewrite backfilled_row_lookup, !decide_False.
Qed.

(** The sample run: [commence_time] passes through the historical stage. *)
Lemma enrich_backfill_frame_witness :
  Forall2 (λ (p : gmap string scalar * option (gmap string scalar))
             (r' : gmap string scalar),
             r' !! "commence_time" = p.1 !! "commence_time")
    (joined key_cols
       (rows (live_merged sample_schedule "key" (HttpEvents sample_events)
                (Some "pinnacle")))
       (rows (loaded_hist sample_fs (Some "lines.csv"))))
    (rows (result_frame
       (fetch_schedule_odds sample_fs (HttpEvents sample_events) sample_schedule "key"
          (Some "lines.csv") (Some "pinnacle")))).
Proof.
  eapply Forall2_impl.
  - apply (enrich_backfill_frame sample_fs (HttpEvents sample_events) sample_schedule
             "key" (Some "lines.csv") (Some "pinnacle")); [vm_compute; reflexivity|by_compute].
  - intros p r' H. apply H; [by_compute|done].
Defined.

(** X16.  History alone: when the provider delivers nothing (no key, a
    failed call, or no usable event) and the schedule has none of the live
    labels, every odds-value column of a result row is the value of its
    historical partner, the row has no [commence_time], and it is tagged
    [historical] when the partner supplies a value and [missing] when it
    supplies none; no row is tagged [odds_api]. *)
Theorem history_alone
    fs response schedule api_key historical_csv preference out :
  api_key = "" ∨ response = HttpFailure ∨
  (∃ events, response = HttpEvents events ∧
             Forall (λ event, event_usable event = false) events) →
  fetch_schedule_odds fs response schedule api_key historical_csv preference
    = Returned out →
  (∀ c, c ∈ live_labels → c ∉ columns schedule) →
  Forall (λ c, hist_label c ∉ columns schedule) ODDS_VALUE_COLUMNS →
  Forall2 (λ p r',
      (∀ c, c ∈ ODDS_VALUE_COLUMNS → r' !! c = hist_value p.2 c) ∧
      r' !! "commence_time" = None ∧
      (r' !! "odds_source" = Some (SStr "historical") ↔
         ∃ c, c ∈ ODDS_VALUE_COLUMNS ∧ is_Some (hist_value p.2 c)) ∧
      (r' !! "odds_source" = Some (SStr "missing") ↔
         ∀ c, c ∈ ODDS_VALUE_COLUMNS → hist_value p.2 c = None) ∧
      r' !! "odds_source" ≠ Some (SStr "odds_api"))
    (joined key_cols (rows (live_merged schedule api_key response preference))
                     (rows (loaded_hist fs historical_csv)))
    (rows out).
Proof.
  intros Hcase [Hkeys ->]%fetch_Returned Hdisj Hfresh.
  pose proof (live_merged_ready fs schedule api_key response preference historical_csv
                Hkeys Hfresh) as Hready.
  pose proof (proj2 (live_merged_cells_or_tag schedule api_key response preference
                       Hkeys Hdisj) (cleaned_latest_no_rows _ _ _ Hcase)) as Hlive.
  rewrite Forall_forall in Hlive.
  rewrite (proj2 (tag_sources_spec _)), backfill_ready_rows by done.
  rewrite <- list_fmap_compose.
  apply Forall2_fmap_r, Forall_Forall2_diag, Forall_forall.
  intros p Hp. unfold compose.
  apply elem_of_joined in Hp as [Hl _]. specialize (Hlive _ Hl).
  destruct (tagged_row_lookup p) as [Hodds Htag]. cbn zeta in Hodds, Htag.
  assert (Hval : ∀ c, c ∈ ODDS_VALUE_COLUMNS →
            tag_row (backfilled_row p) !! c = hist_value p.2 c).
  { intros c Hc. rewrite (Hodds c Hc), Hlive; [done|]. apply elem_of_app. by left. }
  assert (Htime : tag_row (backfilled_row p) !! "commence_time" = None).
  { destruct p as [l h]. rewrite tag_row_lookup, decide_False by done.
    rewrite backfilled_row_lookup, !decide_False by (done || by_compute).
    apply Hlive. by_compute. }
  split; [done|]. split; [done|].
  rewrite Htag. rewrite (Hlive "odds_source") by by_compute.
  destruct (forallb _ _) eqn:Hall.
  - pose proof (proj1 (forallb_odds_isna _) Hall) as Hall'.
    assert (Hnone : ∀ c, c ∈ ODDS_VALUE_COLUMNS → hist_value p.2 c = None).
    { intros c Hc. rewrite <- Hval by done. by apply Hall'. }
    split; [|split; [done|done]]. split; [done|].
    intros (c & Hc & [v Hv]). rewrite Hnone in Hv by done. done.
  - assert (Hsome : ∃ c, c ∈ ODDS_VALUE_COLUMNS ∧ is_Some (hist_value p.2 c)).
    { destruct (decide (Forall (λ c, hist_value p.2 c = None) ODDS_VALUE_COLUMNS))
        as [Hn|Hn].
      - rewrite Forall_forall in Hn.
        assert (Ht : forallb (λ c, pd.isna (tag_row (backfilled_row p) !! c))
                       ODDS_VALUE_COLUMNS = true).
        { apply forallb_odds_isna. intros c Hc. rewrite Hval by done. by apply Hn. }
        congruence.
      - apply not_Forall_Exists in Hn; [|apply _].
        apply Exists_exists in Hn as (c & Hc & Hne). exists c. split; [done|].
        by apply not_eq_None_Some. }
    assert (Hfilled : filled_from_hist p.1 p.2 = true).
    { apply filled_from_hist_spec. destruct Hsome as (c & Hc & Hv).
      exists c. split; [done|]. split; [|done]. apply Hlive. apply elem_of_app. by left. }
    rewrite Hfilled. split; [done|]. split; [|done]. split; [done|].
    intros Hnone. destruct Hsome as (c & Hc & [v Hv]). rewrite Hnone in Hv by done. done.
Qed.

(** The sample schedule without a key, with the historical file. *)
Lemma history_alone_witness :
  Forall2 (λ (p : gmap string scalar * option (gmap string scalar))
             (r' : gmap string scalar),
             ∀ c, c ∈ ODDS_VALUE_COLUMNS → r' !! c = hist_value p.2 c)
    (joined key_cols
       (rows (live_merged sample_schedule "" HttpFailure None))
       (rows (loaded_hist sample_fs (Some "lines.csv"))))
    (rows (result_frame
       (fetch_schedule_odds sample_fs HttpFailure sample_schedule ""
          (Some "lines.csv") None))).
Proof.
  eapply Forall2_impl.
  - apply (history_alone sample_fs HttpFailure sample_schedule "" (Some "lines.csv") None);
      [by left|vm_compute; reflexivity|apply Forall_forall; by_compute|by_compute].
  - intros p r' [H _]. exact H.
Defined.

(** X17.  The live feed alone: when the historical table has no rows (no
    path, no file, no key columns, or an empty file) and the schedule has
    none of the live labels, the result has one row per row of the live
    merge with the same cells apart from [odds_source], and a row is tagged
    [odds_api] when one of its odds-value columns is present and [missing]
    when none is; no row is tagged [historical]. *)
Theorem live_feed_alone
    fs response schedule api_key historical_csv preference out :
  rows (loaded_hist fs historical_csv) = [] →
  fetch_schedule_odds fs response schedule api_key historical_csv preference
    = Returned out →
  (∀ c, c ∈ live_labels → c ∉ columns schedule) →
  Forall (λ c, hist_label c ∉ columns schedule) ODDS_VALUE_COLUMNS →
  Forall2 (λ l r' : gmap string scalar,
      (∀ k, k ≠ "odds_source" → r' !! k = l !! k) ∧
      (r' !! "odds_source" = Some (SStr "odds_api") ↔
         ∃ c, c ∈ ODDS_VALUE_COLUMNS ∧ is_Some (l !! c)) ∧
      (r' !! "odds_source" = Some (SStr "missing") ↔
         ∀ c, c ∈ ODDS_VALUE_COLUMNS → l !! c = None) ∧
      r' !! "odds_source" ≠ Some (SStr "historical"))
    (rows (live_merged schedule api_key response preference))
    (rows out).
Proof.
  intros Hnil [Hkeys ->]%fetch_Returned Hdisj Hfresh.
  pose proof (live_merged_ready fs schedule api_key response preference historical_csv
                Hkeys Hfresh) as Hready.
  pose proof (proj1 (live_merged_cells_or_tag schedule api_key response preference
                       Hkeys Hdisj)) as Hlive.
  rewrite Forall_forall in Hlive.
  rewrite (proj2 (tag_sources_spec _)), backfill_ready_rows by done.
  rewrite Hnil, joined_nil_r, <- !list_fmap_compose.
  apply Forall2_fmap_r, Forall_Forall2_diag, Forall_forall.
  intros l Hl. unfold compose. specialize (Hlive _ Hl).
  destruct (tagged_row_lookup (l, None)) as [Hodds Htag].
  cbn zeta in Hodds, Htag. cbn [fst snd] in Hodds, Htag.
  assert (Hval : ∀ c, c ∈ ODDS_VALUE_COLUMNS →
            tag_row (backfilled_row (l, None)) !! c = l !! c).
  { intros c Hc. rewrite (Hodds c Hc). by destruct (l !! c). }
  assert (Hnofill : filled_from_hist l None = false).
  { apply not_true_is_false. intros (c & _ & _ & [v Hv])%filled_from_hist_spec. done. }
  split.
  { intros k Hk. destruct (decide (k ∈ ODDS_VALUE_COLUMNS)); [by apply Hval|].
    rewrite tag_row_lookup, decide_False by done.
    by rewrite backfilled_row_lookup, !decide_False. }
  rewrite Htag, Hnofill.
  destruct (forallb _ _) eqn:Hall.
  - pose proof (proj1 (forallb_odds_isna _) Hall) as Hall'.
    assert (Hnone : ∀ c, c ∈ ODDS_VALUE_COLUMNS → l !! c = None).
    { intros c Hc. rewrite <- Hval by done. by apply Hall'. }
    split; [|split; [done|done]]. split; [done|].
    intros (c & Hc & [v Hv]). rewrite Hnone in Hv by done. done.
  - assert (Hsome : ∃ c, c ∈ ODDS_VALUE_COLUMNS ∧ is_Some (l !! c)).
    { destruct (decide (Forall (λ c, l !! c = None) ODDS_VALUE_COLUMNS)) as [Hn|Hn].
      - rewrite Forall_forall in Hn.
        assert (Ht : forallb (λ c, pd.isna (tag_row (backfilled_row (l, None)) !! c))
                       ODDS_VALUE_COLUMNS = true).
        { apply forallb_odds_isna. intros c Hc. rewrite Hval by done. by apply Hn. }
        congruence.
      - apply not_Forall_Exists in Hn; [|apply _].
        apply Exists_exists in Hn as (c & Hc & Hne). exists c. split; [done|].
        by apply not_eq_None_Some. }
    assert (Hos : l !! "odds_source" = Some (SStr "odds_api")).
    { destruct Hlive as [?|Hnone]; [done|]. destruct Hsome as (c & Hc & [v Hv]).
      rewrite Hnone in Hv; [done|]. apply elem_of_app. by left. }
    rewrite Hos. split; [done|]. split; [|done]. split; [done|].
    intros Hnone. destruct Hsome as (c & Hc & [v Hv]). rewrite Hnone in Hv by done. done.
Qed.

(** The sample schedule with the live response and no historical path. *)
Lemma live_feed_alone_witness :
  Forall2 (λ l r' : gmap string scalar, ∀ k, k ≠ "odds_source" → r' !! k = l !! k)
    (rows (live_merged sample_schedule "key" (HttpEvents sample_events) (Some "pinnacle")))
    (rows (result_frame
       (fetch_schedule_odds sample_fs (HttpEvents sample_events) sample_schedule "key"
          None (Some "pinnacle")))).
Proof.
  eapply Forall2_impl.
  - apply (live_feed_alone sample_fs (HttpEvents sample_events) sample_schedule "key" None
             (Some "pinnacle"));
      [reflexivity|vm_compute; reflexivity|apply Forall_forall; by_compute|by_compute].
  - intros l r' [H _]. exact H.
Defined.
